(** * Password strength assessment: a shallow embedding of password_strength.py

    The development follows the Python module function by function:
    [charset_size], [entropy_bits], [has_long_repeat], [has_sequence] and
    [assess_password].  Python strings are lists of code points, Python
    numbers are either unbounded integers or IEEE-754 binary64 floats (in the
    executable specification of the Standard Library), and exceptions are
    carried by a small error monad. *)

From Stdlib Require Import ZArith List String Ascii Bool Lia.
From Stdlib Require Import Floats.SpecFloat.
Import ListNotations.

Local Open Scope Z_scope.

(** ** Exceptions *)

Inductive exn : Type :=
| TypeError
| ValueError
| OverflowError
| ZeroDivisionError.

Inductive result (A : Type) : Type :=
| Ok (a : A)
| Raise (e : exn).

Arguments Ok {A} a.
Arguments Raise {A} e.

Definition bind {A B : Type} (r : result A) (k : A -> result B) : result B :=
  match r with
  | Ok a => k a
  | Raise e => Raise e
  end.

Notation "x <- r ;; k" := (bind r (fun x => k))
  (at level 61, r at next level, right associativity).

(** ** Python numbers *)

Module PyNum.

(** CPython's [float] is the C [double]: binary64. *)
Definition prec : Z := 53.
Definition emax : Z := 1024.

Definition float : Type := spec_float.

Inductive num : Type :=
| Int (z : Z)
| Float (f : float).

Definition is_finite (f : float) : bool :=
  match f with
  | S754_zero _ | S754_finite _ _ _ => true
  | _ => false
  end.

(** [float(z)] for an integer: round to nearest, ties to even; an integer
    beyond the largest double raises [OverflowError]. *)
Definition float_of_int (z : Z) : result float :=
  let f := binary_normalize prec emax z 0 false in
  if is_finite f then Ok f else Raise OverflowError.

Definition to_float (a : num) : result float :=
  match a with
  | Int z => float_of_int z
  | Float f => Ok f
  end.

Definition add (a b : num) : result num :=
  match a, b with
  | Int x, Int y => Ok (Int (x + y))
  | _, _ =>
      x <- to_float a ;; y <- to_float b ;; Ok (Float (SFadd prec emax x y))
  end.

Definition sub (a b : num) : result num :=
  match a, b with
  | Int x, Int y => Ok (Int (x - y))
  | _, _ =>
      x <- to_float a ;; y <- to_float b ;; Ok (Float (SFsub prec emax x y))
  end.

Definition mul (a b : num) : result num :=
  match a, b with
  | Int x, Int y => Ok (Int (x * y))
  | _, _ =>
      x <- to_float a ;; y <- to_float b ;; Ok (Float (SFmul prec emax x y))
  end.

Definition is_zero (f : float) : bool :=
  match f with
  | S754_zero _ => true
  | _ => false
  end.

(** True division [a / b]; two integers also give a float. *)
Definition truediv (a b : num) : result num :=
  x <- to_float a ;;
  y <- to_float b ;;
  if is_zero y then Raise ZeroDivisionError
  else Ok (Float (SFdiv prec emax x y)).

(** [a < b].  A float is compared with an integer through the integer's
    double, which is exact for the integers the program compares with
    (0 and 60). *)
Definition lt (a b : num) : result bool :=
  match a, b with
  | Int x, Int y => Ok (x <? y)
  | _, _ => x <- to_float a ;; y <- to_float b ;; Ok (SFltb x y)
  end.

Definition gt (a b : num) : result bool := lt b a.

(** The builtin [min(a, b)]: the second argument replaces the first only
    when it is strictly smaller. *)
Definition min (a b : num) : result num :=
  c <- lt b a ;; Ok (if c then b else a).

(** Rounding the rational [n / d] to the nearest integer, ties to even
    (for [0 <= n] and [0 < d]). *)
Definition round_half_even (n d : Z) : Z :=
  let q := n / d in
  let r := n mod d in
  match 2 * r ?= d with
  | Lt => q
  | Gt => q + 1
  | Eq => if Z.even q then q else q + 1
  end.

(** The exact value of a finite float, scaled by [c], rounded to an
    integer (ties to even). *)
Definition round_scaled (c : Z) (f : float) : Z :=
  match f with
  | S754_finite s m e =>
      let n := c * Zpos m in
      let a := if 0 <=? e then n * 2 ^ e else round_half_even n (2 ^ (- e)) in
      if s then - a else a
  | _ => 0
  end.

(** [round(x)] with one argument: an integer; a NaN raises [ValueError]
    and an infinity [OverflowError]. *)
Definition round (a : num) : result Z :=
  match a with
  | Int z => Ok z
  | Float S754_nan => Raise ValueError
  | Float (S754_infinity _) => Raise OverflowError
  | Float f => Ok (round_scaled 1 f)
  end.

(** [round(x, 2)]: an integer is returned unchanged; a float is rounded
    to the closest multiple of 1/100 (ties to even, on the exact binary
    value) and the double nearest to that decimal is returned. *)
Definition round2 (a : num) : num :=
  match a with
  | Int z => Int z
  | Float (S754_finite s m e) =>
      match round_scaled 100 (S754_finite false m e) with
      | Zpos n =>
          Float (SFdiv prec emax (S754_finite s n 0) (S754_finite false 100 0))
      | _ => Float (S754_zero s)
      end
  | Float f => Float f
  end.

(** [math.log2] at the integers the program passes to it, each the double
    nearest to the exact logarithm.  [charset_size] returns no other
    value above 1 (lemma [charset_size_values]); the remaining arguments
    are outside this model and are mapped to NaN. *)
Definition log2 (x : Z) : float :=
  match x with
  | 10 => S754_finite false 7480317065143153 (-51)
  | 26 => S754_finite false 5292224640774425 (-50)
  | 32 => S754_finite false 5629499534213120 (-50)
  | 36 => S754_finite false 5820818077507252 (-50)
  | 42 => S754_finite false 6071209683972465 (-50)
  | 52 => S754_finite false 6418124547617049 (-50)
  | 58 => S754_finite false 6595500256699995 (-50)
  | 62 => S754_finite false 6703829071187278 (-50)
  | 68 => S754_finite false 6853873845871692 (-50)
  | 84 => S754_finite false 7197109590815089 (-50)
  | 94 => S754_finite false 7379810977495554 (-50)
  | _ => S754_nan
  end.

End PyNum.

(** ** Python strings *)

(** A [str] is a sequence of Unicode code points. *)
Definition str : Type := list Z.

Definition len (s : str) : Z := Z.of_nat (List.length s).

(** The largest length a CPython sequence can have (a 64-bit [Py_ssize_t]). *)
Definition PY_SSIZE_T_MAX : Z := 2 ^ 63 - 1.

(** The code points of an ASCII literal. *)
Fixpoint str_of (lit : string) : str :=
  match lit with
  | EmptyString => []
  | String a rest => Z.of_nat (nat_of_ascii a) :: str_of rest
  end.

(** [s[i:j]] for [0 <= i <= j]. *)
Definition slice (s : str) (i j : nat) : str := firstn (j - i) (skipn i s).

(** The part of the Unicode character database the program consults outside
    ASCII: which code points are decimal digits (what [\d] matches in a
    [str] pattern) and how [str.lower] maps a code point.  The lowering sees
    the whole string and the index because the capital sigma is lowered by
    context, and it may produce several code points. *)
Class Unicode : Type := {
  unicode_decimal : Z -> bool;
  unicode_lower : str -> nat -> Z -> str
}.

(** The database restricted to ASCII: no digit and no case mapping beyond
    code point 127. *)
Definition ascii_only : Unicode :=
  {| unicode_decimal := fun _ => false;
     unicode_lower := fun _ _ c => [c] |}.

Definition in_range (lo hi c : Z) : bool := (lo <=? c) && (c <=? hi).

(** The classes [[a-z]], [[A-Z]] and [[a-z0-9]] of the patterns. *)
Definition class_lower (c : Z) : bool := in_range 97 122 c.
Definition class_upper (c : Z) : bool := in_range 65 90 c.
Definition class_alnum (c : Z) : bool := in_range 97 122 c || in_range 48 57 c.

Definition NEWLINE : Z := 10.

(** The pattern [.] without DOTALL: anything but a newline. *)
Definition class_dot (c : Z) : bool := negb (c =? NEWLINE).

Definition COMMON_PASSWORDS : list str :=
  map str_of
    [ "123456"; "password"; "12345678"; "qwerty"; "abc123"; "111111";
      "1234567"; "dragon"; "123123"; "baseball"; "iloveyou"; "trustno1";
      "letmein"; "sunshine"; "master"; "welcome"; "shadow"; "ashley";
      "football"; "jesus"; "michael" ]%string.

(** The raw literal [SYMBOLS]; code point 34 is the double quote. *)
Definition SYMBOLS : str :=
  (str_of "~`!@#$%^&*()-_=+[{]}\|;:'" ++ [34] ++ str_of ",<.>/?")%list.

Definition str_eqb (a b : str) : bool :=
  if list_eq_dec Z.eq_dec a b then true else false.

(** [x in COMMON_PASSWORDS] *)
Definition in_set (x : str) (set : list str) : bool := existsb (str_eqb x) set.

Section Program.

Context {U : Unicode}.

(** [\d] in a [str] pattern. *)
Definition class_digit (c : Z) : bool :=
  if c <? 128 then in_range 48 57 c else unicode_decimal c.

(** [[...SYMBOLS...]]: [re.escape] makes every character of the literal
    stand for itself inside the brackets. *)
Definition class_symbol (c : Z) : bool := existsb (Z.eqb c) SYMBOLS.

(** [re.search] of a one-character class. *)
Definition re_search (cls : Z -> bool) (s : str) : bool := existsb cls s.

Definition ascii_lower (c : Z) : Z := if in_range 65 90 c then c + 32 else c.

Fixpoint lower_from (s : str) (i : nat) (rest : str) : str :=
  match rest with
  | [] => []
  | c :: rest' =>
      ((if c <? 128 then [ascii_lower c] else unicode_lower s i c)
         ++ lower_from s (S i) rest')%list
  end.

(** [s.lower()] *)
Definition lower (s : str) : str := lower_from s 0 s.

Definition charset_size (password : str) : Z :=
  let size := 0 in
  let size := if re_search class_lower password then size + 26 else size in
  let size := if re_search class_upper password then size + 26 else size in
  let size := if re_search class_digit password then size + 10 else size in
  let size := if re_search class_symbol password then size + 32 else size in
  Z.max size 1.

Definition entropy_bits (password : str) : result PyNum.num :=
  let L := len password in
  let csize := charset_size password in
  if 1 <? csize
  then PyNum.mul (PyNum.Int L) (PyNum.Float (PyNum.log2 csize))
  else Ok (PyNum.Float (S754_zero false)).

(** How many copies of [c] start [s]. *)
Fixpoint run_length (c : Z) (s : str) : nat :=
  match s with
  | x :: rest => if x =? c then S (run_length c rest) else O
  | [] => O
  end.

(** The pattern [(.)\1{n,}] matched at the start of [s]. *)
Definition match_repeat (n : nat) (s : str) : bool :=
  match s with
  | c :: rest => class_dot c && (n <=? run_length c rest)%nat
  | [] => false
  end.

(** [re.search] tries the pattern at every position from the left. *)
Fixpoint search_repeat (n : nat) (s : str) : bool :=
  match s with
  | [] => false
  | _ :: rest => match_repeat n s || search_repeat n rest
  end.

(** [re.search(r'(.)\1{' + str(repeat_threshold - 1) + ',}', password)],
    for an integer [1 <= repeat_threshold < 2 ^ 32]; the program passes 4.
    Outside this range the source behaves otherwise and the model does not
    apply: from [2 ^ 32] on, [re] rejects the repetition count with an
    [OverflowError], and below 1 the braces hold no repetition count. *)
Definition has_long_repeat (password : str) (repeat_threshold : nat) : bool :=
  search_repeat (repeat_threshold - 1) password.

(** [re.match(r'^[a-z0-9]+$', sub)]: one or more class characters up to
    the end, where [$] also matches just before a final newline. *)
Fixpoint match_alnum (seen : bool) (sub : str) : bool :=
  match sub with
  | [] => seen
  | c :: rest =>
      if class_alnum c then match_alnum true rest
      else seen && (c =? NEWLINE) && (match rest with [] => true | _ => false end)
  end.

(** [[ords[i+1] - ords[i] for i in range(len(ords) - 1)]] *)
Fixpoint diffs_of (ords : list Z) : list Z :=
  match ords with
  | a :: (b :: _) as rest => (b - a) :: diffs_of rest
  | _ => []
  end.

(** The sliding window: [todo] iterations remain, the next index is [i]. *)
Fixpoint has_sequence_loop (s : str) (seq_len : nat) (i todo : nat) : bool :=
  match todo with
  | O => false
  | S todo' =>
      let sub := slice s i (i + seq_len) in
      if negb (match_alnum false sub)
      then has_sequence_loop s seq_len (S i) todo'
      else
        let ords := sub in
        let diffs := diffs_of ords in
        if forallb (fun d => d =? 1) diffs || forallb (fun d => d =? -1) diffs
        then true
        else has_sequence_loop s seq_len (S i) todo'
  end.

Definition has_sequence (password : str) (seq_len : nat) : bool :=
  let s := lower password in
  has_sequence_loop s seq_len 0 (Z.to_nat (len s - Z.of_nat seq_len + 1)).

End Program.

(** ** The assessment *)

(** What a caller can pass for [password]. *)
Inductive value : Type :=
| VNone
| VBool (b : bool)
| VInt (z : Z)
| VFloat (f : PyNum.float)
| VBytes (b : list Z)
| VStr (s : str).

(** The dictionary under the key ["details"]. *)
Record details : Type := {
  d_length : Z;
  d_charset_size : Z;
  d_entropy_bits : PyNum.num;
  d_classes : Z;
  d_base_entropy_score : PyNum.num;
  d_class_bonus : Z;
  d_length_bonus : Z;
  d_penalty : Z;
  d_reasons_for_penalty : list string
}.

(** The dictionary [assess_password] returns. *)
Record assessment : Type := {
  r_score : Z;
  r_label : string;
  r_suggestions : list string;
  r_details : details
}.

(** [xs.append(x)] when [c] holds. *)
Definition append_if (c : bool) (xs : list string) (x : string) : list string :=
  if c then (xs ++ [x])%list else xs.

Section Assess.

Context {U : Unicode}.

Local Open Scope string_scope.
Local Open Scope Z_scope.

Definition assess_str (password : str) : result assessment :=
  let L := len password in
  bits <- entropy_bits password ;;
  let size := charset_size password in
  (* base score from entropy *)
  positive <- PyNum.gt bits (PyNum.Int 0) ;;
  base <- (if positive : bool
           then q <- PyNum.truediv bits (PyNum.Int 60) ;;
                x <- PyNum.mul q (PyNum.Int 60) ;;
                PyNum.min (PyNum.Int 60) x
           else Ok (PyNum.Int 0)) ;;
  (* bonuses for having multiple character classes *)
  let classes := 0 in
  let classes := classes + (if re_search class_lower password then 1 else 0) in
  let classes := classes + (if re_search class_upper password then 1 else 0) in
  let classes := classes + (if re_search class_digit password then 1 else 0) in
  let classes := classes + (if re_search class_symbol password then 1 else 0) in
  let class_bonus := (classes - 1) * 5 in
  let class_bonus := Z.max class_bonus 0 in
  (* length bonus *)
  let length_bonus :=
    if 16 <=? L then 15
    else if 12 <=? L then 10
    else if 8 <=? L then 5
    else 0 in
  (* start with sum of positives *)
  score <- PyNum.add base (PyNum.Int class_bonus) ;;
  score <- PyNum.add score (PyNum.Int length_bonus) ;;
  (* penalties *)
  let reasons := [] in
  let penalty := 0 in
  let common := in_set (lower password) COMMON_PASSWORDS in
  let penalty := if common then penalty + 40 else penalty in
  let reasons := append_if common reasons "Very common password" in
  let penalty := if L <? 8 then penalty + (8 - L) * 3 else penalty in
  let reasons := append_if (L <? 8) reasons "Too short (recommend >= 12 chars)" in
  let repeated := has_long_repeat password 4 in
  let penalty := if repeated then penalty + 15 else penalty in
  let reasons := append_if repeated reasons "Long repeated characters" in
  let sequence := has_sequence password 4 in
  let penalty := if sequence then penalty + 20 else penalty in
  let reasons :=
    append_if sequence reasons "Sequence detected (e.g., 'abcd' or '1234')" in
  let penalty := if size <=? 26 then penalty + 10 else penalty in
  let reasons := append_if (size <=? 26) reasons "Limited character variety" in
  (* apply penalty *)
  score <- PyNum.sub score (PyNum.Int penalty) ;;
  (* normalize score to 0..100 *)
  rounded <- PyNum.round score ;;
  let score := Z.max 0 (Z.min 100 rounded) in
  (* label mapping *)
  let label :=
    if score <? 20 then "Very weak"
    else if score <? 40 then "Weak"
    else if score <? 60 then "Fair"
    else if score <? 80 then "Strong"
    else "Very strong" in
  (* suggestions *)
  let suggestions := [] in
  let suggestions :=
    append_if (L <? 12) suggestions
      "Make it longer (12+ characters recommended)." in
  let suggestions :=
    append_if (negb (re_search class_upper password)) suggestions
      "Add uppercase letters." in
  let suggestions :=
    append_if (negb (re_search class_lower password)) suggestions
      "Add lowercase letters." in
  let suggestions :=
    append_if (negb (re_search class_digit password)) suggestions
      "Add digits." in
  let suggestions :=
    append_if (negb (re_search class_symbol password)) suggestions
      "Add special characters (e.g., !@#$%)." in
  let suggestions :=
    append_if (has_long_repeat password 4) suggestions
      "Avoid long repeated characters." in
  let suggestions :=
    append_if (has_sequence password 4) suggestions
      "Avoid simple sequences like 'abcd' or '1234'." in
  let suggestions :=
    append_if (in_set (lower password) COMMON_PASSWORDS) suggestions
      "Don't use common passwords (e.g., 'password', '123456')." in
  Ok {| r_score := score;
        r_label := label;
        r_suggestions := suggestions;
        r_details :=
          {| d_length := L;
             d_charset_size := size;
             d_entropy_bits := PyNum.round2 bits;
             d_classes := classes;
             d_base_entropy_score := PyNum.round2 base;
             d_class_bonus := class_bonus;
             d_length_bonus := length_bonus;
             d_penalty := penalty;
             d_reasons_for_penalty := reasons |} |}.

(** [isinstance(password, str)] comes first; the body runs on strings. *)
Definition assess_password (password : value) : result assessment :=
  match password with
  | VStr s => assess_str s
  | _ => Raise TypeError
  end.

End Assess.

(** * Specification-side definitions *)

Local Open Scope string_scope.
Local Open Scope Z_scope.

(** ** Predicates on floats used by the proofs *)

(** A float is [small K] when it is a zero or a finite number below
    [2 ^ K] in absolute value. *)
Definition small (K : Z) (f : PyNum.float) : Prop :=
  match f with
  | S754_zero _ => True
  | S754_finite _ m e => Zpos (digits2_pos m) + e <= K
  | _ => False
  end.

(** The double 60.0. *)
Definition sixty : PyNum.float := S754_finite false 8444249301319680 (-47).

(** ** Values of doubles *)

(** Rounding to binary64: [n / d] is the exact value in units of the
    smallest subnormal, [2 ^ -1074]; below [2 ^ 53] units the spacing of
    the doubles is one unit, above it the 53 leading bits are kept. *)
Definition ulp_exponent (t : Z) : Z := Z.max 0 (Zdigits2 t - 53).

Definition round_binary64 (n d : Z) : Z :=
  let k := ulp_exponent (n / d) in
  PyNum.round_half_even n (d * 2 ^ k) * 2 ^ k.

(** Where [n / d] lies between [n / d] rounded down and the next integer. *)
Definition loc_of (n d : Z) : location :=
  if n mod d =? 0 then loc_Exact else loc_Inexact (2 * (n mod d) ?= d).

(** A shift record holds the integer part and the location of [n / d]. *)
Definition represents (mrs : shr_record) (n d : Z) : Prop :=
  shr_m mrs = n / d /\ loc_of_shr_record mrs = loc_of n d.

(** The outcome of rounding the magnitude [m * 2 ^ e] with sign [s]: the
    float carries that value in canonical form, unless it overflowed. *)
Definition value_is (s : bool) (m e : Z) (r : PyNum.float) : Prop :=
  match r with
  | S754_zero s' => s' = s /\ m = 0
  | S754_finite s' m' e' =>
      s' = s /\ e <= e' /\ Zpos m' * 2 ^ (e' - e) = m /\
      bounded PyNum.prec PyNum.emax m' e' = true
  | S754_infinity _ => True
  | S754_nan => False
  end.

(** The value of a finite double in units of [2 ^ -1074], the smallest
    subnormal: an integer for every double in canonical form. *)
Definition Zval (f : PyNum.float) : Z :=
  match f with
  | S754_finite s m e =>
      let v := Zpos m * 2 ^ (e + 1074) in
      if s then - v else v
  | _ => 0
  end.

(** A finite double in canonical form. *)
Definition wf (f : PyNum.float) : Prop :=
  PyNum.is_finite f = true /\ valid_binary PyNum.prec PyNum.emax f = true.

(** Rounding a signed value to binary64. *)
Definition round_value (v : Z) : Z :=
  if v <? 0 then - round_binary64 (- v) 1 else round_binary64 v 1.

Definition signed (s : bool) (v : Z) : Z := if s then - v else v.

(** A finite double in canonical form, below [2 ^ K] in absolute value. *)
Definition good (K : Z) (f : PyNum.float) : Prop := wf f /\ small K f.

(** Rounding a value to an integer, ties to even. *)
Definition round_int (v : Z) : Z :=
  if v <? 0 then - PyNum.round_half_even (- v) (2 ^ 1074)
  else PyNum.round_half_even v (2 ^ 1074).

(** One unit: the value of the integer 1. *)
Definition unit_value : Z := 2 ^ 1074.

(** The value of a number. *)
Definition nval (a : PyNum.num) : Z :=
  match a with
  | PyNum.Int z => z * unit_value
  | PyNum.Float f => Zval f
  end.

(** A number the pipeline can hold: an integer of absolute value at most
    [B], or a canonical double below [2 ^ K]. *)
Definition ok_num (B K : Z) (a : PyNum.num) : Prop :=
  match a with
  | PyNum.Int z => Z.abs z <= B
  | PyNum.Float f => good K f
  end.

(** The value of [entropy_bits] for a length and an alphabet size. *)
Definition bits_value (L c : Z) : Z :=
  if 1 <? c
  then round_binary64 (round_value (L * unit_value) * Zval (PyNum.log2 c)) unit_value
  else 0.

(** The value of [(bits / 60) * 60]. *)
Definition rescaled_value (b : Z) : Z :=
  round_binary64 (round_binary64 (b * unit_value) (Zval sixty) * Zval sixty) unit_value.

(** The value of the base score. *)
Definition base_value (b : Z) : Z :=
  if 0 <? b then Z.min (rescaled_value b) (60 * unit_value) else 0.

(** The score, from the length, the alphabet size, the two bonuses and the
    penalty. *)
Definition score_value (L c class_bonus length_bonus penalty : Z) : Z :=
  let v := base_value (bits_value L c) in
  let v := round_value (v + class_bonus * unit_value) in
  let v := round_value (v + length_bonus * unit_value) in
  let v := round_value (v - penalty * unit_value) in
  Z.max 0 (Z.min 100 (round_int v)).

(** ** Inputs *)

Definition is_str (v : value) : bool :=
  match v with
  | VStr _ => true
  | _ => false
  end.

(** A value a CPython program can hold: a string is no longer than
    [PY_SSIZE_T_MAX]. *)
Definition wf_value (v : value) : Prop :=
  match v with
  | VStr s => len s <= PY_SSIZE_T_MAX
  | _ => True
  end.

(** ** Labels *)

(** The five score bands of the label, as the specification lists them. *)
Inductive band : Z -> string -> Prop :=
| band_very_weak (z : Z) : z < 20 -> band z "Very weak"
| band_weak (z : Z) : 20 <= z < 40 -> band z "Weak"
| band_fair (z : Z) : 40 <= z < 60 -> band z "Fair"
| band_strong (z : Z) : 60 <= z < 80 -> band z "Strong"
| band_very_strong (z : Z) : 80 <= z -> band z "Very strong".

(** ** Detectors *)

(** A window of four characters that counts as a sequence: all four in
    [a-z0-9] and the codes stepping by +1 throughout or by -1 throughout. *)
Definition sequence_window (a b c d : Z) : Prop :=
  (class_alnum a = true /\ class_alnum b = true /\
   class_alnum c = true /\ class_alnum d = true) /\
  ((b = a + 1 /\ c = b + 1 /\ d = c + 1) \/
   (b = a - 1 /\ c = b - 1 /\ d = c - 1)).

(** Some contiguous window of four characters of [s] is a sequence. *)
Definition has_sequence_window (s : str) : Prop :=
  exists pre a b c d post,
    s = (pre ++ a :: b :: c :: d :: post)%list /\ sequence_window a b c d.

(** Some character stands four times in a row in [s]. *)
Definition has_run_of_four (s : str) : Prop :=
  exists pre c post, s = (pre ++ c :: c :: c :: c :: post)%list.

(** What one iteration of the sliding window of [has_sequence] decides. *)
Definition window_hit (sub : str) : bool :=
  match_alnum false sub &&
  (forallb (fun d => d =? 1) (diffs_of sub)
   || forallb (fun d => d =? -1) (diffs_of sub)).

(** ** The scoring formula, as the specification words it *)

Section Formula.

Context {U : Unicode}.

Import PyNum.

Local Open Scope string_scope.
Local Open Scope Z_scope.

Definition clamp (z lo hi : Z) : Z :=
  if z <? lo then lo else if hi <? z then hi else z.

(** How many of the four character classes occur in the password. *)
Definition class_count (password : str) : Z :=
  Z.of_nat
    (List.length
       (filter (fun cls => re_search cls password)
          [class_lower; class_upper; class_digit; class_symbol])).

Definition formula_base (bits : num) : result num :=
  positive <- gt bits (Int 0) ;;
  if positive : bool
  then q <- truediv bits (Int 60) ;; x <- mul q (Int 60) ;; min (Int 60) x
  else Ok (Int 0).

Definition formula_class_bonus (password : str) : Z :=
  Z.max 0 ((class_count password - 1) * 5).

Definition formula_length_bonus (password : str) : Z :=
  if 16 <=? len password then 15
  else if 12 <=? len password then 10
  else if 8 <=? len password then 5
  else 0.

(** The five penalties: whether each is triggered, its amount and its
    reason, in the documented order. *)
Definition penalty_rules (password : str) : list (bool * Z * string) :=
  [ (in_set (lower password) COMMON_PASSWORDS, 40, "Very common password");
    (len password <? 8, (8 - len password) * 3,
      "Too short (recommend >= 12 chars)");
    (has_long_repeat password 4, 15, "Long repeated characters");
    (has_sequence password 4, 20,
      "Sequence detected (e.g., 'abcd' or '1234')");
    (charset_size password <=? 26, 10, "Limited character variety") ].

Definition triggered (password : str) : list (bool * Z * string) :=
  filter (fun rule => fst (fst rule)) (penalty_rules password).

Definition formula_penalty (password : str) : Z :=
  fold_right Z.add 0 (map (fun rule => snd (fst rule)) (triggered password)).

Definition formula_reasons (password : str) : list string :=
  map snd (triggered password).

Definition formula_score (password : str) : result Z :=
  bits <- entropy_bits password ;;
  base <- formula_base bits ;;
  x <- add base (Int (formula_class_bonus password)) ;;
  x <- add x (Int (formula_length_bonus password)) ;;
  x <- sub x (Int (formula_penalty password)) ;;
  z <- round x ;;
  Ok (clamp z 0 100).

End Formula.

(** ** Definitions for the further properties *)

(** The run [a], [a + d], [a + 2 d], ... of [n] characters. *)
Fixpoint arith_run (a d : Z) (n : nat) : list Z :=
  match n with
  | O => []
  | S n' => a :: arith_run (a + d) d n'
  end.

(** Some contiguous window of [n >= 1] characters of [s] lies in [a-z0-9]
    and steps by +1 throughout or by -1 throughout. *)
Definition has_run_window (s : str) (n : nat) : Prop :=
  exists pre a d post,
    (d = 1 \/ d = -1) /\ (1 <= n)%nat /\
    s = (pre ++ arith_run a d n ++ post)%list /\
    forallb class_alnum (arith_run a d n) = true.

(** Some character other than the newline stands [n] times in a row. *)
Definition has_run_of (n : nat) (s : str) : Prop :=
  exists pre c post, c <> NEWLINE /\ s = (pre ++ repeat c n ++ post)%list.

(** A string of ASCII characters only. *)
Definition is_ascii (s : str) : Prop := forall c, In c s -> 0 <= c < 128.

(** In how many of the four character classes a code point lies. *)
Definition classes_of {U : Unicode} (c : Z) : Z :=
  (if class_lower c then 1 else 0) + (if class_upper c then 1 else 0)
  + (if class_digit c then 1 else 0) + (if class_symbol c then 1 else 0).

(** What the assessment reads from a password: its length, which of the
    four classes occur, and the verdicts of the three detectors. *)
Definition profile {U : Unicode} (password : str)
  : Z * (bool * bool * bool * bool) * (bool * bool * bool) :=
  (len password,
   (re_search class_lower password, re_search class_upper password,
    re_search class_digit password, re_search class_symbol password),
   (in_set (lower password) COMMON_PASSWORDS,
    has_long_repeat password 4, has_sequence password 4)).

(** * Facts *)

Lemma Ok_inj {A : Type} (a b : A) : Ok a = Ok b -> a = b.
Proof. intros H. injection H as H. exact H. Qed.

(** Splits a successful run of [assess_str] into its successful steps. *)
Ltac assess_inv H :=
  unfold assess_str in H;
  cbv zeta in H;
  repeat match type of H with
    | bind ?e _ = Ok _ =>
        let E := fresh "E" in
        destruct e eqn:E; cbn [bind] in H; [ | discriminate H]
    end;
  apply Ok_inj in H; subst.

Ltac if_cases :=
  repeat match goal with
    | |- context [if ?c then _ else _] => destruct c eqn:?
    end.

(** ** Magnitude bounds for binary64 operations *)

Section Magnitude.

Import PyNum.

Lemma digits2_pos_log2 (p : positive) :
  Zpos (digits2_pos p) = Z.log2 (Zpos p) + 1.
Proof.
  induction p as [p IH | p IH | ]; simpl digits2_pos; try reflexivity.
  - rewrite Pos2Z.inj_succ, IH.
    change (Zpos p~1) with (2 * Zpos p + 1).
    rewrite Z.log2_succ_double by lia. lia.
  - rewrite Pos2Z.inj_succ, IH.
    change (Zpos p~0) with (2 * Zpos p).
    rewrite Z.log2_double by lia. lia.
Qed.

Lemma Zdigits2_nonneg (m : Z) : 0 <= Zdigits2 m.
Proof. destruct m; simpl; lia. Qed.

Lemma Zdigits2_log2 (m : Z) : 0 < m -> Zdigits2 m = Z.log2 m + 1.
Proof.
  destruct m as [ | p | p]; try lia. intros _. apply digits2_pos_log2.
Qed.

Lemma Zdigits2_le (a b : Z) : 0 <= a <= b -> Zdigits2 a <= Zdigits2 b.
Proof.
  intros [Ha Hab].
  destruct (Z.eq_dec a 0) as [-> | Hne].
  - apply Zdigits2_nonneg.
  - rewrite !Zdigits2_log2 by lia.
    pose proof (Z.log2_le_mono a b Hab). lia.
Qed.

Lemma Zdigits2_succ (a : Z) : 0 <= a -> Zdigits2 (a + 1) <= Zdigits2 a + 1.
Proof.
  intros Ha.
  destruct (Z.eq_dec a 0) as [-> | Hne]; [simpl; lia | ].
  rewrite !Zdigits2_log2 by lia.
  pose proof (Z.log2_succ_le a). unfold Z.succ in *. lia.
Qed.

Lemma Zdigits2_lt_pow2 (a k : Z) : 0 <= a -> 0 <= k -> a < 2 ^ k -> Zdigits2 a <= k.
Proof.
  intros Ha Hk Hlt.
  destruct (Z.eq_dec a 0) as [-> | Hne]; [simpl; lia | ].
  rewrite Zdigits2_log2 by lia.
  assert (Z.log2 a < k) by (apply Z.log2_lt_pow2; lia). lia.
Qed.

Lemma Zdigits2_pow2_gt (a : Z) : 0 <= a -> a < 2 ^ Zdigits2 a.
Proof.
  intros Ha.
  destruct (Z.eq_dec a 0) as [-> | Hne]; [simpl; lia | ].
  rewrite Zdigits2_log2 by lia.
  pose proof (Z.log2_spec a). unfold Z.succ in *. lia.
Qed.

(** One right shift halves a non-negative mantissa. *)
Lemma shr_1_m (mrs : shr_record) :
  0 <= shr_m mrs -> shr_m (shr_1 mrs) = Z.shiftr (shr_m mrs) 1.
Proof.
  destruct mrs as [m r s]; simpl. intros Hm.
  rewrite <- Z.div2_spec.
  destruct m as [ | [p | p | ] | p]; simpl; try reflexivity; lia.
Qed.

Lemma iter_shr_1_m (p : positive) :
  forall mrs, 0 <= shr_m mrs ->
    shr_m (iter_pos shr_1 p mrs) = Z.shiftr (shr_m mrs) (Zpos p).
Proof.
  induction p as [p IH | p IH | ]; intros mrs Hm; simpl iter_pos.
  - assert (H1 : 0 <= shr_m (shr_1 mrs)).
    { rewrite shr_1_m by assumption. apply Z.shiftr_nonneg; assumption. }
    assert (H2 : 0 <= shr_m (iter_pos shr_1 p (shr_1 mrs))).
    { rewrite IH by assumption. apply Z.shiftr_nonneg; assumption. }
    rewrite IH, IH, shr_1_m by assumption.
    rewrite !Z.shiftr_shiftr by lia. f_equal. lia.
  - assert (H2 : 0 <= shr_m (iter_pos shr_1 p mrs)).
    { rewrite IH by assumption. apply Z.shiftr_nonneg; assumption. }
    rewrite IH, IH by assumption.
    rewrite !Z.shiftr_shiftr by lia. f_equal. lia.
  - apply shr_1_m; assumption.
Qed.

Lemma shr_record_of_loc_m (m : Z) (l : location) :
  shr_m (shr_record_of_loc m l) = m.
Proof. destruct l as [ | []]; reflexivity. Qed.

(** What [shr] does to a non-negative mantissa and its exponent. *)
Lemma shr_spec (mrs : shr_record) (e n : Z) :
  0 <= shr_m mrs ->
  shr_m (fst (shr mrs e n)) = Z.shiftr (shr_m mrs) (Z.max 0 n) /\
  snd (shr mrs e n) = e + Z.max 0 n.
Proof.
  intros Hm. destruct n as [ | p | p]; simpl.
  - split; [reflexivity | lia].
  - split; [apply iter_shr_1_m; assumption | lia].
  - split; [reflexivity | lia].
Qed.

(** The magnitude [digits m + e] does not grow under [shr_fexp], and the
    exponent stays below the magnitude bound. *)
Lemma shr_fexp_bound (m e K : Z) (l : location) :
  0 <= m -> -1021 <= K -> Zdigits2 m + e <= K ->
  let r := shr_fexp prec emax m e l in
  0 <= shr_m (fst r) /\
  snd r <= Z.max e (K - 53) /\
  Zdigits2 (shr_m (fst r)) + snd r <= K.
Proof.
  intros Hm HK HD. unfold shr_fexp.
  set (n := fexp prec emax (Zdigits2 m + e) - e).
  pose proof (shr_spec (shr_record_of_loc m l) e n) as Hs.
  rewrite shr_record_of_loc_m in Hs. destruct (Hs Hm) as [H1 H2].
  cbv zeta. rewrite H1, H2. clear Hs H1 H2.
  assert (Hn : n = Z.max (Zdigits2 m + e - 53) (-1074) - e).
  { unfold n, fexp, SpecFloat.emin, prec, emax. lia. }
  split; [apply Z.shiftr_nonneg; assumption | ].
  destruct (Z.max_spec 0 n) as [[Hlt ->] | [Hle ->]].
  - split; [lia | ].
    destruct (Z.eq_dec m 0) as [-> | Hne].
    + rewrite Z.shiftr_0_l. simpl Zdigits2. lia.
    + destruct (Z.eq_dec (Z.shiftr m n) 0) as [-> | Hne'].
      * simpl Zdigits2. lia.
      * assert (0 <= Z.shiftr m n) by (apply Z.shiftr_nonneg; assumption).
        rewrite Zdigits2_log2 by lia.
        rewrite Z.log2_shiftr by lia.
        rewrite Zdigits2_log2 in HD, Hn by lia. lia.
  - rewrite Z.shiftr_0_r. lia.
Qed.

Lemma round_nearest_even_bound (m : Z) (l : location) :
  0 <= m -> m <= round_nearest_even m l <= m + 1.
Proof.
  intros Hm. destruct l as [ | []]; simpl; try lia.
  destruct (Z.even m); lia.
Qed.

Lemma small_finite (K : Z) (f : float) : small K f -> is_finite f = true.
Proof. destruct f; simpl; intros H; (reflexivity || contradiction). Qed.

Lemma small_weaken (K K' : Z) (f : float) : K <= K' -> small K f -> small K' f.
Proof. destruct f; simpl; intros; (lia || assumption). Qed.

(** Rounding a magnitude below [2 ^ K] cannot overflow. *)
Lemma binary_round_aux_small (sx : bool) (mx ex K : Z) (lx : location) :
  0 <= mx -> ex <= 971 -> -1021 <= K <= 1023 -> Zdigits2 mx + ex <= K ->
  small (K + 1) (binary_round_aux prec emax sx mx ex lx).
Proof.
  intros Hm He HK HD. unfold binary_round_aux.
  pose proof (shr_fexp_bound mx ex K lx Hm (proj1 HK) HD) as H1.
  destruct (shr_fexp prec emax mx ex lx) as [mrs' e'].
  cbv zeta in H1. simpl fst in H1. simpl snd in H1.
  destruct H1 as (Hm' & He' & HD').
  pose proof (round_nearest_even_bound (shr_m mrs') (loc_of_shr_record mrs') Hm') as Hr.
  set (m1 := round_nearest_even (shr_m mrs') (loc_of_shr_record mrs')) in *.
  assert (HD1 : Zdigits2 m1 + e' <= K + 1).
  { assert (Zdigits2 m1 <= Zdigits2 (shr_m mrs' + 1)) by (apply Zdigits2_le; lia).
    pose proof (Zdigits2_succ (shr_m mrs') Hm'). lia. }
  pose proof (shr_fexp_bound m1 e' (K + 1) loc_Exact) as H2.
  destruct (shr_fexp prec emax m1 e' loc_Exact) as [mrs'' e''].
  cbv zeta in H2. simpl fst in H2. simpl snd in H2.
  destruct H2 as (Hm'' & He'' & HD''); try lia.
  destruct (shr_m mrs'') as [ | p | p] eqn:Em; try exact I; try lia.
  assert (Hle : (e'' <=? emax - prec) = true).
  { apply Z.leb_le. unfold emax, prec. lia. }
  rewrite Hle. simpl. simpl in HD''. lia.
Qed.

Lemma iter_xO_pow2 (d m : positive) :
  Zpos (Pos.iter xO m d) = Zpos m * 2 ^ Zpos d.
Proof.
  induction d as [ | d IH] using Pos.peano_ind.
  - simpl. lia.
  - rewrite Pos.iter_succ, Pos2Z.inj_xO, IH, Pos2Z.inj_succ, Z.pow_succ_r by lia.
    lia.
Qed.

Lemma shl_align_spec (mx : positive) (ex ex' : Z) :
  snd (shl_align mx ex ex') = Z.min ex ex' /\
  Zpos (fst (shl_align mx ex ex')) = Zpos mx * 2 ^ (ex - Z.min ex ex').
Proof.
  unfold shl_align. destruct (ex' - ex) as [ | d | d] eqn:Ed; cbn [fst snd].
  - replace (ex - Z.min ex ex') with 0 by lia. rewrite Z.pow_0_r. lia.
  - replace (ex - Z.min ex ex') with 0 by lia. rewrite Z.pow_0_r. lia.
  - rewrite iter_xO_pow2. pose proof (Pos2Z.opp_pos d) as Hd.
    replace (ex - Z.min ex ex') with (Zpos d) by lia. split; lia.
Qed.

Lemma Zdigits2_mul_pow2 (m : positive) (k : Z) :
  0 <= k -> Zdigits2 (Zpos m * 2 ^ k) = Zpos (digits2_pos m) + k.
Proof.
  intros Hk. assert (0 < 2 ^ k) by (apply Z.pow_pos_nonneg; lia).
  rewrite Zdigits2_log2 by lia.
  rewrite Z.log2_mul_pow2 by lia. rewrite digits2_pos_log2. lia.
Qed.

Lemma binary_round_small (sx : bool) (mx : positive) (ex K : Z) :
  ex <= 971 -> -1021 <= K <= 1023 -> Zpos (digits2_pos mx) + ex <= K ->
  small (K + 1) (binary_round prec emax sx mx ex).
Proof.
  intros He HK HD. unfold binary_round.
  pose proof (shl_align_spec mx ex (fexp prec emax (Zpos (digits2_pos mx) + ex)))
    as [H1 H2].
  destruct (shl_align mx ex (fexp prec emax (Zpos (digits2_pos mx) + ex)))
    as [mz ez]. cbn [fst snd] in H1, H2.
  apply binary_round_aux_small; try lia.
  rewrite H2, Zdigits2_mul_pow2 by lia. lia.
Qed.

Lemma binary_normalize_small (m e K : Z) (sz : bool) :
  e <= 971 -> -1021 <= K <= 1023 -> Zdigits2 (Z.abs m) + e <= K ->
  small (K + 1) (binary_normalize prec emax m e sz).
Proof.
  intros He HK HD.
  destruct m as [ | p | p]; simpl; try exact I;
    apply binary_round_small; assumption.
Qed.

Lemma digits2_pos_pos (m : positive) : 1 <= Zpos (digits2_pos m).
Proof. lia. Qed.

Lemma SFmul_small (Kx Ky : Z) (x y : float) :
  small Kx x -> small Ky y -> -1021 <= Kx + Ky <= 973 ->
  small (Kx + Ky + 1) (SFmul prec emax x y).
Proof.
  destruct x as [sx | sx | | sx mx ex], y as [sy | sy | | sy my ey];
    cbn [SFmul small]; intros Hx Hy HK; try exact I; try contradiction.
  pose proof (digits2_pos_pos mx). pose proof (digits2_pos_pos my).
  apply binary_round_aux_small; try lia.
  cbn [Zdigits2].
  rewrite !digits2_pos_log2 in *. rewrite Pos2Z.inj_mul.
  pose proof (Z.log2_mul_above (Zpos mx) (Zpos my)). lia.
Qed.

Lemma aligned_lt (m : positive) (e ez K : Z) :
  ez <= e -> Zpos (digits2_pos m) + e <= K ->
  Zpos m * 2 ^ (e - ez) < 2 ^ (K - ez).
Proof.
  intros Hez HD.
  pose proof (Zdigits2_pow2_gt (Zpos m)) as Hm. simpl Zdigits2 in Hm.
  assert (H2 : 0 < 2 ^ (e - ez)) by (apply Z.pow_pos_nonneg; lia).
  apply Z.lt_le_trans with (2 ^ Zpos (digits2_pos m) * 2 ^ (e - ez)).
  - apply Z.mul_lt_mono_pos_r; lia.
  - rewrite <- Z.pow_add_r by lia. apply Z.pow_le_mono_r; lia.
Qed.

Lemma aligned_sum_digits (sx sy : bool) (mx my : positive) (ex ey K : Z) (sgn : Z) :
  Zpos (digits2_pos mx) + ex <= K -> Zpos (digits2_pos my) + ey <= K ->
  sgn = 1 \/ sgn = -1 ->
  let ez := Z.min ex ey in
  Zdigits2
    (Z.abs (cond_Zopp sx (Zpos (fst (shl_align mx ex ez)))
            + sgn * cond_Zopp sy (Zpos (fst (shl_align my ey ez))))) + ez
  <= K + 1.
Proof.
  intros Hx Hy Hsgn ez.
  destruct (shl_align_spec mx ex ez) as [_ Hax].
  destruct (shl_align_spec my ey ez) as [_ Hay].
  rewrite Hax, Hay.
  replace (Z.min ex ez) with ez by (unfold ez; lia).
  replace (Z.min ey ez) with ez by (unfold ez; lia).
  assert (ez <= ex /\ ez <= ey) as [Hzx Hzy] by (unfold ez; lia).
  pose proof (aligned_lt mx ex ez K Hzx Hx) as Bx.
  pose proof (aligned_lt my ey ez K Hzy Hy) as By.
  assert (Px : 0 < Zpos mx * 2 ^ (ex - ez))
    by (apply Z.mul_pos_pos; [lia | apply Z.pow_pos_nonneg; lia]).
  assert (Py : 0 < Zpos my * 2 ^ (ey - ez))
    by (apply Z.mul_pos_pos; [lia | apply Z.pow_pos_nonneg; lia]).
  pose proof (digits2_pos_pos mx) as Hd1.
  assert (Hlt : Z.abs (cond_Zopp sx (Zpos mx * 2 ^ (ex - ez))
                       + sgn * cond_Zopp sy (Zpos my * 2 ^ (ey - ez)))
                < 2 ^ (K - ez + 1)).
  { rewrite Z.pow_add_r by lia. change (2 ^ 1) with 2.
    set (a := Zpos mx * 2 ^ (ex - ez)) in *.
    set (b := Zpos my * 2 ^ (ey - ez)) in *.
    destruct sx, sy, Hsgn as [-> | ->]; cbn [cond_Zopp]; lia. }
  apply Zdigits2_lt_pow2 in Hlt; [lia | apply Z.abs_nonneg | lia].
Qed.

Lemma SFdiv_small (Kx Ly : Z) (x : float) (sy : bool) (my : positive) (ey : Z) :
  small Kx x -> Ly <= Zpos (digits2_pos my) + ey ->
  -1021 <= Kx - Ly + 1 <= 1023 ->
  small (Kx - Ly + 2) (SFdiv prec emax x (S754_finite sy my ey)).
Proof.
  destruct x as [sx | sx | | sx mx ex];
    cbn [SFdiv small]; intros Hx Hy HK; try exact I; try contradiction.
  unfold SFdiv_core_binary. cbn [Zdigits2].
  set (dx := Zpos (digits2_pos mx)) in *.
  set (dy := Zpos (digits2_pos my)) in *.
  set (e' := Z.min (fexp prec emax (dx + ex - (dy + ey))) (ex - ey)).
  set (s := ex - ey - e').
  assert (Hs : 0 <= s) by (unfold s, e'; lia).
  set (m' := match s with
             | 0 => Zpos mx
             | Zpos _ => Z.shiftl (Zpos mx) s
             | Zneg _ => 0
             end).
  assert (Hm' : m' = Zpos mx * 2 ^ s).
  { unfold m'. destruct s as [ | p | p] eqn:Es.
    - rewrite Z.pow_0_r. lia.
    - apply Z.shiftl_mul_pow2. lia.
    - lia. }
  assert (Hq : fst (Z.div_eucl m' (Zpos my)) = m' / Zpos my) by reflexivity.
  destruct (Z.div_eucl m' (Zpos my)) as [q r]. cbn [fst] in Hq.
  assert (Hpow : 0 < 2 ^ s) by (apply Z.pow_pos_nonneg; lia).
  assert (Hq0 : 0 <= q) by (rewrite Hq; apply Z.div_pos; nia).
  assert (He' : e' <= Z.max (dx + ex - (dy + ey) - 53) (-1074)).
  { unfold e', fexp, SpecFloat.emin, prec, emax. lia. }
  replace (Kx - Ly + 2) with (Kx - Ly + 1 + 1) by lia.
  apply binary_round_aux_small; try lia.
  destruct (Z.eq_dec q 0) as [-> | Hne]; [cbn [Zdigits2]; lia | ].
  rewrite Zdigits2_log2 by lia.
  assert (Hmul : q * Zpos my <= m').
  { rewrite Hq, Z.mul_comm. apply Z.mul_div_le. lia. }
  pose proof (Z.log2_mul_below q (Zpos my)) as Hb.
  pose proof (Z.log2_le_mono _ _ Hmul) as Hmono.
  rewrite Hm', Z.log2_mul_pow2 in Hmono by lia.
  unfold dx, dy in *. rewrite !digits2_pos_log2 in *. lia.
Qed.

End Magnitude.

(** ** Rounding to nearest, ties to even, on rationals *)

Section RoundHalfEven.

Import PyNum.

Lemma round_half_even_bounds (n d : Z) :
  0 < d -> n / d <= round_half_even n d <= n / d + 1.
Proof.
  intros Hd. unfold round_half_even.
  destruct (2 * (n mod d) ?= d); [destruct (Z.even (n / d)) | | ]; lia.
Qed.

Lemma round_half_even_exact (q d : Z) :
  0 < d -> round_half_even (q * d) d = q.
Proof.
  intros Hd. unfold round_half_even.
  rewrite Z.div_mul, Z.mod_mul by lia.
  destruct (2 * 0 ?= d) eqn:E; try reflexivity.
  - apply Z.compare_eq in E. lia.
  - apply Z.compare_gt_iff in E. lia.
Qed.

Lemma round_half_even_scale (n d c : Z) :
  0 < d -> 0 < c -> round_half_even (n * c) (d * c) = round_half_even n d.
Proof.
  intros Hd Hc. unfold round_half_even.
  rewrite Z.div_mul_cancel_r by lia.
  rewrite Zmult_mod_distr_r.
  replace (2 * (n mod d * c)) with (2 * (n mod d) * c) by lia.
  rewrite <- (Zmult_compare_compat_r (2 * (n mod d)) d c) by lia.
  reflexivity.
Qed.

Lemma div_le_cross (n1 d1 n2 d2 : Z) :
  0 < d1 -> 0 < d2 -> n1 * d2 <= n2 * d1 -> n1 / d1 <= n2 / d2.
Proof.
  intros H1 H2 Hle.
  apply Z.div_le_lower_bound; [lia | ].
  pose proof (Z.mul_div_le n1 d1 H1) as Hq.
  assert (d1 * (d2 * (n1 / d1)) <= d1 * n2) by nia.
  apply Z.mul_le_mono_pos_l with d1; assumption.
Qed.

(** The rounding is monotone in the rational it rounds. *)
Lemma round_half_even_mono (n1 d1 n2 d2 : Z) :
  0 < d1 -> 0 < d2 -> n1 * d2 <= n2 * d1 ->
  round_half_even n1 d1 <= round_half_even n2 d2.
Proof.
  intros H1 H2 Hle.
  pose proof (div_le_cross n1 d1 n2 d2 H1 H2 Hle) as Hq.
  pose proof (round_half_even_bounds n1 d1 H1) as B1.
  pose proof (round_half_even_bounds n2 d2 H2) as B2.
  destruct (Z.eq_dec (n1 / d1) (n2 / d2)) as [Heq | Hne]; [ | lia].
  pose proof (Z.div_mod n1 d1 ltac:(lia)) as E1.
  pose proof (Z.div_mod n2 d2 ltac:(lia)) as E2.
  pose proof (Z.mod_pos_bound n1 d1 H1) as R1.
  pose proof (Z.mod_pos_bound n2 d2 H2) as R2.
  assert (Hr : (n1 mod d1) * d2 <= (n2 mod d2) * d1).
  { rewrite <- Heq in E2. nia. }
  unfold round_half_even in *. rewrite <- Heq in *.
  set (r1 := n1 mod d1) in *. set (r2 := n2 mod d2) in *.
  set (q := n1 / d1) in *.
  destruct (Z.compare_spec (2 * r1) d1) as [C1 | C1 | C1];
    destruct (Z.compare_spec (2 * r2) d2) as [C2 | C2 | C2];
    try destruct (Z.even q); try lia; exfalso; nia.
Qed.

Lemma round_half_even_le (n d c : Z) :
  0 < d -> n <= c * d -> round_half_even n d <= c.
Proof.
  intros Hd Hle. rewrite <- (round_half_even_exact c d Hd).
  apply round_half_even_mono; try lia. nia.
Qed.

Lemma round_half_even_ge (n d c : Z) :
  0 < d -> c * d <= n -> c <= round_half_even n d.
Proof.
  intros Hd Hle. rewrite <- (round_half_even_exact c d Hd).
  apply round_half_even_mono; try lia. nia.
Qed.

Lemma ulp_exponent_nonneg (t : Z) : 0 <= ulp_exponent t.
Proof. unfold ulp_exponent. lia. Qed.

Lemma ulp_exponent_mono (t1 t2 : Z) :
  0 <= t1 <= t2 -> ulp_exponent t1 <= ulp_exponent t2.
Proof.
  intros H. unfold ulp_exponent. pose proof (Zdigits2_le t1 t2 H). lia.
Qed.

Lemma round_binary64_upper (n d : Z) :
  0 <= n -> 0 < d ->
  round_binary64 n d <= 2 ^ 53 * 2 ^ ulp_exponent (n / d).
Proof.
  intros Hn Hd. unfold round_binary64. cbv zeta.
  set (k := ulp_exponent (n / d)).
  assert (Hk : 0 <= k) by apply ulp_exponent_nonneg.
  assert (Hp : 0 < 2 ^ k) by (apply Z.pow_pos_nonneg; lia).
  apply Z.mul_le_mono_nonneg_r; [lia | ].
  apply round_half_even_le; [nia | ].
  assert (Ht : 0 <= n / d) by (apply Z.div_pos; lia).
  pose proof (Zdigits2_pow2_gt (n / d) Ht) as Hlt.
  assert (Hdig : Zdigits2 (n / d) <= 53 + k) by (unfold k, ulp_exponent; lia).
  assert (Hpow : 2 ^ Zdigits2 (n / d) <= 2 ^ (53 + k)) by (apply Z.pow_le_mono_r; lia).
  rewrite Z.pow_add_r in Hpow by lia.
  pose proof (Z.div_mod n d ltac:(lia)) as E.
  pose proof (Z.mod_pos_bound n d Hd) as R. nia.
Qed.

Lemma round_binary64_lower (n d : Z) :
  0 <= n -> 0 < d -> 0 < ulp_exponent (n / d) ->
  2 ^ 52 * 2 ^ ulp_exponent (n / d) <= round_binary64 n d.
Proof.
  intros Hn Hd Hk0. unfold round_binary64. cbv zeta.
  assert (Hdig : Zdigits2 (n / d) = 53 + ulp_exponent (n / d))
    by (unfold ulp_exponent in *; lia).
  set (k := ulp_exponent (n / d)) in *.
  assert (Hp : 0 < 2 ^ k) by (apply Z.pow_pos_nonneg; lia).
  apply Z.mul_le_mono_nonneg_r; [lia | ].
  apply round_half_even_ge; [nia | ].
  assert (Ht : 0 < n / d).
  { destruct (Z.eq_dec (n / d) 0) as [E0 | ]; [rewrite E0 in Hdig; change (Zdigits2 0) with 0 in Hdig; lia | ].
    pose proof (Z.div_pos n d Hn Hd). lia. }
  rewrite Zdigits2_log2 in Hdig by lia.
  pose proof (Z.log2_spec (n / d) Ht) as [Hlo _].
  replace (Z.log2 (n / d)) with (52 + k) in Hlo by lia.
  rewrite Z.pow_add_r in Hlo by lia.
  pose proof (Z.mul_div_le n d Hd). nia.
Qed.

(** Rounding to binary64 is monotone. *)
Lemma round_binary64_mono (n1 d1 n2 d2 : Z) :
  0 <= n1 -> 0 < d1 -> 0 < d2 -> n1 * d2 <= n2 * d1 ->
  round_binary64 n1 d1 <= round_binary64 n2 d2.
Proof.
  intros Hn1 H1 H2 Hle.
  assert (Hn2 : 0 <= n2) by nia.
  pose proof (div_le_cross n1 d1 n2 d2 H1 H2 Hle) as Hq.
  assert (Ht1 : 0 <= n1 / d1) by (apply Z.div_pos; lia).
  pose proof (ulp_exponent_mono (n1 / d1) (n2 / d2) (conj Ht1 Hq)) as Hk.
  pose proof (ulp_exponent_nonneg (n1 / d1)) as Hk1.
  destruct (Z.eq_dec (ulp_exponent (n1 / d1)) (ulp_exponent (n2 / d2))) as [Heq | Hne].
  - unfold round_binary64. cbv zeta. rewrite <- Heq.
    set (k := ulp_exponent (n1 / d1)) in *.
    assert (Hp : 0 < 2 ^ k) by (apply Z.pow_pos_nonneg; lia).
    apply Z.mul_le_mono_nonneg_r; [lia | ].
    apply round_half_even_mono; nia.
  - pose proof (round_binary64_upper n1 d1 Hn1 H1) as Hu.
    pose proof (round_binary64_lower n2 d2 Hn2 H2 ltac:(lia)) as Hl.
    set (k1 := ulp_exponent (n1 / d1)) in *.
    set (k2 := ulp_exponent (n2 / d2)) in *.
    assert (Hpow : 2 ^ (k1 + 1) <= 2 ^ k2) by (apply Z.pow_le_mono_r; lia).
    rewrite Z.pow_add_r in Hpow by lia. change (2 ^ 1) with 2 in Hpow.
    change (2 ^ 53) with (2 ^ 52 * 2) in Hu.
    assert (0 < 2 ^ k1) by (apply Z.pow_pos_nonneg; lia).
    assert (0 < 2 ^ 52) by reflexivity.
    nia.
Qed.

Lemma round_binary64_nonneg (n d : Z) : 0 <= n -> 0 < d -> 0 <= round_binary64 n d.
Proof.
  intros Hn Hd. unfold round_binary64. cbv zeta.
  set (k := ulp_exponent (n / d)).
  assert (Hk : 0 <= k) by apply ulp_exponent_nonneg.
  assert (Hp : 0 < 2 ^ k) by (apply Z.pow_pos_nonneg; lia).
  apply Z.mul_nonneg_nonneg; [ | lia].
  apply round_half_even_ge; nia.
Qed.

End RoundHalfEven.

(** ** What [binary_round_aux] computes *)

Section RoundAux.

Import PyNum.

Lemma round_nearest_even_loc_of (n d : Z) :
  0 < d -> round_nearest_even (n / d) (loc_of n d) = round_half_even n d.
Proof.
  intros Hd. unfold loc_of, round_half_even.
  destruct (Z.eqb_spec (n mod d) 0) as [E | E].
  - rewrite E. cbn [round_nearest_even].
    destruct (Z.compare_spec (2 * 0) d); first [lia | reflexivity].
  - cbn [round_nearest_even]. destruct (2 * (n mod d) ?= d); reflexivity.
Qed.

Lemma shr_1_spec (m : Z) (r s : bool) :
  0 <= m ->
  shr_1 (Build_shr_record m r s) = Build_shr_record (m / 2) (Z.odd m) (r || s).
Proof.
  intros Hm. rewrite <- Z.div2_div.
  destruct m as [ | [p | p | ] | p]; try lia; reflexivity.
Qed.

Lemma shr_1_represents (mrs : shr_record) (n d : Z) :
  0 <= n -> 0 < d -> represents mrs n d -> represents (shr_1 mrs) n (d * 2).
Proof.
  intros Hn Hd [Hm Hl]. destruct mrs as [m r s]. cbn [shr_m] in Hm.
  assert (Hm0 : 0 <= m) by (rewrite Hm; apply Z.div_pos; lia).
  rewrite shr_1_spec by assumption. unfold represents. cbn [shr_m].
  split; [rewrite Hm; apply Z.div_div; lia | ].
  pose proof (Z.mod_pos_bound n d Hd) as R.
  assert (Hrem : n mod (d * 2) = n mod d + d * (m mod 2)).
  { rewrite Hm. apply Z.rem_mul_r; lia. }
  pose proof (Zmod_odd m) as Hodd.
  unfold loc_of in *. rewrite Hrem.
  destruct (Z.eqb_spec (n mod d) 0) as [E | E].
  - destruct r, s; try discriminate Hl. cbn [orb].
    destruct (Z.odd m); rewrite Hodd, E.
    + destruct (Z.eqb_spec (0 + d * 1) 0); [lia | ].
      destruct (Z.compare_spec (2 * (0 + d * 1)) (d * 2)); first [lia | reflexivity].
    + destruct (Z.eqb_spec (0 + d * 0) 0); [reflexivity | lia].
  - assert (Hrs : r || s = true) by (destruct r, s; try reflexivity; discriminate Hl).
    rewrite Hrs. destruct (Z.odd m); rewrite Hodd.
    + destruct (Z.eqb_spec (n mod d + d * 1) 0); [lia | ].
      destruct (Z.compare_spec (2 * (n mod d + d * 1)) (d * 2)); first [lia | reflexivity].
    + destruct (Z.eqb_spec (n mod d + d * 0) 0); [lia | ].
      destruct (Z.compare_spec (2 * (n mod d + d * 0)) (d * 2)); first [lia | reflexivity].
Qed.

Lemma iter_shr_1_represents (p : positive) :
  forall mrs n d, 0 <= n -> 0 < d -> represents mrs n d ->
    represents (iter_pos shr_1 p mrs) n (d * 2 ^ Zpos p).
Proof.
  induction p as [p IH | p IH | ]; intros mrs n d Hn Hd H; cbn [iter_pos].
  - assert (Hp : 0 < 2 ^ Zpos p) by (apply Z.pow_pos_nonneg; lia).
    replace (d * 2 ^ Zpos p~1) with (d * 2 * 2 ^ Zpos p * 2 ^ Zpos p).
    + apply IH; [lia | nia | ]. apply IH; [lia | lia | ].
      apply shr_1_represents; assumption.
    + rewrite (Pos2Z.inj_xI p).
      replace (2 * Zpos p + 1) with (1 + Zpos p + Zpos p) by lia.
      rewrite !Z.pow_add_r by lia. change (2 ^ 1) with 2. ring.
  - assert (Hp : 0 < 2 ^ Zpos p) by (apply Z.pow_pos_nonneg; lia).
    replace (d * 2 ^ Zpos p~0) with (d * 2 ^ Zpos p * 2 ^ Zpos p).
    + apply IH; [lia | nia | ]. apply IH; assumption.
    + rewrite (Pos2Z.inj_xO p). replace (2 * Zpos p) with (Zpos p + Zpos p) by lia.
      rewrite Z.pow_add_r by lia. ring.
  - change (2 ^ 1) with 2. apply shr_1_represents; assumption.
Qed.

Lemma shr_represents (mrs : shr_record) (e k n d : Z) :
  0 <= n -> 0 < d -> represents mrs n d ->
  represents (fst (shr mrs e k)) n (d * 2 ^ Z.max 0 k) /\
  snd (shr mrs e k) = e + Z.max 0 k.
Proof.
  intros Hn Hd H. destruct k as [ | p | p]; cbn [shr fst snd].
  - change (Z.max 0 0) with 0. rewrite Z.pow_0_r, Z.mul_1_r, Z.add_0_r. auto.
  - replace (Z.max 0 (Zpos p)) with (Zpos p) by lia.
    split; [apply iter_shr_1_represents; assumption | reflexivity].
  - replace (Z.max 0 (Zneg p)) with 0 by lia.
    rewrite Z.pow_0_r, Z.mul_1_r, Z.add_0_r. auto.
Qed.

Lemma shr_record_of_loc_represents (n d : Z) :
  represents (shr_record_of_loc (n / d) (loc_of n d)) n d.
Proof.
  unfold represents. rewrite shr_record_of_loc_m. split; [reflexivity | ].
  destruct (loc_of n d) as [ | []]; reflexivity.
Qed.

Lemma fexp_eq (x : Z) : fexp prec emax x = Z.max (x - 53) (-1074).
Proof. reflexivity. Qed.

Lemma Zdigits2_shiftr (m k : Z) :
  0 <= m -> 0 <= k -> 0 < Z.shiftr m k -> Zdigits2 (Z.shiftr m k) = Zdigits2 m - k.
Proof.
  intros Hm Hk Hpos.
  assert (Hm0 : 0 < m).
  { destruct (Z.eq_dec m 0) as [-> | ]; [rewrite Z.shiftr_0_l in Hpos; lia | lia]. }
  rewrite !Zdigits2_log2 by lia.
  rewrite Z.log2_shiftr by lia.
  destruct (Z_lt_le_dec (Z.log2 m) k) as [Hlt | Hge]; [ | lia].
  assert (Hz : Z.shiftr m k = 0) by (apply Z.shiftr_eq_0; lia). lia.
Qed.

Lemma shiftr_zero_digits (m k : Z) :
  0 <= m -> 0 <= k -> Z.shiftr m k = 0 -> Zdigits2 m <= k.
Proof.
  intros Hm Hk Hz.
  destruct (Z.eq_dec m 0) as [-> | Hne]; [cbn; lia | ].
  apply Z.shiftr_eq_0_iff in Hz. destruct Hz as [Hz | [_ Hz]]; [lia | ].
  rewrite Zdigits2_log2 by lia. lia.
Qed.

Lemma Zdigits2_succ_pow2 (m : Z) :
  0 <= m -> Zdigits2 (m + 1) = Zdigits2 m + 1 -> m + 1 = 2 ^ Zdigits2 m.
Proof.
  intros Hm Hd.
  pose proof (Zdigits2_pow2_gt m Hm) as Hlt.
  destruct (Z.eq_dec (m + 1) (2 ^ Zdigits2 m)) as [E | E]; [exact E | ].
  pose proof (Zdigits2_lt_pow2 (m + 1) (Zdigits2 m) ltac:(lia) (Zdigits2_nonneg m)).
  lia.
Qed.

Lemma div_mul_pow2 (n d k : Z) :
  0 < d -> 0 <= k -> n / (d * 2 ^ k) = Z.shiftr (n / d) k.
Proof.
  intros Hd Hk. rewrite Z.shiftr_div_pow2 by lia.
  symmetry. apply Z.div_div; [lia | apply Z.pow_pos_nonneg; lia].
Qed.

(** Rounding the rational [n / d * 2 ^ ex], presented by its integer part
    and location at an exponent not above the canonical one, gives the
    nearest multiple of the canonical unit, in canonical form. *)
Lemma binary_round_aux_value (sx : bool) (ex n d : Z) :
  0 <= n -> 0 < d ->
  ex <= fexp prec emax (Zdigits2 (n / d) + ex) ->
  let e1 := fexp prec emax (Zdigits2 (n / d) + ex) in
  value_is sx (round_half_even n (d * 2 ^ (e1 - ex))) e1
    (binary_round_aux prec emax sx (n / d) ex (loc_of n d)).
Proof.
  intros Hn Hd Hex e1.
  assert (He1 : e1 = Z.max (Zdigits2 (n / d) + ex - 53) (-1074)) by reflexivity.
  assert (Hmx : 0 <= n / d) by (apply Z.div_pos; lia).
  set (sh := e1 - ex). assert (Hsh : 0 <= sh) by (unfold sh, e1; lia).
  assert (Hsh' : sh = e1 - ex) by reflexivity.
  assert (Hpow : 0 < 2 ^ sh) by (apply Z.pow_pos_nonneg; lia).
  assert (HD : 0 < d * 2 ^ sh) by nia.
  unfold binary_round_aux, shr_fexp at 1. fold e1. fold sh.
  destruct (shr_represents (shr_record_of_loc (n / d) (loc_of n d)) ex sh n d Hn Hd
              (shr_record_of_loc_represents n d)) as [[Hm1 Hl1] He'].
  replace (Z.max 0 sh) with sh in * by lia.
  destruct (shr (shr_record_of_loc (n / d) (loc_of n d)) ex sh) as [mrs' e'].
  cbn [fst snd] in Hm1, Hl1, He'. replace (ex + sh) with e1 in He' by (unfold sh; lia).
  subst e'. rewrite Hm1, Hl1, round_nearest_even_loc_of by assumption.
  set (m1 := n / (d * 2 ^ sh)) in *.
  set (m2 := round_half_even n (d * 2 ^ sh)).
  pose proof (round_half_even_bounds n (d * 2 ^ sh) HD) as Hb. fold m1 m2 in Hb.
  assert (Hm1s : m1 = Z.shiftr (n / d) sh) by (apply div_mul_pow2; lia).
  assert (Hm10 : 0 <= m1) by (rewrite Hm1s; apply Z.shiftr_nonneg; assumption).
  (* the integer part is canonical at [e1] *)
  assert (HP : fexp prec emax (Zdigits2 m1 + e1) = e1).
  { destruct (Z.eq_dec m1 0) as [E0 | Hne].
    - rewrite E0. cbn [Zdigits2].
      rewrite Hm1s in E0. apply shiftr_zero_digits in E0; try lia.
      rewrite !fexp_eq in *. lia.
    - rewrite Hm1s, Zdigits2_shiftr by (rewrite <- ?Hm1s; lia).
      replace (Zdigits2 (n / d) - sh + e1) with (Zdigits2 (n / d) + ex)
        by (unfold sh; lia).
      reflexivity. }
  pose proof (Zdigits2_le m1 m2 ltac:(lia)) as Hd12.
  assert (Hd21 : Zdigits2 m2 <= Zdigits2 m1 + 1).
  { pose proof (Zdigits2_le m2 (m1 + 1) ltac:(lia)).
    pose proof (Zdigits2_succ m1 Hm10). lia. }
  unfold shr_fexp.
  set (n2 := fexp prec emax (Zdigits2 m2 + e1) - e1).
  destruct (shr_spec (shr_record_of_loc m2 loc_Exact) e1 n2) as [Hm3 He3].
  { rewrite shr_record_of_loc_m. lia. }
  rewrite shr_record_of_loc_m in Hm3.
  destruct (shr (shr_record_of_loc m2 loc_Exact) e1 n2) as [mrs'' e''].
  cbn [fst snd] in Hm3, He3. rewrite Hm3. subst e''.
  assert (Hn2 : n2 = 0 \/ n2 = 1).
  { unfold n2. rewrite fexp_eq in *. lia. }
  destruct Hn2 as [Hn2 | Hn2]; rewrite Hn2.
  - change (Z.max 0 0) with 0. rewrite Z.shiftr_0_r, Z.add_0_r.
    destruct m2 as [ | p | p] eqn:Em2; [cbn; auto | | lia].
    destruct (e1 <=? emax - prec) eqn:Ele; [ | exact I].
    cbn [value_is]. rewrite Z.sub_diag, Z.pow_0_r, Z.mul_1_r.
    repeat split; try lia.
    unfold bounded, canonical_mantissa. rewrite Ele, andb_true_r.
    apply Z.eqb_eq. unfold n2 in Hn2. cbn [Zdigits2] in Hn2. lia.
  - change (Z.max 0 1) with 1.
    assert (Hdig : Zdigits2 m2 = Zdigits2 m1 + 1).
    { unfold n2 in Hn2. rewrite fexp_eq in *. lia. }
    assert (Hm2 : m2 = m1 + 1).
    { destruct (Z.eq_dec m2 m1) as [E | E]; [rewrite E in Hdig; lia | lia]. }
    rewrite Hm2 in Hdig. apply Zdigits2_succ_pow2 in Hdig; [ | assumption].
    assert (Hm1pos : 0 < m1).
    { destruct (Z.eq_dec m1 0) as [E0 | ]; [ | lia].
      exfalso. unfold n2 in Hn2. rewrite Hm2, E0 in Hn2.
      change (Zdigits2 (0 + 1)) with 1 in Hn2.
      rewrite E0 in HP. cbn [Zdigits2] in HP. rewrite fexp_eq in *. lia. }
    assert (Hd1 : 1 <= Zdigits2 m1).
    { rewrite Zdigits2_log2 by lia. pose proof (Z.log2_nonneg m1). lia. }
    assert (Hm3v : Z.shiftr m2 1 = 2 ^ (Zdigits2 m1 - 1)).
    { rewrite Hm2, Hdig, Z.shiftr_div_pow2 by lia. change (2 ^ 1) with 2.
      replace (Zdigits2 m1) with (1 + (Zdigits2 m1 - 1)) at 1 by lia.
      rewrite Z.pow_add_r by lia. change (2 ^ 1) with 2.
      rewrite Z.mul_comm, Z.div_mul; lia. }
    rewrite Hm3v.
    assert (Hp3 : 0 < 2 ^ (Zdigits2 m1 - 1)) by (apply Z.pow_pos_nonneg; lia).
    destruct (2 ^ (Zdigits2 m1 - 1)) as [ | p | p] eqn:Ep; try lia.
    destruct (e1 + 1 <=? emax - prec) eqn:Ele; [ | exact I].
    cbn [value_is].
    replace (e1 + 1 - e1) with 1 by lia. change (2 ^ 1) with 2.
    assert (Hval : Zpos p * 2 = m2).
    { rewrite <- Ep, Hm2, Hdig.
      replace (Zdigits2 m1) with ((Zdigits2 m1 - 1) + 1) at 2 by lia.
      rewrite Z.pow_add_r by lia. reflexivity. }
    repeat split; try lia.
    unfold bounded, canonical_mantissa. rewrite Ele, andb_true_r.
    apply Z.eqb_eq.
    assert (Hdp : Zpos (digits2_pos p) = Zdigits2 m1).
    { change (Zpos (digits2_pos p)) with (Zdigits2 (Zpos p)). rewrite <- Ep.
      rewrite Zdigits2_log2 by lia. rewrite Z.log2_pow2 by lia. lia. }
    rewrite Hdp. unfold n2 in Hn2. rewrite Hm2 in Hn2.
    rewrite Hdig in Hn2.
    assert (Hd2 : Zdigits2 (2 ^ Zdigits2 m1) = Zdigits2 m1 + 1).
    { rewrite Zdigits2_log2 by (apply Z.pow_pos_nonneg; lia).
      rewrite Z.log2_pow2 by lia. reflexivity. }
    rewrite Hd2 in Hn2. rewrite fexp_eq in *. lia.
Qed.

End RoundAux.

(** ** The value of a double *)

Section Values.

Import PyNum.

Lemma bounded_canonical (m : positive) (e : Z) :
  bounded prec emax m e = true ->
  e = Z.max (Zpos (digits2_pos m) + e - 53) (-1074) /\ e <= 971.
Proof.
  unfold bounded, canonical_mantissa. rewrite andb_true_iff, Z.eqb_eq, Z.leb_le.
  rewrite fexp_eq. unfold emax, prec. lia.
Qed.

Lemma value_is_Zval (s : bool) (m e : Z) (r : float) :
  value_is s m e r -> is_finite r = true -> -1074 <= e ->
  Zval r = signed s (m * 2 ^ (e + 1074)) /\ wf r.
Proof.
  destruct r as [s' | s' | | s' m' e']; cbn [value_is is_finite];
    intros H Hfin He; try discriminate.
  - destruct H as [-> ->]. split; [destruct s; reflexivity | split; reflexivity].
  - destruct H as (-> & Hle & Hm & Hb). split; [ | split; [reflexivity | exact Hb]].
    assert (Hv : Zpos m' * 2 ^ (e' + 1074) = m * 2 ^ (e + 1074)).
    { rewrite <- Hm, <- Z.mul_assoc, <- Z.pow_add_r by lia.
      f_equal. f_equal. lia. }
    cbn [Zval]. rewrite Hv. reflexivity.
Qed.

Lemma round_half_even_zero (d : Z) : 0 < d -> round_half_even 0 d = 0.
Proof.
  intros Hd. change 0 with (0 * d) at 1. apply round_half_even_exact. exact Hd.
Qed.

Lemma round_binary64_zero (d : Z) : 0 < d -> round_binary64 0 d = 0.
Proof.
  intros Hd. unfold round_binary64. cbv zeta.
  rewrite Z.div_0_l by lia. change (ulp_exponent 0) with 0.
  rewrite Z.pow_0_r, Z.mul_1_r, Z.mul_1_r. apply round_half_even_zero. exact Hd.
Qed.

(** The rounding depends on the rational only. *)
Lemma round_binary64_ext (n1 d1 n2 d2 : Z) :
  0 <= n1 -> 0 <= n2 -> 0 < d1 -> 0 < d2 -> n1 * d2 = n2 * d1 ->
  round_binary64 n1 d1 = round_binary64 n2 d2.
Proof.
  intros Hn1 Hn2 H1 H2 E. apply Z.le_antisymm; apply round_binary64_mono; lia.
Qed.

Lemma Zdigits2_div_scale (n d a : Z) :
  0 <= n -> 0 < d -> 0 <= a -> 0 < n / d ->
  Zdigits2 (n * 2 ^ a / d) = Zdigits2 (n / d) + a.
Proof.
  intros Hn Hd Ha Hq.
  assert (Hp : 0 < 2 ^ a) by (apply Z.pow_pos_nonneg; lia).
  pose proof (Z.log2_spec (n / d) Hq) as [Hlo Hhi].
  set (l := Z.log2 (n / d)) in *.
  assert (Hl : 0 <= l) by apply Z.log2_nonneg.
  assert (Hlo' : 2 ^ (l + a) <= n * 2 ^ a / d).
  { apply Z.div_le_lower_bound; [lia | ].
    rewrite Z.pow_add_r by lia.
    pose proof (Z.mul_div_le n d Hd).
    assert (d * 2 ^ l <= n) by nia.
    assert (d * 2 ^ l * 2 ^ a <= n * 2 ^ a) by (apply Z.mul_le_mono_nonneg_r; lia).
    lia. }
  assert (Hhi' : n * 2 ^ a / d < 2 ^ (l + a + 1)).
  { apply Z.div_lt_upper_bound; [lia | ].
    replace (l + a + 1) with (Z.succ l + a) by lia.
    rewrite Z.pow_add_r by lia.
    assert (n < d * 2 ^ Z.succ l).
    { pose proof (Z.div_mod n d ltac:(lia)). pose proof (Z.mod_pos_bound n d Hd).
      nia. }
    assert (n * 2 ^ a < d * 2 ^ Z.succ l * 2 ^ a) by (apply Z.mul_lt_mono_pos_r; lia).
    lia. }
  assert (Hq' : 0 < n * 2 ^ a / d).
  { assert (0 < 2 ^ (l + a)) by (apply Z.pow_pos_nonneg; lia). lia. }
  rewrite !Zdigits2_log2 by lia. fold l.
  rewrite (Z.log2_unique (n * 2 ^ a / d) (l + a)); [lia | lia | ].
  replace (Z.succ (l + a)) with (l + a + 1) by lia. lia.
Qed.

(** The outcome of [binary_round_aux], in units of [2 ^ -1074]: the exact
    value [n / d * 2 ^ ex] is [n * 2 ^ a / (d * 2 ^ b)] units. *)
Lemma round_aux_scaled (n d ex a b : Z) :
  0 <= n -> 0 < d -> 0 <= a -> 0 <= b -> a = 0 \/ b = 0 -> a - b = ex + 1074 ->
  ex <= fexp prec emax (Zdigits2 (n / d) + ex) ->
  let e1 := fexp prec emax (Zdigits2 (n / d) + ex) in
  round_half_even n (d * 2 ^ (e1 - ex)) * 2 ^ (e1 + 1074)
  = round_binary64 (n * 2 ^ a) (d * 2 ^ b).
Proof.
  intros Hn Hd Ha Hb Hab Hex Hnorm e1.
  assert (He1 : e1 = Z.max (Zdigits2 (n / d) + ex - 53) (-1074)) by reflexivity.
  rewrite fexp_eq in Hnorm.
  assert (Hq : 0 <= n / d) by (apply Z.div_pos; lia).
  pose proof (Zdigits2_nonneg (n / d)) as Hdig.
  assert (Hpa : 0 < 2 ^ a) by (apply Z.pow_pos_nonneg; lia).
  assert (Hpb : 0 < 2 ^ b) by (apply Z.pow_pos_nonneg; lia).
  unfold round_binary64. cbv zeta.
  assert (Hk : ulp_exponent (n * 2 ^ a / (d * 2 ^ b)) = e1 + 1074).
  { unfold ulp_exponent. destruct Hab as [-> | ->].
    - rewrite Z.pow_0_r, Z.mul_1_r, div_mul_pow2 by lia.
      destruct (Z.eq_dec (Z.shiftr (n / d) b) 0) as [E0 | Hne].
      + rewrite E0. cbn [Zdigits2]. apply shiftr_zero_digits in E0; lia.
      + rewrite Zdigits2_shiftr; try lia.
        pose proof (Z.shiftr_nonneg (n / d) b). lia.
    - rewrite Z.pow_0_r, Z.mul_1_r.
      destruct (Z.eq_dec (n / d) 0) as [E0 | Hne].
      + rewrite E0 in *. cbn [Zdigits2] in *.
        assert (a = 0) by lia. subst a. rewrite Z.pow_0_r, Z.mul_1_r, E0.
        cbn [Zdigits2]. lia.
      + rewrite Zdigits2_div_scale by lia. lia. }
  rewrite Hk. f_equal.
  destruct Hab as [-> | ->].
  - rewrite Z.pow_0_r, Z.mul_1_r, <- Z.mul_assoc, <- Z.pow_add_r by lia.
    f_equal. f_equal. f_equal. lia.
  - rewrite Z.pow_0_r, Z.mul_1_r.
    replace (e1 + 1074) with ((e1 - ex) + a) by lia.
    rewrite Z.pow_add_r, Z.mul_assoc by lia.
    symmetry. apply round_half_even_scale; [ | lia].
    assert (0 < 2 ^ (e1 - ex)) by (apply Z.pow_pos_nonneg; lia). nia.
Qed.

End Values.

(** ** The operations of the pipeline, on values *)

Section Operations.

Import PyNum.

Lemma loc_of_one (n : Z) : loc_of n 1 = loc_Exact.
Proof. unfold loc_of. rewrite Z.mod_1_r. reflexivity. Qed.

Lemma round_value_opp (v : Z) : round_value (- v) = - round_value v.
Proof.
  unfold round_value.
  destruct (Z.ltb_spec (- v) 0), (Z.ltb_spec v 0); try lia.
  - rewrite Z.opp_involutive. lia.
  - assert (v = 0) by lia. subst v. cbn [Z.opp].
    rewrite round_binary64_zero by lia. reflexivity.
Qed.

Lemma round_value_signed (s : bool) (v : Z) :
  0 <= v -> signed s (round_binary64 v 1) = round_value (signed s v).
Proof.
  intros Hv. destruct s; cbn [signed].
  - rewrite round_value_opp. unfold round_value.
    destruct (Z.ltb_spec v 0); [lia | reflexivity].
  - unfold round_value. destruct (Z.ltb_spec v 0); [lia | reflexivity].
Qed.

Lemma binary_round_value (s : bool) (m : positive) (e K : Z) :
  -1074 <= e <= 971 -> -1021 <= K <= 1023 -> Zpos (digits2_pos m) + e <= K ->
  good (K + 1) (binary_round prec emax s m e) /\
  Zval (binary_round prec emax s m e)
  = signed s (round_binary64 (Zpos m * 2 ^ (e + 1074)) 1).
Proof.
  intros He HK HD.
  pose proof (binary_round_small s m e K ltac:(lia) HK HD) as Hsmall.
  revert Hsmall. unfold binary_round.
  pose proof (shl_align_spec m e (fexp prec emax (Zpos (digits2_pos m) + e)))
    as [H1 H2].
  destruct (shl_align m e (fexp prec emax (Zpos (digits2_pos m) + e))) as [mz ez].
  cbn [fst snd] in H1, H2. rewrite fexp_eq in H1, H2. intros Hsmall.
  assert (Hdz : Zdigits2 (Zpos mz) + ez = Zpos (digits2_pos m) + e).
  { rewrite H2, Zdigits2_mul_pow2 by lia. lia. }
  pose proof (binary_round_aux_value s ez (Zpos mz) 1 ltac:(lia) ltac:(lia)) as Hv.
  rewrite Z.div_1_r, loc_of_one, Hdz in Hv. cbv zeta in Hv.
  specialize (Hv ltac:(rewrite fexp_eq; lia)).
  apply value_is_Zval in Hv;
    [ | apply small_finite with (K + 1); exact Hsmall | rewrite fexp_eq; lia].
  destruct Hv as [Hval Hwf]. split; [split; assumption | ].
  rewrite Hval. f_equal.
  pose proof (round_aux_scaled (Zpos mz) 1 ez (ez + 1074) 0) as Hs.
  rewrite Z.div_1_r, Hdz in Hs. cbv zeta in Hs.
  rewrite Hs; try lia; [ | rewrite fexp_eq; lia].
  rewrite Z.pow_0_r, Z.mul_1_r. f_equal.
  rewrite H2, <- Z.mul_assoc, <- Z.pow_add_r by lia. f_equal. f_equal. lia.
Qed.

Lemma binary_normalize_value (m e K : Z) (sz : bool) :
  -1074 <= e <= 971 -> -1021 <= K <= 1023 -> Zdigits2 (Z.abs m) + e <= K ->
  good (K + 1) (binary_normalize prec emax m e sz) /\
  Zval (binary_normalize prec emax m e sz) = round_value (m * 2 ^ (e + 1074)).
Proof.
  intros He HK HD.
  assert (Hp : 0 < 2 ^ (e + 1074)) by (apply Z.pow_pos_nonneg; lia).
  destruct m as [ | p | p]; cbn [binary_normalize].
  - split; [split; [split; reflexivity | exact I] | ].
    cbn [Zval]. rewrite Z.mul_0_l. unfold round_value. rewrite Z.ltb_irrefl.
    symmetry. apply round_binary64_zero. lia.
  - destruct (binary_round_value false p e K He HK HD) as [Hg Hv].
    split; [exact Hg | ]. rewrite Hv. apply (round_value_signed false). lia.
  - destruct (binary_round_value true p e K He HK HD) as [Hg Hv].
    split; [exact Hg | ]. rewrite Hv.
    rewrite round_value_signed by lia. cbn [signed]. f_equal. lia.
Qed.

Lemma float_of_int_value (z : Z) :
  Z.abs z < 2 ^ 63 ->
  exists f, float_of_int z = Ok f /\ good 64 f /\
            Zval f = round_value (z * 2 ^ 1074).
Proof.
  intros Hz. unfold float_of_int.
  destruct (binary_normalize_value z 0 63 false) as [[Hwf Hs] Hv]; try lia.
  { pose proof (Zdigits2_lt_pow2 (Z.abs z) 63). lia. }
  rewrite (small_finite _ _ Hs). eexists. split; [reflexivity | ].
  split; [split; assumption | exact Hv].
Qed.

(** A canonical value is its own rounding. *)
Lemma round_binary64_canonical (m : positive) (e : Z) :
  bounded prec emax m e = true ->
  round_binary64 (Zpos m * 2 ^ (e + 1074)) 1 = Zpos m * 2 ^ (e + 1074).
Proof.
  intros Hb. apply bounded_canonical in Hb. destruct Hb as [Hc He].
  assert (Hp : 0 < 2 ^ (e + 1074)) by (apply Z.pow_pos_nonneg; lia).
  unfold round_binary64. cbv zeta. rewrite Z.div_1_r.
  assert (Hk : ulp_exponent (Zpos m * 2 ^ (e + 1074)) = e + 1074).
  { unfold ulp_exponent. rewrite Zdigits2_mul_pow2 by lia. lia. }
  rewrite Hk, Z.mul_1_l, round_half_even_exact by lia. reflexivity.
Qed.

Lemma round_value_id (f : float) : wf f -> round_value (Zval f) = Zval f.
Proof.
  intros [Hfin Hv]. destruct f as [s | s | | s m e]; try discriminate Hfin;
    cbn [Zval]; try (apply round_binary64_zero; lia).
  cbn [valid_binary] in Hv.
  assert (Hp : 0 < 2 ^ (e + 1074)).
  { apply bounded_canonical in Hv. apply Z.pow_pos_nonneg; lia. }
  change (if s then - (Zpos m * 2 ^ (e + 1074)) else Zpos m * 2 ^ (e + 1074))
    with (signed s (Zpos m * 2 ^ (e + 1074))).
  rewrite <- round_value_signed by lia.
  rewrite round_binary64_canonical by assumption. reflexivity.
Qed.

(** Small integers are doubles. *)
Lemma round_value_int (z : Z) :
  Z.abs z < 2 ^ 53 -> round_value (z * 2 ^ 1074) = z * 2 ^ 1074.
Proof.
  intros Hz.
  assert (Hpos : forall p, Zpos p < 2 ^ 53 ->
            round_binary64 (Zpos p * 2 ^ 1074) 1 = Zpos p * 2 ^ 1074).
  { intros p Hp. unfold round_binary64. cbv zeta. rewrite Z.div_1_r.
    pose proof (Zdigits2_lt_pow2 (Zpos p) 53 ltac:(lia) ltac:(lia) Hp) as Hd.
    cbn [Zdigits2] in Hd.
    assert (Hk : ulp_exponent (Zpos p * 2 ^ 1074) = Zpos (digits2_pos p) + 1021).
    { unfold ulp_exponent. rewrite Zdigits2_mul_pow2 by lia. lia. }
    rewrite Hk, Z.mul_1_l.
    set (k := Zpos (digits2_pos p) + 1021) in *.
    assert (Hk0 : 0 <= k <= 1074) by (unfold k; lia).
    replace (Zpos p * 2 ^ 1074) with (Zpos p * 2 ^ (1074 - k) * 2 ^ k).
    - rewrite round_half_even_exact by (apply Z.pow_pos_nonneg; lia). reflexivity.
    - rewrite <- Z.mul_assoc, <- Z.pow_add_r by lia. f_equal. f_equal. lia. }
  destruct z as [ | p | p].
  - apply round_binary64_zero. lia.
  - unfold round_value. destruct (Z.ltb_spec (Zpos p * 2 ^ 1074) 0); [lia | ].
    apply Hpos. lia.
  - replace (Zneg p * 2 ^ 1074) with (- (Zpos p * 2 ^ 1074)) by lia.
    rewrite round_value_opp. f_equal.
    unfold round_value. destruct (Z.ltb_spec (Zpos p * 2 ^ 1074) 0); [lia | ].
    apply Hpos. lia.
Qed.

Lemma wf_exponent (s : bool) (m : positive) (e : Z) :
  wf (S754_finite s m e) ->
  e = Z.max (Zpos (digits2_pos m) + e - 53) (-1074) /\ e <= 971.
Proof. intros [_ Hv]. apply bounded_canonical. exact Hv. Qed.

Lemma aligned_sum_value (sx sy : bool) (mx my : positive) (ex ey : Z) (sgn : Z) :
  -1074 <= ex -> -1074 <= ey ->
  let ez := Z.min ex ey in
  (cond_Zopp sx (Zpos (fst (shl_align mx ex ez)))
   + sgn * cond_Zopp sy (Zpos (fst (shl_align my ey ez)))) * 2 ^ (ez + 1074)
  = Zval (S754_finite sx mx ex) + sgn * Zval (S754_finite sy my ey).
Proof.
  intros Hex Hey ez.
  destruct (shl_align_spec mx ex ez) as [_ Hax].
  destruct (shl_align_spec my ey ez) as [_ Hay].
  rewrite Hax, Hay.
  replace (Z.min ex ez) with ez by (unfold ez; lia).
  replace (Z.min ey ez) with ez by (unfold ez; lia).
  assert (Hx : Zpos mx * 2 ^ (ex - ez) * 2 ^ (ez + 1074) = Zpos mx * 2 ^ (ex + 1074)).
  { rewrite <- Z.mul_assoc, <- Z.pow_add_r by (unfold ez; lia).
    f_equal. f_equal. lia. }
  assert (Hy : Zpos my * 2 ^ (ey - ez) * 2 ^ (ez + 1074) = Zpos my * 2 ^ (ey + 1074)).
  { rewrite <- Z.mul_assoc, <- Z.pow_add_r by (unfold ez; lia).
    f_equal. f_equal. lia. }
  cbn [Zval]. rewrite <- Hx, <- Hy. destruct sx, sy; cbn [cond_Zopp]; ring.
Qed.

Lemma good_weaken (K K' : Z) (f : float) : K <= K' -> good K f -> good K' f.
Proof. intros HK [Hwf Hs]. split; [exact Hwf | apply small_weaken with K; assumption]. Qed.

Lemma good_exponent (K : Z) (s : bool) (m : positive) (e : Z) :
  good K (S754_finite s m e) ->
  e = Z.max (Zpos (digits2_pos m) + e - 53) (-1074) /\ e <= 971 /\
  Zpos (digits2_pos m) + e <= K.
Proof.
  intros [Hwf Hs]. destruct (wf_exponent s m e Hwf) as [H1 H2].
  cbn [small] in Hs. auto.
Qed.

Lemma round_value_zero : round_value 0 = 0.
Proof. apply round_binary64_zero. lia. Qed.

Lemma good_zero (K : Z) (s : bool) : good K (S754_zero s).
Proof. split; [split; reflexivity | exact I]. Qed.

Lemma wf_opp (s : bool) (m : positive) (e : Z) :
  wf (S754_finite s m e) -> wf (S754_finite (negb s) m e).
Proof. intros [H1 H2]. split; assumption. Qed.

Lemma SFadd_value (K : Z) (x y : float) :
  good K x -> good K y -> -1021 <= K <= 971 ->
  good (K + 2) (SFadd prec emax x y) /\
  Zval (SFadd prec emax x y) = round_value (Zval x + Zval y).
Proof.
  intros Hx Hy HK.
  destruct x as [sx | sx | | sx mx ex]; try (destruct Hx as [[Hf _] _]; discriminate Hf);
    destruct y as [sy | sy | | sy my ey]; try (destruct Hy as [[Hf _] _]; discriminate Hf);
    cbn [SFadd].
  - split; [destruct sx, sy; apply good_zero | ].
    destruct sx, sy; cbn [Zval]; symmetry; apply round_value_zero.
  - split; [apply good_weaken with K; [lia | assumption] | ].
    change (Zval (S754_zero sx)) with 0. rewrite Z.add_0_l.
    symmetry. apply round_value_id. apply Hy.
  - split; [apply good_weaken with K; [lia | assumption] | ].
    change (Zval (S754_zero sy)) with 0. rewrite Z.add_0_r.
    symmetry. apply round_value_id. apply Hx.
  - destruct (good_exponent K sx mx ex Hx) as (Cx & Ex & Dx).
    destruct (good_exponent K sy my ey Hy) as (Cy & Ey & Dy).
    pose proof (aligned_sum_digits sx sy mx my ex ey K 1 Dx Dy (or_introl eq_refl)) as Hd.
    pose proof (aligned_sum_value sx sy mx my ex ey 1 ltac:(lia) ltac:(lia)) as Hv.
    cbv zeta in Hd, Hv. rewrite !Z.mul_1_l in Hd, Hv.
    replace (K + 2) with (K + 1 + 1) by lia.
    destruct (binary_normalize_value
                (cond_Zopp sx (Zpos (fst (shl_align mx ex (Z.min ex ey))))
                 + cond_Zopp sy (Zpos (fst (shl_align my ey (Z.min ex ey)))))
                (Z.min ex ey) (K + 1) false) as [Hg Hr]; try lia.
    split; [exact Hg | ]. rewrite Hr, Hv. f_equal; lia.
Qed.

Lemma SFsub_value (K : Z) (x y : float) :
  good K x -> good K y -> -1021 <= K <= 971 ->
  good (K + 2) (SFsub prec emax x y) /\
  Zval (SFsub prec emax x y) = round_value (Zval x - Zval y).
Proof.
  intros Hx Hy HK.
  destruct x as [sx | sx | | sx mx ex]; try (destruct Hx as [[Hf _] _]; discriminate Hf);
    destruct y as [sy | sy | | sy my ey]; try (destruct Hy as [[Hf _] _]; discriminate Hf);
    cbn [SFsub].
  - split; [destruct sx, sy; apply good_zero | ].
    destruct sx, sy; cbn [Zval]; symmetry; apply round_value_zero.
  - destruct Hy as [Hwf Hs].
    split; [split; [apply wf_opp; exact Hwf | cbn [small] in *; lia] | ].
    change (Zval (S754_zero sx)) with 0. rewrite Z.sub_0_l, round_value_opp.
    rewrite (round_value_id _ Hwf). cbn [Zval]. destruct sy; cbn [negb]; lia.
  - split; [apply good_weaken with K; [lia | assumption] | ].
    change (Zval (S754_zero sy)) with 0. rewrite Z.sub_0_r.
    symmetry. apply round_value_id. apply Hx.
  - destruct (good_exponent K sx mx ex Hx) as (Cx & Ex & Dx).
    destruct (good_exponent K sy my ey Hy) as (Cy & Ey & Dy).
    pose proof (aligned_sum_digits sx sy mx my ex ey K (-1) Dx Dy (or_intror eq_refl)) as Hd.
    pose proof (aligned_sum_value sx sy mx my ex ey (-1) ltac:(lia) ltac:(lia)) as Hv.
    cbv zeta in Hd, Hv.
    replace (K + 2) with (K + 1 + 1) by lia.
    set (a := cond_Zopp sx (Zpos (fst (shl_align mx ex (Z.min ex ey))))) in *.
    set (b := cond_Zopp sy (Zpos (fst (shl_align my ey (Z.min ex ey))))) in *.
    replace (a + -1 * b) with (a - b) in Hd, Hv by lia.
    destruct (binary_normalize_value (a - b) (Z.min ex ey) (K + 1) false)
      as [Hg Hr]; try lia.
    split; [exact Hg | ]. rewrite Hr, Hv. f_equal; lia.
Qed.

Lemma Zval_nonneg_sign (s : bool) (m : positive) (e : Z) :
  wf (S754_finite s m e) -> 0 <= Zval (S754_finite s m e) -> s = false.
Proof.
  intros Hwf. destruct (wf_exponent s m e Hwf) as [Hc _].
  assert (Hp : 0 < 2 ^ (e + 1074)) by (apply Z.pow_pos_nonneg; lia).
  cbn [Zval]. destruct s; [ | reflexivity]. intros H. exfalso. nia.
Qed.

Lemma scaled_product_eq (mx my ex ey a b : Z) :
  -1074 <= ex -> -1074 <= ey -> 0 <= a -> 0 <= b -> a - b = ex + ey + 1074 ->
  mx * my * 2 ^ a * 2 ^ 1074
  = mx * 2 ^ (ex + 1074) * (my * 2 ^ (ey + 1074)) * (1 * 2 ^ b).
Proof.
  intros Hex Hey Ha Hb Hab.
  assert (E : 2 ^ a * 2 ^ 1074 = 2 ^ (ex + 1074) * 2 ^ (ey + 1074) * 2 ^ b).
  { rewrite <- !Z.pow_add_r by lia. f_equal. lia. }
  set (P := 2 ^ 1074) in *. set (A := 2 ^ a) in *. set (B := 2 ^ b) in *.
  set (X := 2 ^ (ex + 1074)) in *. set (Y := 2 ^ (ey + 1074)) in *.
  clearbody P A B X Y.
  transitivity (mx * my * (A * P)); [ring | ]. rewrite E. ring.
Qed.

(** The product of two non-negative doubles is the rounded product. *)
Lemma SFmul_value (Kx Ky : Z) (x y : float) :
  good Kx x -> good Ky y -> 0 <= Zval x -> 0 <= Zval y ->
  -1021 <= Kx + Ky <= 973 ->
  good (Kx + Ky + 1) (SFmul prec emax x y) /\
  Zval (SFmul prec emax x y) = round_binary64 (Zval x * Zval y) (2 ^ 1074).
Proof.
  intros Hx Hy Px Py HK.
  pose proof (SFmul_small Kx Ky x y (proj2 Hx) (proj2 Hy) HK) as Hsmall.
  destruct x as [sx | sx | | sx mx ex]; try (destruct Hx as [[Hf _] _]; discriminate Hf);
    destruct y as [sy | sy | | sy my ey]; try (destruct Hy as [[Hf _] _]; discriminate Hf);
    cbn [SFmul] in *;
    try (split; [apply good_zero | ];
         cbn [Zval]; rewrite ?Z.mul_0_l, ?Z.mul_0_r; symmetry;
         apply round_binary64_zero; reflexivity).
  pose proof (Zval_nonneg_sign sx mx ex (proj1 Hx) Px). subst sx.
  pose proof (Zval_nonneg_sign sy my ey (proj1 Hy) Py). subst sy.
  cbn [xorb] in *.
  destruct (good_exponent Kx false mx ex Hx) as (Cx & Ex & Dx).
  destruct (good_exponent Ky false my ey Hy) as (Cy & Ey & Dy).
  clear Hx Hy Px Py.
  pose proof (digits2_pos_pos mx) as D1. pose proof (digits2_pos_pos my) as D2.
  assert (Hdig : Zpos (digits2_pos mx) + Zpos (digits2_pos my) - 1
                 <= Zdigits2 (Zpos (mx * my))).
  { cbn [Zdigits2]. rewrite !digits2_pos_log2, Pos2Z.inj_mul.
    pose proof (Z.log2_mul_below (Zpos mx) (Zpos my)). lia. }
  assert (Hnorm : ex + ey <= fexp prec emax (Zdigits2 (Zpos (mx * my)) + (ex + ey))).
  { rewrite fexp_eq. lia. }
  assert (He1 : -1074 <= fexp prec emax (Zdigits2 (Zpos (mx * my)) + (ex + ey))).
  { rewrite fexp_eq. lia. }
  assert (Hex : -1074 <= ex) by lia. assert (Hey : -1074 <= ey) by lia.
  clear Cx Cy Dx Dy Ex Ey D1 D2 Hdig HK.
  pose proof (binary_round_aux_value false (ex + ey) (Zpos (mx * my)) 1
                ltac:(lia) ltac:(lia)) as Hv.
  rewrite Z.div_1_r, loc_of_one in Hv. cbv zeta in Hv.
  specialize (Hv Hnorm).
  apply value_is_Zval in Hv;
    [ | apply small_finite with (Kx + Ky + 1); exact Hsmall | exact He1].
  destruct Hv as [Hval Hwf]. split; [split; assumption | ].
  rewrite Hval. cbn [signed]. clear Hval Hwf Hsmall He1.
  pose proof (round_aux_scaled (Zpos (mx * my)) 1 (ex + ey)
                (Z.max 0 (ex + ey + 1074)) (Z.max 0 (- (ex + ey + 1074)))
                ltac:(lia) ltac:(lia) ltac:(lia) ltac:(lia) ltac:(lia) ltac:(lia)) as Hs.
  rewrite Z.div_1_r in Hs. cbv zeta in Hs.
  rewrite (Hs Hnorm). clear Hs Hnorm.
  assert (Ha : 0 <= Z.max 0 (ex + ey + 1074)) by lia.
  assert (Hb : 0 <= Z.max 0 (- (ex + ey + 1074))) by lia.
  assert (Hab : Z.max 0 (ex + ey + 1074) - Z.max 0 (- (ex + ey + 1074))
                = ex + ey + 1074) by lia.
  set (a := Z.max 0 (ex + ey + 1074)) in *.
  set (b := Z.max 0 (- (ex + ey + 1074))) in *.
  clearbody a b.
  assert (Hpa : 0 < 2 ^ a) by (apply Z.pow_pos_nonneg; lia).
  assert (Hpb : 0 < 2 ^ b) by (apply Z.pow_pos_nonneg; lia).
  assert (Hpx : 0 < 2 ^ (ex + 1074)) by (apply Z.pow_pos_nonneg; lia).
  assert (Hpy : 0 < 2 ^ (ey + 1074)) by (apply Z.pow_pos_nonneg; lia).
  cbn [Zval]. rewrite Pos2Z.inj_mul.
  apply round_binary64_ext.
  - apply Z.mul_nonneg_nonneg; [apply Z.mul_nonneg_nonneg | ]; lia.
  - apply Z.mul_nonneg_nonneg; apply Z.mul_nonneg_nonneg; lia.
  - apply Z.mul_pos_pos; lia.
  - apply Z.pow_pos_nonneg; lia.
  - apply scaled_product_eq; assumption.
Qed.

Lemma new_location_loc_of (n d : Z) :
  0 < d -> new_location d (n mod d) = loc_of n d.
Proof.
  intros Hd. unfold new_location, new_location_even, new_location_odd, loc_of.
  pose proof (Z.mod_pos_bound n d Hd) as R.
  destruct (Z.even d) eqn:Ev; [reflexivity | ].
  destruct (Z.eqb_spec (n mod d) 0); [reflexivity | ]. f_equal.
  assert (Hodd : Z.odd d = true) by (rewrite <- Z.negb_even, Ev; reflexivity).
  apply Z.odd_spec in Hodd. destruct Hodd as [k Hk].
  destruct (Z.compare_spec (2 * (n mod d) + 1) d);
    destruct (Z.compare_spec (2 * (n mod d)) d); first [reflexivity | lia].
Qed.

Lemma pow2_le_digits (m : positive) : 2 ^ (Zpos (digits2_pos m) - 1) <= Zpos m.
Proof.
  rewrite digits2_pos_log2. replace (Z.log2 (Zpos m) + 1 - 1) with (Z.log2 (Zpos m)) by lia.
  apply Z.log2_spec. lia.
Qed.

(** The quotient [mx * 2 ^ s / my] is presented at or below its canonical
    exponent. *)
Lemma quotient_normalised (mx my : positive) (s e' : Z) :
  0 <= s ->
  e' <= Z.max (Zpos (digits2_pos mx) + s - Zpos (digits2_pos my) + e' - 53) (-1074) ->
  e' <= fexp prec emax (Zdigits2 (Zpos mx * 2 ^ s / Zpos my) + e').
Proof.
  intros Hs He'. rewrite fexp_eq.
  set (dx := Zpos (digits2_pos mx)) in *.
  set (dy := Zpos (digits2_pos my)) in *.
  set (q := Zpos mx * 2 ^ s / Zpos my).
  assert (Hps : 0 < 2 ^ s) by (apply Z.pow_pos_nonneg; lia).
  assert (Hq0 : 0 <= q) by (apply Z.div_pos; nia).
  pose proof (pow2_le_digits mx) as Lx. fold dx in Lx.
  pose proof (Zdigits2_pow2_gt (Zpos my) ltac:(lia)) as Uy. cbn [Zdigits2] in Uy.
  fold dy in Uy.
  pose proof (digits2_pos_pos mx) as D1. pose proof (digits2_pos_pos my) as D2.
  fold dx in D1. fold dy in D2.
  assert (Hdig : dx + s - dy <= Zdigits2 q \/ (q = 0 /\ dx + s - dy <= 0)).
  { destruct (Z_lt_le_dec (dx + s - dy - 1) 0) as [Hneg | Hnn].
    - destruct (Z.eq_dec q 0) as [E0 | Hne]; [right; lia | left].
      rewrite Zdigits2_log2 by lia. pose proof (Z.log2_nonneg q). lia.
    - left.
      assert (Hlow : 2 ^ (dx + s - dy - 1) <= q).
      { apply Z.div_le_lower_bound; [lia | ].
        assert (Hb : Zpos my * 2 ^ (dx + s - dy - 1) <= 2 ^ dy * 2 ^ (dx + s - dy - 1)).
        { apply Z.mul_le_mono_nonneg_r; [apply Z.pow_nonneg; lia | lia]. }
        rewrite <- Z.pow_add_r in Hb by lia.
        replace (dy + (dx + s - dy - 1)) with ((dx - 1) + s) in Hb by lia.
        rewrite Z.pow_add_r in Hb by lia.
        assert (2 ^ (dx - 1) * 2 ^ s <= Zpos mx * 2 ^ s)
          by (apply Z.mul_le_mono_nonneg_r; lia).
        lia. }
      assert (Hpos : 0 < q).
      { assert (0 < 2 ^ (dx + s - dy - 1)) by (apply Z.pow_pos_nonneg; lia). lia. }
      rewrite Zdigits2_log2 by lia.
      assert (dx + s - dy - 1 <= Z.log2 q) by (apply Z.log2_le_pow2; lia).
      lia. }
  destruct Hdig as [Hdig | [E0 Hdig]].
  - lia.
  - rewrite E0. cbn [Zdigits2]. lia.
Qed.

Lemma scaled_quotient_eq (mx my ex ey s e' a b : Z) :
  -1074 <= ex -> -1074 <= ey -> 0 <= s -> 0 <= a -> 0 <= b ->
  s = ex - ey - e' -> a - b = e' + 1074 ->
  mx * 2 ^ s * 2 ^ a * (my * 2 ^ (ey + 1074))
  = mx * 2 ^ (ex + 1074) * 2 ^ 1074 * (my * 2 ^ b).
Proof.
  intros Hex Hey Hs Ha Hb Es Eab.
  replace (mx * 2 ^ s * 2 ^ a * (my * 2 ^ (ey + 1074)))
    with (mx * my * 2 ^ (s + a + (ey + 1074)))
    by (rewrite !Z.pow_add_r by lia; ring).
  replace (mx * 2 ^ (ex + 1074) * 2 ^ 1074 * (my * 2 ^ b))
    with (mx * my * 2 ^ (ex + 1074 + 1074 + b))
    by (rewrite !Z.pow_add_r by lia; ring).
  f_equal. f_equal. lia.
Qed.

(** The quotient of a non-negative double by a positive one is the
    rounded quotient. *)
Lemma SFdiv_value (Kx Ly : Z) (x : float) (my : positive) (ey : Z) :
  good Kx x -> 0 <= Zval x -> wf (S754_finite false my ey) ->
  Ly <= Zpos (digits2_pos my) + ey -> -1021 <= Kx - Ly + 1 <= 1023 ->
  good (Kx - Ly + 2) (SFdiv prec emax x (S754_finite false my ey)) /\
  Zval (SFdiv prec emax x (S754_finite false my ey))
  = round_binary64 (Zval x * 2 ^ 1074) (Zval (S754_finite false my ey)).
Proof.
  intros Hx Px Hy HL HK.
  pose proof (SFdiv_small Kx Ly x false my ey (proj2 Hx) HL HK) as Hsmall.
  destruct (wf_exponent false my ey Hy) as [Cy _].
  assert (Hey : -1074 <= ey) by lia. clear Cy.
  assert (Hpy : 0 < 2 ^ (ey + 1074)) by (apply Z.pow_pos_nonneg; lia).
  destruct x as [sx | sx | | sx mx ex]; try (destruct Hx as [[Hf _] _]; discriminate Hf).
  { cbn [SFdiv]. split; [apply good_zero | ].
    cbn [Zval]. rewrite Z.mul_0_l. symmetry. apply round_binary64_zero.
    apply Z.mul_pos_pos; lia. }
  pose proof (Zval_nonneg_sign sx mx ex (proj1 Hx) Px). subst sx.
  destruct (good_exponent Kx false mx ex Hx) as (Cx & _ & _).
  assert (Hex : -1074 <= ex) by lia. clear Cx Hx Px HK HL Hy.
  revert Hsmall. cbn [SFdiv xorb]. unfold SFdiv_core_binary. cbn [Zdigits2].
  set (dx := Zpos (digits2_pos mx)) in *.
  set (dy := Zpos (digits2_pos my)) in *.
  set (e' := Z.min (fexp prec emax (dx + ex - (dy + ey))) (ex - ey)).
  set (s := ex - ey - e').
  assert (Hs' : s = ex - ey - e') by reflexivity.
  assert (Hs : 0 <= s) by (unfold s, e'; lia).
  assert (Hle : e' <= Z.max (dx + s - dy + e' - 53) (-1074)).
  { unfold s, e'. rewrite fexp_eq. lia. }
  assert (He1 : -1074 <= fexp prec emax (Zdigits2 (Zpos mx * 2 ^ s / Zpos my) + e')).
  { rewrite fexp_eq. lia. }
  set (m' := match s with
             | 0 => Zpos mx
             | Zpos _ => Z.shiftl (Zpos mx) s
             | Zneg _ => 0
             end).
  assert (Hm' : m' = Zpos mx * 2 ^ s).
  { unfold m'. destruct s as [ | p | p] eqn:Es.
    - rewrite Z.pow_0_r. lia.
    - apply Z.shiftl_mul_pow2. lia.
    - lia. }
  assert (Hq : fst (Z.div_eucl m' (Zpos my)) = m' / Zpos my) by reflexivity.
  assert (Hr : snd (Z.div_eucl m' (Zpos my)) = m' mod Zpos my) by reflexivity.
  destruct (Z.div_eucl m' (Zpos my)) as [q r]. cbn [fst snd] in Hq, Hr.
  subst q r. rewrite new_location_loc_of by lia. clearbody m'. subst m'.
  clearbody s e'. intros Hsmall.
  assert (Hps : 0 < 2 ^ s) by (apply Z.pow_pos_nonneg; lia).
  pose proof (quotient_normalised mx my s e' Hs Hle) as Hnorm. clear Hle.
  assert (Hn0 : 0 <= Zpos mx * 2 ^ s) by (apply Z.mul_nonneg_nonneg; lia).
  pose proof (binary_round_aux_value false e' (Zpos mx * 2 ^ s) (Zpos my)
                Hn0 ltac:(lia) Hnorm) as Hv.
  cbv zeta in Hv.
  apply value_is_Zval in Hv;
    [ | apply small_finite with (Kx - Ly + 2); exact Hsmall | exact He1].
  destruct Hv as [Hval Hwf]. split; [split; assumption | ].
  rewrite Hval. cbn [signed]. clear Hval Hwf Hsmall.
  pose proof (round_aux_scaled (Zpos mx * 2 ^ s) (Zpos my) e'
                (Z.max 0 (e' + 1074)) (Z.max 0 (- (e' + 1074)))
                Hn0 ltac:(lia) ltac:(lia) ltac:(lia) ltac:(lia) ltac:(lia) Hnorm) as Hsc.
  cbv zeta in Hsc. rewrite Hsc. clear Hsc Hnorm He1.
  assert (Ha : 0 <= Z.max 0 (e' + 1074)) by lia.
  assert (Hb : 0 <= Z.max 0 (- (e' + 1074))) by lia.
  assert (Hab : Z.max 0 (e' + 1074) - Z.max 0 (- (e' + 1074)) = e' + 1074) by lia.
  set (a := Z.max 0 (e' + 1074)) in *. set (b := Z.max 0 (- (e' + 1074))) in *.
  clearbody a b.
  assert (Hpa : 0 < 2 ^ a) by (apply Z.pow_pos_nonneg; lia).
  assert (Hpb : 0 < 2 ^ b) by (apply Z.pow_pos_nonneg; lia).
  assert (Hpx : 0 < 2 ^ (ex + 1074)) by (apply Z.pow_pos_nonneg; lia).
  cbn [Zval].
  apply round_binary64_ext.
  - apply Z.mul_nonneg_nonneg; lia.
  - apply Z.mul_nonneg_nonneg; [apply Z.mul_nonneg_nonneg; lia | apply Z.pow_nonneg; lia].
  - apply Z.mul_pos_pos; lia.
  - apply Z.mul_pos_pos; lia.
  - apply (scaled_quotient_eq (Zpos mx) (Zpos my) ex ey s e' a b); assumption.
Qed.

(** [<] on non-negative doubles in canonical form. *)
Lemma SFltb_value (x y : float) :
  wf x -> wf y -> 0 <= Zval x -> 0 <= Zval y ->
  SFltb x y = (Zval x <? Zval y).
Proof.
  intros Hx Hy Px Py.
  destruct x as [sx | sx | | sx mx ex]; try (destruct Hx as [Hf _]; discriminate Hf);
    destruct y as [sy | sy | | sy my ey]; try (destruct Hy as [Hf _]; discriminate Hf).
  - reflexivity.
  - pose proof (Zval_nonneg_sign sy my ey Hy Py). subst sy.
    destruct (wf_exponent false my ey Hy) as [Cy _].
    assert (0 < 2 ^ (ey + 1074)) by (apply Z.pow_pos_nonneg; lia).
    unfold SFltb. cbn [SFcompare Zval]. symmetry. apply Z.ltb_lt. nia.
  - pose proof (Zval_nonneg_sign sx mx ex Hx Px). subst sx.
    destruct (wf_exponent false mx ex Hx) as [Cx _].
    assert (0 < 2 ^ (ex + 1074)) by (apply Z.pow_pos_nonneg; lia).
    unfold SFltb. cbn [SFcompare Zval]. symmetry. apply Z.ltb_ge. nia.
  - pose proof (Zval_nonneg_sign sx mx ex Hx Px). subst sx.
    pose proof (Zval_nonneg_sign sy my ey Hy Py). subst sy.
    destruct (wf_exponent false mx ex Hx) as [Cx _].
    destruct (wf_exponent false my ey Hy) as [Cy _].
    pose proof (pow2_le_digits mx) as Lx. pose proof (pow2_le_digits my) as Ly.
    pose proof (Zdigits2_pow2_gt (Zpos mx) ltac:(lia)) as Ux.
    pose proof (Zdigits2_pow2_gt (Zpos my) ltac:(lia)) as Uy.
    cbn [Zdigits2] in Ux, Uy.
    pose proof (digits2_pos_pos mx) as D1. pose proof (digits2_pos_pos my) as D2.
    assert (Hpx : 0 < 2 ^ (ex + 1074)) by (apply Z.pow_pos_nonneg; lia).
    assert (Hpy : 0 < 2 ^ (ey + 1074)) by (apply Z.pow_pos_nonneg; lia).
    assert (Hlt : forall m1 e1 m2 e2,
               e1 = Z.max (Zpos (digits2_pos m1) + e1 - 53) (-1074) ->
               e2 = Z.max (Zpos (digits2_pos m2) + e2 - 53) (-1074) ->
               e1 < e2 ->
               Zpos m1 * 2 ^ (e1 + 1074) < Zpos m2 * 2 ^ (e2 + 1074)).
    { intros m1 e1 m2 e2 C1 C2 Hlt.
      pose proof (pow2_le_digits m2) as L2.
      pose proof (Zdigits2_pow2_gt (Zpos m1) ltac:(lia)) as U1. cbn [Zdigits2] in U1.
      assert (Hd2 : Zpos (digits2_pos m2) = 53) by lia.
      assert (Hd1 : Zpos (digits2_pos m1) <= 53) by lia.
      rewrite Hd2 in L2. change (2 ^ (53 - 1)) with (2 ^ 52) in L2.
      assert (U1' : Zpos m1 < 2 ^ 53).
      { apply Z.lt_le_trans with (2 ^ Zpos (digits2_pos m1)); [exact U1 | ].
        apply Z.pow_le_mono_r; lia. }
      assert (P1 : 0 < 2 ^ (e1 + 1074)) by (apply Z.pow_pos_nonneg; lia).
      replace (e2 + 1074) with ((e1 + 1074) + (e2 - e1)) by lia.
      rewrite (Z.pow_add_r 2 (e1 + 1074) (e2 - e1)) by lia.
      assert (P2 : 2 ^ 1 <= 2 ^ (e2 - e1)) by (apply Z.pow_le_mono_r; lia).
      change (2 ^ 1) with 2 in P2.
      set (A := 2 ^ (e1 + 1074)) in *. set (Q := 2 ^ (e2 - e1)) in *.
      assert (S1 : Zpos m1 * A < 2 ^ 53 * A) by (apply Z.mul_lt_mono_pos_r; lia).
      assert (S2 : 2 ^ 53 * A <= Zpos m2 * 2 * A).
      { apply Z.mul_le_mono_nonneg_r; [lia | ].
        change (2 ^ 53) with (2 ^ 52 * 2). lia. }
      assert (S3 : Zpos m2 * 2 * A <= Zpos m2 * (A * Q)).
      { rewrite <- Z.mul_assoc. apply Z.mul_le_mono_nonneg_l; [lia | ].
        rewrite Z.mul_comm. apply Z.mul_le_mono_nonneg_l; lia. }
      lia. }
    unfold SFltb. cbn [SFcompare Zval].
    destruct (Z.compare_spec ex ey) as [E | E | E].
    + subst ey. rewrite Pos.compare_cont_spec. cbn [Pos.switch_Eq].
      destruct (Pos.compare_spec mx my) as [Em | Em | Em]; symmetry.
      * subst. apply Z.ltb_irrefl.
      * apply Z.ltb_lt. apply Z.mul_lt_mono_pos_r; lia.
      * apply Z.ltb_ge. apply Z.mul_le_mono_nonneg_r; lia.
    + symmetry. apply Z.ltb_lt. apply Hlt; assumption.
    + symmetry. apply Z.ltb_ge. apply Z.lt_le_incl. apply Hlt; assumption.
Qed.

Lemma round_int_mono (v1 v2 : Z) : v1 <= v2 -> round_int v1 <= round_int v2.
Proof.
  intros Hle. unfold round_int.
  assert (Hp : 0 < 2 ^ 1074) by reflexivity.
  assert (Hnn : forall v, 0 <= v -> 0 <= round_half_even v (2 ^ 1074)).
  { intros v Hv. apply round_half_even_ge; lia. }
  destruct (Z.ltb_spec v1 0), (Z.ltb_spec v2 0); try lia.
  - apply Z.opp_le_mono. rewrite !Z.opp_involutive.
    apply round_half_even_mono; nia.
  - pose proof (Hnn (- v1) ltac:(lia)). pose proof (Hnn v2 ltac:(lia)). lia.
  - apply round_half_even_mono; nia.
Qed.

Lemma round_int_exact (z : Z) : round_int (z * 2 ^ 1074) = z.
Proof.
  unfold round_int. assert (Hp : 0 < 2 ^ 1074) by reflexivity.
  destruct (Z.ltb_spec (z * 2 ^ 1074) 0).
  - replace (- (z * 2 ^ 1074)) with (- z * 2 ^ 1074) by lia.
    rewrite round_half_even_exact by lia. lia.
  - apply round_half_even_exact. lia.
Qed.

(** [round] of a double, on its value. *)
Lemma round_scaled_value (f : float) : wf f -> round_scaled 1 f = round_int (Zval f).
Proof.
  intros Hwf. destruct f as [s | s | | s m e]; try (destruct Hwf as [Hf _]; discriminate Hf).
  - reflexivity.
  - destruct (wf_exponent s m e Hwf) as [Hc _].
    assert (Hp : 0 < 2 ^ (e + 1074)) by (apply Z.pow_pos_nonneg; lia).
    assert (Hv : round_half_even (Zpos m * 2 ^ (e + 1074)) (2 ^ 1074)
                 = if 0 <=? e then Zpos m * 2 ^ e
                   else round_half_even (Zpos m) (2 ^ (- e))).
    { destruct (Z.leb_spec 0 e).
      - replace (Zpos m * 2 ^ (e + 1074)) with (Zpos m * 2 ^ e * 2 ^ 1074)
          by (rewrite Z.pow_add_r by lia; ring).
        apply round_half_even_exact. reflexivity.
      - replace (2 ^ 1074) with (2 ^ (- e) * 2 ^ (e + 1074))
          by (rewrite <- Z.pow_add_r by lia; f_equal; lia).
        apply round_half_even_scale; [apply Z.pow_pos_nonneg; lia | lia]. }
    cbn [round_scaled Zval]. rewrite Z.mul_1_l. unfold round_int.
    destruct s.
    + destruct (Z.ltb_spec (- (Zpos m * 2 ^ (e + 1074))) 0); [ | lia].
      rewrite Z.opp_involutive, Hv. reflexivity.
    + destruct (Z.ltb_spec (Zpos m * 2 ^ (e + 1074)) 0); [lia | ].
      rewrite Hv. reflexivity.
Qed.

Lemma round_value_mono (v1 v2 : Z) : v1 <= v2 -> round_value v1 <= round_value v2.
Proof.
  intros Hle. unfold round_value.
  destruct (Z.ltb_spec v1 0), (Z.ltb_spec v2 0); try lia.
  - apply Z.opp_le_mono. rewrite !Z.opp_involutive.
    apply round_binary64_mono; lia.
  - pose proof (round_binary64_nonneg (- v1) 1 ltac:(lia) ltac:(lia)).
    pose proof (round_binary64_nonneg v2 1 ltac:(lia) ltac:(lia)). lia.
  - apply round_binary64_mono; lia.
Qed.

End Operations.

(** ** The score as a function of the quantities it depends on *)

Section ScoreValue.

Import PyNum.

Lemma unit_value_pos : 0 < unit_value.
Proof. reflexivity. Qed.

Lemma Zval_sixty : Zval sixty = 60 * unit_value.
Proof. reflexivity. Qed.

Lemma wf_sixty : wf sixty.
Proof. split; reflexivity. Qed.

Lemma round_value_nonneg (v : Z) : 0 <= v -> 0 <= round_value v.
Proof.
  intros Hv. unfold round_value. destruct (Z.ltb_spec v 0); [lia | ].
  apply round_binary64_nonneg; lia.
Qed.

Lemma log2_sign (c : Z) :
  match log2 c with
  | S754_finite true _ _ => False
  | _ => True
  end.
Proof.
  unfold log2. destruct c as [ | p | p]; try exact I.
  repeat (destruct p as [p | p | ]; try exact I).
Qed.

Lemma log2_nonneg (c : Z) : 0 <= Zval (log2 c).
Proof.
  pose proof (log2_sign c) as H.
  destruct (log2 c) as [ | | | [] m e]; cbn [Zval];
    first [lia | contradiction | apply Z.mul_nonneg_nonneg; [lia | apply Z.pow_nonneg; lia]].
Qed.

Lemma bits_value_nonneg (L c : Z) : 0 <= L -> 0 <= bits_value L c.
Proof.
  intros HL. unfold bits_value. destruct (1 <? c); [ | lia].
  apply round_binary64_nonneg; [ | apply unit_value_pos].
  apply Z.mul_nonneg_nonneg; [ | apply log2_nonneg].
  apply round_value_nonneg. pose proof unit_value_pos. nia.
Qed.

Lemma rescaled_value_mono (b1 b2 : Z) :
  0 <= b1 <= b2 -> rescaled_value b1 <= rescaled_value b2.
Proof.
  intros Hb. unfold rescaled_value. rewrite Zval_sixty.
  pose proof unit_value_pos as Hu.
  assert (H60 : 0 < 60 * unit_value) by lia.
  assert (Hq : round_binary64 (b1 * unit_value) (60 * unit_value)
               <= round_binary64 (b2 * unit_value) (60 * unit_value)).
  { apply round_binary64_mono; [nia | lia | lia | ].
    apply Z.mul_le_mono_nonneg_r; [lia | ].
    apply Z.mul_le_mono_nonneg_r; lia. }
  assert (Hq0 : 0 <= round_binary64 (b1 * unit_value) (60 * unit_value)).
  { apply round_binary64_nonneg; [nia | lia]. }
  apply round_binary64_mono; [ | lia | lia | ].
  - apply Z.mul_nonneg_nonneg; lia.
  - apply Z.mul_le_mono_nonneg_r; [lia | ].
    apply Z.mul_le_mono_nonneg_r; lia.
Qed.

Lemma rescaled_value_nonneg (b : Z) : 0 <= b -> 0 <= rescaled_value b.
Proof.
  intros Hb. unfold rescaled_value. rewrite Zval_sixty.
  pose proof unit_value_pos as Hu.
  apply round_binary64_nonneg; [ | lia].
  apply Z.mul_nonneg_nonneg; [ | lia].
  apply round_binary64_nonneg; [nia | lia].
Qed.

Lemma base_value_mono (b1 b2 : Z) :
  0 <= b1 <= b2 -> base_value b1 <= base_value b2.
Proof.
  intros Hb. unfold base_value. pose proof unit_value_pos as Hu.
  destruct (Z.ltb_spec 0 b1), (Z.ltb_spec 0 b2); try lia.
  - pose proof (rescaled_value_mono b1 b2 Hb). lia.
  - pose proof (rescaled_value_nonneg b2 ltac:(lia)). lia.
Qed.

(** The score grows with the base and the bonuses and falls with the
    penalty. *)
Lemma score_value_mono (b1 b2 cb1 cb2 lb1 lb2 pen1 pen2 : Z) :
  base_value b1 <= base_value b2 -> cb1 <= cb2 -> lb1 <= lb2 -> pen2 <= pen1 ->
  Z.max 0 (Z.min 100 (round_int
    (round_value (round_value (round_value (base_value b1 + cb1 * unit_value)
                               + lb1 * unit_value) - pen1 * unit_value))))
  <= Z.max 0 (Z.min 100 (round_int
    (round_value (round_value (round_value (base_value b2 + cb2 * unit_value)
                               + lb2 * unit_value) - pen2 * unit_value)))).
Proof.
  intros Hb Hcb Hlb Hpen. pose proof unit_value_pos as Hu.
  assert (H1 : round_value (base_value b1 + cb1 * unit_value)
               <= round_value (base_value b2 + cb2 * unit_value)).
  { apply round_value_mono.
    assert (cb1 * unit_value <= cb2 * unit_value)
      by (apply Z.mul_le_mono_nonneg_r; lia). lia. }
  set (v1 := round_value (base_value b1 + cb1 * unit_value)) in *.
  set (v2 := round_value (base_value b2 + cb2 * unit_value)) in *.
  assert (H2 : round_value (v1 + lb1 * unit_value) <= round_value (v2 + lb2 * unit_value)).
  { apply round_value_mono.
    assert (lb1 * unit_value <= lb2 * unit_value)
      by (apply Z.mul_le_mono_nonneg_r; lia). lia. }
  set (w1 := round_value (v1 + lb1 * unit_value)) in *.
  set (w2 := round_value (v2 + lb2 * unit_value)) in *.
  assert (H3 : round_value (w1 - pen1 * unit_value) <= round_value (w2 - pen2 * unit_value)).
  { apply round_value_mono.
    assert (pen2 * unit_value <= pen1 * unit_value)
      by (apply Z.mul_le_mono_nonneg_r; lia). lia. }
  apply round_int_mono in H3. lia.
Qed.

End ScoreValue.

(** ** The numeric pipeline: no exception, and the value of each step *)

Section Pipeline.

Context {U : Unicode}.

Import PyNum.

Local Open Scope string_scope.
Local Open Scope Z_scope.

Lemma len_nonneg (s : str) : 0 <= len s.
Proof. unfold len. lia. Qed.

(** The alphabet sizes [charset_size] can return. *)
Lemma charset_size_values (s : str) :
  In (charset_size s) [1; 26; 52; 10; 36; 62; 32; 58; 84; 42; 68; 94].
Proof.
  unfold charset_size.
  destruct (re_search class_lower s), (re_search class_upper s),
    (re_search class_digit s), (re_search class_symbol s);
    vm_compute; tauto.
Qed.

Lemma float_of_int_60 : float_of_int 60 = Ok sixty.
Proof. reflexivity. Qed.

Lemma float_of_int_0 : float_of_int 0 = Ok (S754_zero false).
Proof. reflexivity. Qed.

Lemma log2_good (s : str) :
  1 < charset_size s -> good 3 (log2 (charset_size s)).
Proof.
  intros Hc. pose proof (charset_size_values s) as Hin.
  cbn [In] in Hin.
  repeat (destruct Hin as [E | Hin];
          [rewrite <- E in *;
           first [exfalso; lia
                 | split; [split; reflexivity | vm_compute; intros; discriminate]] | ]).
  contradiction.
Qed.

Lemma entropy_bits_value (s : str) :
  len s <= PY_SSIZE_T_MAX ->
  exists f, entropy_bits s = Ok (Float f) /\ good 68 f /\
            Zval f = bits_value (len s) (charset_size s).
Proof.
  intros Hlen. unfold entropy_bits, bits_value.
  pose proof (len_nonneg s) as Hl.
  destruct (1 <? charset_size s) eqn:Ec.
  - apply Z.ltb_lt in Ec.
    destruct (float_of_int_value (len s)) as (x & Hx & Gx & Vx).
    { unfold PY_SSIZE_T_MAX in Hlen. lia. }
    cbn [mul to_float]. rewrite Hx. cbn [bind].
    assert (Px : 0 <= Zval x).
    { rewrite Vx. apply round_value_nonneg. pose proof unit_value_pos.
      unfold unit_value in *. nia. }
    destruct (SFmul_value 64 3 x (log2 (charset_size s)) Gx (log2_good s Ec) Px
                (log2_nonneg _) ltac:(lia)) as [Gm Vm].
    eexists. split; [reflexivity | ]. split; [exact Gm | ].
    rewrite Vm, Vx. reflexivity.
  - exists (S754_zero false). split; [reflexivity | ].
    split; [apply good_zero | reflexivity].
Qed.

Lemma good_sixty : good 6 sixty.
Proof. split; [exact wf_sixty | vm_compute; discriminate]. Qed.

Lemma wf_zero (s : bool) : wf (S754_zero s).
Proof. split; reflexivity. Qed.

Lemma base_value_ok (f : float) :
  good 68 f -> 0 <= Zval f ->
  exists positive base,
    gt (Float f) (Int 0) = Ok positive /\
    (if positive : bool
     then q <- truediv (Float f) (Int 60) ;;
          x <- mul q (Int 60) ;;
          min (Int 60) x
     else Ok (Int 0)) = Ok base /\
    ok_num 60 71 base /\ nval base = base_value (Zval f).
Proof.
  intros Gf Pf. unfold gt. cbn [lt to_float]. rewrite float_of_int_0. cbn [bind].
  rewrite (SFltb_value (S754_zero false) f (wf_zero false) (proj1 Gf)
             (Z.le_refl 0) Pf).
  change (Zval (S754_zero false)) with 0. unfold base_value.
  destruct (0 <? Zval f) eqn:Epos; eexists.
  - unfold truediv. cbn [to_float bind]. rewrite float_of_int_60. cbn [bind].
    cbn [is_zero sixty]. cbn [mul to_float bind]. rewrite float_of_int_60.
    cbn [bind]. unfold min. cbn [lt to_float bind]. rewrite float_of_int_60.
    cbn [bind].
    destruct (SFdiv_value 68 6 f 8444249301319680 (-47) Gf Pf wf_sixty
                ltac:(vm_compute; discriminate) ltac:(lia)) as [Gq Vq].
    fold sixty in Gq, Vq.
    assert (Pq : 0 <= Zval (SFdiv prec emax f sixty)).
    { rewrite Vq. apply round_binary64_nonneg; [ | reflexivity].
      apply Z.mul_nonneg_nonneg; [exact Pf | apply Z.pow_nonneg; lia]. }
    replace (68 - 6 + 2) with 64 in Gq by lia.
    destruct (SFmul_value 64 6 _ sixty Gq good_sixty Pq
                ltac:(vm_compute; discriminate) ltac:(lia)) as [Gx Vx].
    replace (64 + 6 + 1) with 71 in Gx by lia.
    assert (Px : 0 <= Zval (SFmul prec emax (SFdiv prec emax f sixty) sixty)).
    { rewrite Vx. apply round_binary64_nonneg; [ | reflexivity].
      apply Z.mul_nonneg_nonneg; [exact Pq | vm_compute; discriminate]. }
    rewrite (SFltb_value _ sixty (proj1 Gx) wf_sixty Px ltac:(vm_compute; discriminate)).
    assert (Hres : Zval (SFmul prec emax (SFdiv prec emax f sixty) sixty)
                   = rescaled_value (Zval f)).
    { rewrite Vx, Vq. reflexivity. }
    rewrite Hres, Zval_sixty.
    eexists. split; [reflexivity | split; [reflexivity | ]].
    destruct (Z.ltb_spec (rescaled_value (Zval f)) (60 * unit_value)).
    + split; [exact Gx | ]. cbn [nval]. rewrite Hres. lia.
    + split; [cbn [ok_num]; lia | ]. cbn [nval]. lia.
  - eexists. split; [reflexivity | split; [reflexivity | ]].
    split; [cbn [ok_num]; lia | reflexivity].
Qed.

Lemma float_of_small_int (z : Z) :
  Z.abs z < 2 ^ 53 ->
  exists f, float_of_int z = Ok f /\ good 64 f /\ Zval f = z * unit_value.
Proof.
  intros Hz. destruct (float_of_int_value z) as (f & Hf & Gf & Vf).
  { assert (2 ^ 53 < 2 ^ 63) by reflexivity. lia. }
  exists f. split; [exact Hf | split; [exact Gf | ]].
  rewrite Vf. apply round_value_int. exact Hz.
Qed.

Lemma add_int_value (B K : Z) (a : num) (z B' : Z) :
  ok_num B K a -> Z.abs z <= B' -> B + B' < 2 ^ 53 -> 0 <= B -> 64 <= K <= 971 ->
  exists c, add a (Int z) = Ok c /\ ok_num (B + B') (K + 2) c /\
            nval c = round_value (nval a + z * unit_value).
Proof.
  intros Ha Hz HB HB0 HK. destruct a as [x | f]; cbn [ok_num] in Ha.
  - exists (Int (x + z)). split; [reflexivity | ]. split; [cbn [ok_num]; lia | ].
    cbn [nval]. rewrite <- Z.mul_add_distr_r. symmetry.
    apply round_value_int. lia.
  - destruct (float_of_small_int z) as (y & Hy & Gy & Vy); [lia | ].
    cbn [add to_float bind]. rewrite Hy. cbn [bind].
    destruct (SFadd_value K f y Ha (good_weaken 64 K y ltac:(lia) Gy) ltac:(lia))
      as [Gs Vs].
    eexists. split; [reflexivity | ]. split; [exact Gs | ].
    cbn [nval]. rewrite Vs, Vy. reflexivity.
Qed.

Lemma sub_int_value (B K : Z) (a : num) (z B' : Z) :
  ok_num B K a -> Z.abs z <= B' -> B + B' < 2 ^ 53 -> 0 <= B -> 64 <= K <= 971 ->
  exists c, sub a (Int z) = Ok c /\ ok_num (B + B') (K + 2) c /\
            nval c = round_value (nval a - z * unit_value).
Proof.
  intros Ha Hz HB HB0 HK. destruct a as [x | f]; cbn [ok_num] in Ha.
  - exists (Int (x - z)). split; [reflexivity | ]. split; [cbn [ok_num]; lia | ].
    cbn [nval]. rewrite <- Z.mul_sub_distr_r. symmetry.
    apply round_value_int. lia.
  - destruct (float_of_small_int z) as (y & Hy & Gy & Vy); [lia | ].
    cbn [sub to_float bind]. rewrite Hy. cbn [bind].
    destruct (SFsub_value K f y Ha (good_weaken 64 K y ltac:(lia) Gy) ltac:(lia))
      as [Gs Vs].
    eexists. split; [reflexivity | ]. split; [exact Gs | ].
    cbn [nval]. rewrite Vs, Vy. reflexivity.
Qed.

Lemma round_num_value (B K : Z) (a : num) :
  ok_num B K a -> round a = Ok (round_int (nval a)).
Proof.
  destruct a as [x | f]; cbn [ok_num nval].
  - intros _. cbn [round]. unfold unit_value. rewrite round_int_exact. reflexivity.
  - intros [Hwf _]. rewrite <- (round_scaled_value f Hwf).
    destruct f as [s | s | | s m e]; try (destruct Hwf as [Hf _]; discriminate Hf);
      reflexivity.
Qed.

Lemma class_bonus_unfold (password : str) :
  Z.max
    ((0 + (if re_search class_lower password then 1 else 0)
      + (if re_search class_upper password then 1 else 0)
      + (if re_search class_digit password then 1 else 0)
      + (if re_search class_symbol password then 1 else 0) - 1) * 5) 0
  = formula_class_bonus password.
Proof.
  unfold formula_class_bonus, class_count. cbn [filter].
  generalize (re_search class_lower password), (re_search class_upper password),
    (re_search class_digit password), (re_search class_symbol password).
  intros [] [] [] []; reflexivity.
Qed.

Lemma penalty_unfold (password : str) :
  (let penalty := 0 in
   let penalty :=
     if in_set (lower password) COMMON_PASSWORDS then penalty + 40 else penalty in
   let penalty :=
     if len password <? 8 then penalty + (8 - len password) * 3 else penalty in
   let penalty := if has_long_repeat password 4 then penalty + 15 else penalty in
   let penalty := if has_sequence password 4 then penalty + 20 else penalty in
   if charset_size password <=? 26 then penalty + 10 else penalty)
  = formula_penalty password.
Proof.
  unfold formula_penalty, triggered, penalty_rules.
  generalize (in_set (lower password) COMMON_PASSWORDS), (len password <? 8),
    (has_long_repeat password 4), (has_sequence password 4),
    (charset_size password <=? 26).
  intros [] [] [] [] []; cbn [filter map fold_right fst snd]; lia.
Qed.

(** The score of a string, as a value. *)
Lemma assess_str_score (s : str) :
  len s <= PY_SSIZE_T_MAX ->
  exists r,
    assess_str s = Ok r /\
    r_score r = score_value (len s) (charset_size s) (formula_class_bonus s)
                  (formula_length_bonus s) (formula_penalty s).
Proof.
  intros Hlen. unfold assess_str, score_value.
  destruct (entropy_bits_value s Hlen) as (f & Hbits & Gf & Vf).
  rewrite Hbits. cbn [bind].
  pose proof (len_nonneg s) as Hl.
  assert (Pf : 0 <= Zval f) by (rewrite Vf; apply bits_value_nonneg; exact Hl).
  destruct (base_value_ok f Gf Pf) as (positive & base & Hgt & Hbase & Bb & Vb).
  rewrite Hgt. cbn [bind]. rewrite Hbase. cbn [bind]. cbv zeta.
  rewrite class_bonus_unfold.
  change (if 16 <=? len s then 15 else if 12 <=? len s then 10
          else if 8 <=? len s then 5 else 0) with (formula_length_bonus s).
  match goal with
  | |- context [sub _ (Int ?z)] =>
      replace z with (formula_penalty s) by (symmetry; exact (penalty_unfold s))
  end.
  assert (Hcb : Z.abs (formula_class_bonus s) <= 15).
  { rewrite <- class_bonus_unfold. if_cases; cbn; lia. }
  assert (Hlb : Z.abs (formula_length_bonus s) <= 15).
  { unfold formula_length_bonus. if_cases; lia. }
  assert (Hpen : Z.abs (formula_penalty s) <= 109).
  { rewrite <- (penalty_unfold s). cbv zeta.
    destruct (len s <? 8) eqn:E8; [apply Z.ltb_lt in E8 | ]; if_cases; lia. }
  assert (H53 : 2 ^ 53 = 9007199254740992) by reflexivity.
  destruct (add_int_value 60 71 base (formula_class_bonus s) 15 Bb Hcb)
    as (c1 & H1 & B1 & V1); try lia.
  rewrite H1. cbn [bind].
  destruct (add_int_value _ _ c1 (formula_length_bonus s) 15 B1 Hlb)
    as (c2 & H2 & B2 & V2); try lia.
  rewrite H2. cbn [bind].
  destruct (sub_int_value _ _ c2 (formula_penalty s) 109 B2 Hpen)
    as (c3 & H3 & B3 & V3); try lia.
  rewrite H3. cbn [bind].
  rewrite (round_num_value _ _ c3 B3). cbn [bind].
  eexists. split; [reflexivity | ].
  unfold r_score. rewrite V3, V2, V1, Vb, Vf. reflexivity.
Qed.

(** Every string within the length a CPython string can have is
    assessed without an exception. *)
Lemma assess_str_total (s : str) :
  len s <= PY_SSIZE_T_MAX -> exists r, assess_str s = Ok r.
Proof.
  intros Hlen. destruct (assess_str_score s Hlen) as (r & Hr & _).
  exists r. exact Hr.
Qed.

End Pipeline.

(** ** Range, labels and errors *)

Section Assessment.

Context {U : Unicode}.

Local Open Scope string_scope.
Local Open Scope Z_scope.

Lemma score_clamped (s : str) (r : assessment) :
  assess_str s = Ok r -> 0 <= r_score r <= 100.
Proof. intros H. assess_inv H. cbn [r_score]. lia. Qed.

Lemma label_in_band (s : str) (r : assessment) :
  assess_str s = Ok r -> band (r_score r) (r_label r).
Proof.
  intros H. assess_inv H. cbn [r_score r_label].
  set (z := Z.max 0 (Z.min 100 _)). clearbody z.
  destruct (Z.ltb_spec z 20); [constructor; lia | ].
  destruct (Z.ltb_spec z 40); [constructor; lia | ].
  destruct (Z.ltb_spec z 60); [constructor; lia | ].
  destruct (Z.ltb_spec z 80); constructor; lia.
Qed.

Lemma band_functional (z : Z) (l1 l2 : string) :
  band z l1 -> band z l2 -> l1 = l2.
Proof. intros H1 H2. inversion H1; inversion H2; subst; (reflexivity || lia). Qed.

Lemma band_total (z : Z) : exists l, band z l.
Proof.
  destruct (Z_lt_dec z 20); [eexists; apply band_very_weak; lia | ].
  destruct (Z_lt_dec z 40); [eexists; apply band_weak; lia | ].
  destruct (Z_lt_dec z 60); [eexists; apply band_fair; lia | ].
  destruct (Z_lt_dec z 80); [eexists; apply band_strong; lia | ].
  eexists; apply band_very_strong; lia.
Qed.

(** C1: every string receives a score, an integer between 0 and 100. *)
Theorem score_in_range (s : str) :
  len s <= PY_SSIZE_T_MAX ->
  exists r, assess_password (VStr s) = Ok r /\ 0 <= r_score r <= 100.
Proof.
  intros Hlen. destruct (assess_str_total s Hlen) as [r Hr].
  exists r. split; [exact Hr | exact (score_clamped s r Hr)].
Qed.

(** C5: the bands cover every score and do not overlap, and the label of
    every assessment is the band of its score. *)
Theorem label_is_band_of_score (s : str) :
  len s <= PY_SSIZE_T_MAX ->
  (exists r, assess_password (VStr s) = Ok r /\ band (r_score r) (r_label r)) /\
  (forall z, exists l, band z l) /\
  (forall z l1 l2, band z l1 -> band z l2 -> l1 = l2).
Proof.
  intros Hlen. split; [ | split; [exact band_total | exact band_functional]].
  destruct (assess_str_total s Hlen) as [r Hr].
  exists r. split; [exact Hr | exact (label_in_band s r Hr)].
Qed.

(** C6: a value that is not a string raises [TypeError]; a string is
    assessed without an exception; no other exception leaves the function. *)
Theorem only_type_error (v : value) :
  wf_value v ->
  (is_str v = false -> assess_password v = Raise TypeError) /\
  (is_str v = true -> exists r, assess_password v = Ok r) /\
  (forall e, assess_password v = Raise e -> e = TypeError /\ is_str v = false).
Proof.
  intros Hwf. destruct v; cbn [is_str assess_password wf_value] in *;
    try (split; [reflexivity | split; [discriminate | ]];
         intros e He; injection He as <-; split; reflexivity).
  destruct (assess_str_total s Hwf) as [r Hr].
  split; [discriminate | split; [eauto | ]].
  intros e He. rewrite Hr in He. discriminate.
Qed.

(** C3 (amended): a score of exactly 20 is labelled "Weak" and a score of
    exactly 80 is labelled "Very strong". *)
Theorem boundary_labels (v : value) (r : assessment) :
  assess_password v = Ok r ->
  (r_score r = 20 -> r_label r = "Weak") /\
  (r_score r = 80 -> r_label r = "Very strong").
Proof.
  intros H. destruct v; cbn [assess_password] in H; try discriminate.
  pose proof (label_in_band s r H) as Hb.
  split; intros Hs; rewrite Hs in Hb; inversion Hb; subst; (reflexivity || lia).
Qed.

(** C4 (amended): the empty string is assessed without an exception; its
    score is 0, the too-short reason is recorded, the total penalty is 34
    (24 for the length and 10 for the variety), the alphabet size is 1 and
    the entropy is 0.0. *)
Theorem assess_empty :
  exists r,
    assess_password (VStr (str_of "")) = Ok r /\
    r_score r = 0 /\
    r_label r = "Very weak" /\
    d_reasons_for_penalty (r_details r) =
      ["Too short (recommend >= 12 chars)"; "Limited character variety"] /\
    d_penalty (r_details r) = 34 /\
    d_charset_size (r_details r) = 1 /\
    d_entropy_bits (r_details r) = PyNum.Float (S754_zero false).
Proof. eexists. split; [reflexivity | repeat split]. Qed.

End Assessment.

Lemma score_in_range_witness :
  len (str_of "Tr0ub4dor&3") <= PY_SSIZE_T_MAX /\
  exists r, @assess_password ascii_only (VStr (str_of "Tr0ub4dor&3")) = Ok r /\
            0 <= r_score r <= 100.
Proof.
  split; [vm_compute; discriminate | ].
  apply (@score_in_range ascii_only). vm_compute; discriminate.
Defined.

Lemma label_is_band_of_score_witness :
  len (str_of "correct horse") <= PY_SSIZE_T_MAX /\
  exists r, @assess_password ascii_only (VStr (str_of "correct horse")) = Ok r /\
            band (r_score r) (r_label r).
Proof.
  split; [vm_compute; discriminate | ].
  apply (@label_is_band_of_score ascii_only). vm_compute; discriminate.
Defined.

Lemma only_type_error_witness :
  wf_value (VStr (str_of "hunter2")) /\
  exists r, @assess_password ascii_only (VStr (str_of "hunter2")) = Ok r.
Proof.
  assert (Hwf : wf_value (VStr (str_of "hunter2"))) by (vm_compute; discriminate).
  split; [exact Hwf | ].
  apply (@only_type_error ascii_only (VStr (str_of "hunter2")) Hwf). reflexivity.
Defined.

(** C3, as stated, fails: this password scores exactly 20 and is not "Fair". *)
Lemma score_20_is_not_fair :
  exists r, @assess_password ascii_only (VStr (str_of "zxcvbnm")) = Ok r /\
            r_score r = 20 /\ r_label r <> "Fair".
Proof. eexists. split; [vm_compute; reflexivity | split; [reflexivity | discriminate]]. Qed.

Lemma boundary_labels_witness :
  exists r, @assess_password ascii_only (VStr (str_of "zxcvbnm")) = Ok r /\
            r_score r = 20 /\ r_label r = "Weak".
Proof.
  eexists. split; [vm_compute; reflexivity | ]. split; [reflexivity | ].
  eapply (@boundary_labels ascii_only (VStr (str_of "zxcvbnm"))).
  - vm_compute; reflexivity.
  - reflexivity.
Defined.

(** C4, as stated, fails: the recorded penalty of the empty string is not 24. *)
Lemma empty_penalty_is_not_24 :
  exists r, @assess_password ascii_only (VStr (str_of "")) = Ok r /\
            d_penalty (r_details r) <> 24.
Proof. eexists. split; [reflexivity | discriminate]. Qed.

(** ** The detectors *)

Section Detectors.

Context {U : Unicode}.

Lemma has_sequence_loop_existsb (s : str) (n : nat) :
  forall todo i,
    has_sequence_loop s n i todo
    = existsb (fun j => window_hit (slice s j (j + n))) (seq i todo).
Proof.
  induction todo as [ | todo IH]; intros i; [reflexivity | ].
  cbn [has_sequence_loop seq existsb]. unfold window_hit at 1.
  rewrite IH.
  destruct (match_alnum false (slice s i (i + n))); cbn [negb andb orb]; [ | reflexivity].
  destruct (forallb (fun d => d =? 1) (diffs_of (slice s i (i + n)))
            || forallb (fun d => d =? -1) (diffs_of (slice s i (i + n))));
    reflexivity.
Qed.

Lemma class_alnum_range (c : Z) :
  class_alnum c = true <-> (97 <= c <= 122 \/ 48 <= c <= 57).
Proof. unfold class_alnum, in_range. lia. Qed.

Lemma window_hit_four (a b c d : Z) :
  window_hit [a; b; c; d] = true <-> sequence_window a b c d.
Proof.
  unfold window_hit, sequence_window.
  cbn [match_alnum diffs_of forallb].
  rewrite !class_alnum_range.
  destruct (class_alnum a) eqn:Ea, (class_alnum b) eqn:Eb,
    (class_alnum c) eqn:Ec, (class_alnum d) eqn:Ed;
    cbn [andb orb]; unfold class_alnum, in_range in Ea, Eb, Ec, Ed;
    unfold NEWLINE; lia.
Qed.

Lemma slice_window (pre post : str) (a b c d : Z) :
  slice (pre ++ a :: b :: c :: d :: post)%list (List.length pre) (List.length pre + 4)
  = [a; b; c; d].
Proof.
  unfold slice.
  replace (List.length pre + 4 - List.length pre)%nat with 4%nat by lia.
  rewrite skipn_app, skipn_all, Nat.sub_diag. reflexivity.
Qed.

Lemma window_at (s : str) (j : nat) :
  (j + 4 <= List.length s)%nat ->
  exists pre a b c d post,
    s = (pre ++ a :: b :: c :: d :: post)%list /\ List.length pre = j.
Proof.
  intros Hj. exists (firstn j s).
  pose proof (firstn_skipn j s) as Hsplit.
  pose proof (length_skipn j s) as Hlen.
  destruct (skipn j s) as [ | a [ | b [ | c [ | d post]]]];
    cbn [List.length] in Hlen; try lia.
  exists a, b, c, d, post. split; [symmetry; exact Hsplit | ].
  apply firstn_length_le. lia.
Qed.

Lemma has_sequence_loop_iff (s : str) :
  has_sequence_loop s 4 0 (Z.to_nat (len s - Z.of_nat 4 + 1)) = true
  <-> has_sequence_window s.
Proof.
  rewrite has_sequence_loop_existsb, existsb_exists. unfold len. split.
  - intros (j & Hin & Hhit). apply in_seq in Hin.
    destruct (window_at s j) as (pre & a & b & c & d & post & Hs & Hpre); [lia | ].
    exists pre, a, b, c, d, post. split; [exact Hs | ].
    apply window_hit_four. subst s j. rewrite slice_window in Hhit. exact Hhit.
  - intros (pre & a & b & c & d & post & Hs & Hw).
    exists (List.length pre). split.
    + apply in_seq. rewrite Hs, length_app. cbn [List.length]. lia.
    + rewrite Hs, slice_window. apply window_hit_four. exact Hw.
Qed.

(** C7: with a window of four, [has_sequence] holds exactly when some
    window of four characters of the lowered password lies in [a-z0-9]
    and steps by +1 throughout or by -1 throughout; the four documented
    examples evaluate as stated. *)
Theorem has_sequence_spec :
  (forall password,
      has_sequence password 4 = true <-> has_sequence_window (lower password)) /\
  has_sequence (str_of "1234") 4 = true /\
  has_sequence (str_of "1235") 4 = false /\
  has_sequence (str_of "dcba") 4 = true /\
  has_sequence (str_of "ab1!") 4 = false.
Proof.
  split; [ | repeat split; reflexivity].
  intros password. unfold has_sequence. cbv zeta. apply has_sequence_loop_iff.
Qed.

(** The repeat pattern at the head of [s]. *)
Lemma run_length_three (c : Z) (s : str) :
  (3 <= run_length c s)%nat <-> exists post, s = c :: c :: c :: post.
Proof.
  split.
  - destruct s as [ | x [ | y [ | z post]]]; cbn [run_length];
      repeat match goal with
        | |- context [?u =? c] => destruct (Z.eqb_spec u c); subst
        end; cbn [run_length]; try lia.
    intros _. eexists; reflexivity.
  - intros (post & ->). cbn [run_length]. rewrite !Z.eqb_refl. lia.
Qed.

(** What [has_long_repeat] with threshold 4 decides: a run of four of a
    character other than the newline. *)
Lemma has_long_repeat_iff (password : str) :
  has_long_repeat password 4 = true <->
  exists pre c post,
    c <> NEWLINE /\ password = (pre ++ c :: c :: c :: c :: post)%list.
Proof.
  unfold has_long_repeat. change (4 - 1)%nat with 3%nat.
  induction password as [ | x rest IH]; cbn [search_repeat].
  - split; [discriminate | ].
    intros (pre & c & post & _ & H). destruct pre; discriminate.
  - rewrite orb_true_iff, IH. unfold match_repeat, class_dot.
    rewrite andb_true_iff, negb_true_iff, Z.eqb_neq, Nat.leb_le, run_length_three.
    split.
    + intros [(Hx & post & ->) | (pre & c & post & Hc & ->)].
      * exists [], x, post. split; [exact Hx | reflexivity].
      * exists (x :: pre), c, post. split; [exact Hc | reflexivity].
    + intros (pre & c & post & Hc & Heq). destruct pre as [ | y pre].
      * injection Heq as -> ->. left. split; [exact Hc | eauto].
      * injection Heq as -> ->. right. eauto 6.
Qed.

(** C8: four newlines in a row are a run of four of one character, and
    the detector does not report them; the documented examples hold. *)
Theorem has_long_repeat_misses_newlines :
  has_run_of_four [NEWLINE; NEWLINE; NEWLINE; NEWLINE] /\
  has_long_repeat [NEWLINE; NEWLINE; NEWLINE; NEWLINE] 4 = false /\
  has_long_repeat (str_of "aaaa") 4 = true /\
  has_long_repeat (str_of "aaa") 4 = false.
Proof.
  split; [ | repeat split; reflexivity].
  exists [], NEWLINE, []. reflexivity.
Qed.

End Detectors.

(** ** The scoring formula *)

Section FormulaFacts.

Context {U : Unicode}.

Import PyNum.

Local Open Scope string_scope.
Local Open Scope Z_scope.

Lemma clamp_max_min (z : Z) : clamp z 0 100 = Z.max 0 (Z.min 100 z).
Proof. unfold clamp. destruct (Z.ltb_spec z 0), (Z.ltb_spec 100 z); lia. Qed.

(** C2: the score is the documented formula, and the recorded penalty and
    reasons are those of the triggered penalties, in order. *)
Theorem score_formula (password : str) :
  len password <= PY_SSIZE_T_MAX ->
  exists r,
    assess_password (VStr password) = Ok r /\
    formula_score password = Ok (r_score r) /\
    d_penalty (r_details r) = formula_penalty password /\
    d_reasons_for_penalty (r_details r) = formula_reasons password.
Proof.
  intros Hlen. destruct (assess_str_total password Hlen) as [r Hr].
  exists r. split; [exact Hr | ].
  assess_inv Hr. unfold r_score, r_details, d_penalty, d_reasons_for_penalty.
  cbv beta iota. split; [ | split].
  - unfold formula_score, formula_base. rewrite E. cbn [bind].
    rewrite E0. cbn [bind]. rewrite E1. cbn [bind].
    match type of E2 with
    | add _ (Int ?z) = _ =>
        replace (formula_class_bonus password) with z
          by (unfold formula_class_bonus, class_count; cbn [filter];
              if_cases; reflexivity)
    end.
    rewrite E2. cbn [bind]. unfold formula_length_bonus.
    rewrite E3. cbn [bind].
    match type of E4 with
    | sub _ (Int ?z) = _ =>
        replace (formula_penalty password) with z
          by (exact (penalty_unfold password))
    end.
    rewrite E4. cbn [bind]. rewrite E5. cbn [bind].
    rewrite clamp_max_min. reflexivity.
  - exact (penalty_unfold password).
  - unfold formula_reasons, triggered, penalty_rules.
    generalize (in_set (lower password) COMMON_PASSWORDS), (len password <? 8),
      (has_long_repeat password 4), (has_sequence password 4),
      (charset_size password <=? 26).
    intros [] [] [] [] []; reflexivity.
Qed.

Lemma symbol_not_other (c : Z) :
  class_symbol c = true ->
  class_lower c = false /\ class_upper c = false /\ class_digit c = false.
Proof.
  unfold class_symbol. rewrite existsb_exists.
  intros (x & Hin & Hx). apply Z.eqb_eq in Hx. subst x.
  vm_compute in Hin.
  repeat (destruct Hin as [<- | Hin]; [repeat split; reflexivity | ]).
  contradiction.
Qed.

Lemma re_search_none (cls : Z -> bool) (s : str) :
  (forall c, In c s -> cls c = false) -> re_search cls s = false.
Proof.
  intros H. unfold re_search.
  induction s as [ | c rest IH]; [reflexivity | ].
  cbn [existsb]. rewrite (H c (or_introl eq_refl)). apply IH.
  intros x Hx. apply H. right. exact Hx.
Qed.

(** What a password of symbols only shows to the four class tests. *)
Lemma symbols_only_classes (password : str) :
  password <> [] ->
  (forall c, In c password -> class_symbol c = true) ->
  re_search class_lower password = false /\
  re_search class_upper password = false /\
  re_search class_digit password = false /\
  re_search class_symbol password = true.
Proof.
  intros Hne Hsym.
  split; [ | split; [ | split]];
    try (apply re_search_none; intros c Hc;
         apply (symbol_not_other c (Hsym c Hc))).
  destruct password as [ | c rest]; [contradiction | ].
  unfold re_search. cbn [existsb]. rewrite (Hsym c (or_introl eq_refl)).
  reflexivity.
Qed.

End FormulaFacts.

Lemma score_formula_witness :
  len (str_of "Tr0ub4dor&3") <= PY_SSIZE_T_MAX /\
  exists r,
    @assess_password ascii_only (VStr (str_of "Tr0ub4dor&3")) = Ok r /\
    @formula_score ascii_only (str_of "Tr0ub4dor&3") = Ok (r_score r) /\
    d_penalty (r_details r) = @formula_penalty ascii_only (str_of "Tr0ub4dor&3") /\
    d_reasons_for_penalty (r_details r)
    = @formula_reasons ascii_only (str_of "Tr0ub4dor&3").
Proof.
  split; [vm_compute; discriminate | ].
  apply (@score_formula ascii_only). vm_compute; discriminate.
Defined.

(** ** Appending characters *)

Section Append.

Context {U : Unicode}.

Import PyNum.

Local Open Scope string_scope.
Local Open Scope Z_scope.

Lemma re_search_app (cls : Z -> bool) (p ext : str) :
  re_search cls p = true -> re_search cls (p ++ ext)%list = true.
Proof.
  unfold re_search. intros H. rewrite existsb_app, H. reflexivity.
Qed.

Lemma len_app (p ext : str) : len p <= len (p ++ ext)%list.
Proof. unfold len. rewrite length_app. lia. Qed.

Lemma charset_size_app (p ext : str) :
  charset_size p <= charset_size (p ++ ext)%list.
Proof.
  unfold charset_size.
  pose proof (re_search_app class_lower p ext) as Hl.
  pose proof (re_search_app class_upper p ext) as Hu.
  pose proof (re_search_app class_digit p ext) as Hd.
  pose proof (re_search_app class_symbol p ext) as Hs.
  destruct (re_search class_lower p), (re_search class_upper p),
    (re_search class_digit p), (re_search class_symbol p);
    try rewrite (Hl eq_refl); try rewrite (Hu eq_refl);
    try rewrite (Hd eq_refl); try rewrite (Hs eq_refl);
    if_cases; lia.
Qed.

Lemma class_bonus_app (p ext : str) :
  formula_class_bonus p <= formula_class_bonus (p ++ ext)%list.
Proof.
  rewrite <- !class_bonus_unfold.
  pose proof (re_search_app class_lower p ext) as Hl.
  pose proof (re_search_app class_upper p ext) as Hu.
  pose proof (re_search_app class_digit p ext) as Hd.
  pose proof (re_search_app class_symbol p ext) as Hs.
  destruct (re_search class_lower p), (re_search class_upper p),
    (re_search class_digit p), (re_search class_symbol p);
    try rewrite (Hl eq_refl); try rewrite (Hu eq_refl);
    try rewrite (Hd eq_refl); try rewrite (Hs eq_refl);
    if_cases; lia.
Qed.

Lemma length_bonus_app (p ext : str) :
  formula_length_bonus p <= formula_length_bonus (p ++ ext)%list.
Proof.
  unfold formula_length_bonus. pose proof (len_app p ext) as Hlen.
  destruct (Z.leb_spec 16 (len p)), (Z.leb_spec 12 (len p)), (Z.leb_spec 8 (len p)),
    (Z.leb_spec 16 (len (p ++ ext)%list)), (Z.leb_spec 12 (len (p ++ ext)%list)),
    (Z.leb_spec 8 (len (p ++ ext)%list)); lia.
Qed.

Lemma formula_penalty_sum (s : str) :
  formula_penalty s
  = (if in_set (lower s) COMMON_PASSWORDS then 40 else 0)
    + (if len s <? 8 then (8 - len s) * 3 else 0)
    + (if has_long_repeat s 4 then 15 else 0)
    + (if has_sequence s 4 then 20 else 0)
    + (if charset_size s <=? 26 then 10 else 0).
Proof.
  unfold formula_penalty, triggered, penalty_rules.
  generalize (in_set (lower s) COMMON_PASSWORDS), (len s <? 8),
    (has_long_repeat s 4), (has_sequence s 4), (charset_size s <=? 26).
  intros [] [] [] [] []; cbn [filter map fold_right fst snd]; lia.
Qed.

Lemma bool_term_le (b1 b2 : bool) (k : Z) :
  0 <= k -> (b2 = true -> b1 = true) ->
  (if b2 then k else 0) <= (if b1 then k else 0).
Proof. intros Hk H. destruct b2; [rewrite (H eq_refl) | destruct b1]; lia. Qed.

(** Without a new pattern, appending characters does not raise the
    penalty. *)
Lemma penalty_app (p ext : str) :
  (has_long_repeat (p ++ ext)%list 4 = true -> has_long_repeat p 4 = true) ->
  (has_sequence (p ++ ext)%list 4 = true -> has_sequence p 4 = true) ->
  (in_set (lower (p ++ ext)%list) COMMON_PASSWORDS = true ->
   in_set (lower p) COMMON_PASSWORDS = true) ->
  formula_penalty (p ++ ext)%list <= formula_penalty p.
Proof.
  intros Hrep Hseq Hcom. rewrite !formula_penalty_sum.
  pose proof (bool_term_le _ _ 40 ltac:(lia) Hcom) as T1.
  pose proof (bool_term_le _ _ 15 ltac:(lia) Hrep) as T3.
  pose proof (bool_term_le _ _ 20 ltac:(lia) Hseq) as T4.
  assert (T5 : (if charset_size (p ++ ext)%list <=? 26 then 10 else 0)
               <= (if charset_size p <=? 26 then 10 else 0)).
  { pose proof (charset_size_app p ext).
    destruct (Z.leb_spec (charset_size (p ++ ext)%list) 26),
      (Z.leb_spec (charset_size p) 26); lia. }
  assert (T2 : (if len (p ++ ext)%list <? 8 then (8 - len (p ++ ext)%list) * 3 else 0)
               <= (if len p <? 8 then (8 - len p) * 3 else 0)).
  { pose proof (len_app p ext).
    destruct (Z.ltb_spec (len (p ++ ext)%list) 8), (Z.ltb_spec (len p) 8); lia. }
  lia.
Qed.

Lemma log2_mono (c c' : Z) :
  In c [1; 26; 52; 10; 36; 62; 32; 58; 84; 42; 68; 94] ->
  In c' [1; 26; 52; 10; 36; 62; 32; 58; 84; 42; 68; 94] ->
  1 < c -> c <= c' -> Zval (log2 c) <= Zval (log2 c').
Proof.
  intros Hc Hc' H1 Hle. cbn [In] in Hc, Hc'.
  repeat (destruct Hc as [<- | Hc]; [ | ]); try contradiction; try lia;
    repeat (destruct Hc' as [<- | Hc']; [ | ]); try contradiction; try lia;
    vm_compute; discriminate.
Qed.

Lemma bits_value_app (p ext : str) :
  bits_value (len p) (charset_size p)
  <= bits_value (len (p ++ ext)%list) (charset_size (p ++ ext)%list).
Proof.
  pose proof (len_nonneg p) as Hl. pose proof (len_app p ext) as Hlen.
  pose proof (charset_size_app p ext) as Hc.
  pose proof unit_value_pos as Hu.
  unfold bits_value at 1. destruct (Z.ltb_spec 1 (charset_size p)) as [H1 | H1];
    [ | apply bits_value_nonneg; lia].
  unfold bits_value. destruct (Z.ltb_spec 1 (charset_size (p ++ ext)%list)); [ | lia].
  pose proof (log2_mono _ _ (charset_size_values p) (charset_size_values (p ++ ext)%list)
                H1 Hc) as Hlog.
  pose proof (log2_nonneg (charset_size p)) as Hlog0.
  assert (Hv : round_value (len p * unit_value)
               <= round_value (len (p ++ ext)%list * unit_value)).
  { apply round_value_mono. apply Z.mul_le_mono_nonneg_r; lia. }
  assert (Hv0 : 0 <= round_value (len p * unit_value)).
  { apply round_value_nonneg. apply Z.mul_nonneg_nonneg; lia. }
  apply round_binary64_mono; [ | lia | lia | ].
  - apply Z.mul_nonneg_nonneg; lia.
  - apply Z.mul_le_mono_nonneg_r; [lia | ].
    apply Z.mul_le_mono_nonneg; lia.
Qed.

(** C9: when the characters appended to a password bring no new long
    repeat, no new sequence and no common password, the longer password
    scores at least as much as the shorter one. *)
Theorem score_monotone_on_append (p ext : str) :
  len (p ++ ext)%list <= PY_SSIZE_T_MAX ->
  (has_long_repeat (p ++ ext)%list 4 = true -> has_long_repeat p 4 = true) ->
  (has_sequence (p ++ ext)%list 4 = true -> has_sequence p 4 = true) ->
  (in_set (lower (p ++ ext)%list) COMMON_PASSWORDS = true ->
   in_set (lower p) COMMON_PASSWORDS = true) ->
  exists r1 r2,
    assess_password (VStr p) = Ok r1 /\
    assess_password (VStr (p ++ ext)%list) = Ok r2 /\
    r_score r1 <= r_score r2.
Proof.
  intros Hlen Hrep Hseq Hcom. pose proof (len_app p ext) as Hle.
  destruct (assess_str_score p ltac:(lia)) as (r1 & H1 & S1).
  destruct (assess_str_score (p ++ ext)%list Hlen) as (r2 & H2 & S2).
  exists r1, r2. split; [exact H1 | split; [exact H2 | ]].
  rewrite S1, S2. unfold score_value. cbv zeta.
  apply score_value_mono.
  - apply base_value_mono. split; [ | apply bits_value_app].
    apply bits_value_nonneg. apply len_nonneg.
  - apply class_bonus_app.
  - apply length_bonus_app.
  - apply penalty_app; assumption.
Qed.

End Append.

Lemma score_monotone_on_append_witness :
  exists r1 r2,
    @assess_password ascii_only (VStr (str_of "hunter")) = Ok r1 /\
    @assess_password ascii_only (VStr (str_of "hunter" ++ str_of "2!Z")%list) = Ok r2 /\
    r_score r1 <= r_score r2.
Proof.
  apply (@score_monotone_on_append ascii_only).
  - vm_compute; discriminate.
  - vm_compute; discriminate.
  - vm_compute; discriminate.
  - vm_compute; discriminate.
Defined.

(** * Further properties of the program *)

(** ** The alphabet size and the entropy *)

Section AlphabetFacts.

Context {U : Unicode}.

Import PyNum.

Lemma re_search_incl (cls : Z -> bool) (p q : str) :
  incl p q -> re_search cls p = true -> re_search cls q = true.
Proof.
  unfold re_search. rewrite !existsb_exists.
  intros Hincl (c & Hin & Hc). exists c. split; [apply Hincl; exact Hin | exact Hc].
Qed.

Lemma charset_size_incl_le (p q : str) :
  incl p q -> charset_size p <= charset_size q.
Proof.
  intros Hincl. unfold charset_size.
  pose proof (re_search_incl class_lower p q Hincl) as Hl.
  pose proof (re_search_incl class_upper p q Hincl) as Hu.
  pose proof (re_search_incl class_digit p q Hincl) as Hd.
  pose proof (re_search_incl class_symbol p q Hincl) as Hs.
  destruct (re_search class_lower p), (re_search class_upper p),
    (re_search class_digit p), (re_search class_symbol p);
    try rewrite (Hl eq_refl); try rewrite (Hu eq_refl);
    try rewrite (Hd eq_refl); try rewrite (Hs eq_refl);
    if_cases; lia.
Qed.

Lemma re_search_false (cls : Z -> bool) (s : str) :
  re_search cls s = false <-> forall c, In c s -> cls c = false.
Proof.
  split; [ | apply re_search_none].
  unfold re_search. intros H c Hc. destruct (cls c) eqn:E; [ | reflexivity].
  assert (existsb cls s = true) by (apply existsb_exists; eauto). congruence.
Qed.

(** X1: the alphabet size lies between 1 and 94; it is 1 exactly when no
    character of the password lies in any of the four classes (the empty
    password included) and 94 exactly when all four classes occur. *)
Theorem charset_size_bounds :
  forall password : str,
    1 <= charset_size password <= 94 /\
    (charset_size password = 1 <->
     forall c, In c password -> classes_of c = 0) /\
    (charset_size password = 94 <->
     re_search class_lower password = true /\
     re_search class_upper password = true /\
     re_search class_digit password = true /\
     re_search class_symbol password = true).
Proof.
  intros password.
  assert (Hnone : (forall c, In c password -> classes_of c = 0) <->
                  re_search class_lower password = false /\
                  re_search class_upper password = false /\
                  re_search class_digit password = false /\
                  re_search class_symbol password = false).
  { rewrite !re_search_false. unfold classes_of. split.
    - intros H. repeat split; intros c Hc; specialize (H c Hc);
        destruct (class_lower c), (class_upper c), (class_digit c), (class_symbol c);
        first [reflexivity | discriminate H].
    - intros (Hl & Hu & Hd & Hs) c Hc.
      rewrite (Hl c Hc), (Hu c Hc), (Hd c Hc), (Hs c Hc). reflexivity. }
  rewrite Hnone. unfold charset_size.
  destruct (re_search class_lower password), (re_search class_upper password),
    (re_search class_digit password), (re_search class_symbol password);
    cbn; intuition (try lia; try discriminate).
Qed.

(** X2: the alphabet size depends only on which characters occur: a
    password all of whose characters occur in another has an alphabet size
    no larger, so two passwords with the same characters, in any order and
    any number, have the same alphabet size. *)
Theorem charset_size_by_characters (p q : str) :
  incl p q ->
  charset_size p <= charset_size q /\
  (incl q p -> charset_size p = charset_size q).
Proof.
  intros Hpq. pose proof (charset_size_incl_le p q Hpq) as Hle.
  split; [exact Hle | ].
  intros Hqp. pose proof (charset_size_incl_le q p Hqp). lia.
Qed.

Lemma printable_partition_check :
  forallb (fun n => classes_of (Z.of_nat n) =? 1) (seq 33 94) = true.
Proof. vm_compute. reflexivity. Qed.

Lemma class_symbol_in (c : Z) : class_symbol c = true <-> In c SYMBOLS.
Proof.
  unfold class_symbol. rewrite existsb_exists. split.
  - intros (x & Hin & Hx). apply Z.eqb_eq in Hx. subst x. exact Hin.
  - intros Hin. exists c. split; [exact Hin | apply Z.eqb_refl].
Qed.

(** X3: the four classes split the 94 printable ASCII characters other
    than the space: each lies in exactly one class, the space lies in none,
    the symbol class is the 32 distinct characters of [SYMBOLS], and the
    letters and the symbols are ASCII, so the sizes 26, 26, 10 and 32 count
    the ASCII members of each class. *)
Theorem printable_ascii_partition :
  forall c : Z,
    (33 <= c <= 126 <-> (c < 128 /\ classes_of c = 1)) /\
    classes_of 32 = 0 /\
    NoDup SYMBOLS /\ List.length SYMBOLS = 32%nat /\
    (class_symbol c = true <-> In c SYMBOLS).
Proof.
  intros c. split; [ | split; [reflexivity | split; [ | split; [reflexivity | ]]]].
  - split.
    + intros Hc. split; [lia | ].
      pose proof printable_partition_check as H. rewrite forallb_forall in H.
      specialize (H (Z.to_nat c)). rewrite Z2Nat.id in H by lia.
      apply Z.eqb_eq. apply H. apply in_seq. lia.
    + intros [H128 Hone]. unfold classes_of in Hone.
      destruct (class_symbol c) eqn:Es.
      * apply class_symbol_in in Es. vm_compute in Es.
        repeat (destruct Es as [<- | Es]; [lia | ]). contradiction.
      * unfold class_lower, class_upper, class_digit, in_range in Hone.
        destruct (Z.ltb_spec c 128); [ | lia].
        destruct (Z.leb_spec 97 c), (Z.leb_spec c 122), (Z.leb_spec 65 c),
          (Z.leb_spec c 90), (Z.leb_spec 48 c), (Z.leb_spec c 57);
          cbn [andb] in Hone; lia.
  - repeat (constructor; [vm_compute; intuition discriminate | ]). constructor.
  - apply class_symbol_in.
Qed.

(** The value of the entropy grows with the length and the alphabet size. *)
Lemma bits_value_mono (L L' c c' : Z) :
  0 <= L <= L' ->
  In c [1; 26; 52; 10; 36; 62; 32; 58; 84; 42; 68; 94] ->
  In c' [1; 26; 52; 10; 36; 62; 32; 58; 84; 42; 68; 94] ->
  c <= c' ->
  bits_value L c <= bits_value L' c'.
Proof.
  intros HL Hc Hc' Hle. pose proof unit_value_pos as Hu.
  unfold bits_value at 1. destruct (Z.ltb_spec 1 c) as [H1 | H1];
    [ | apply bits_value_nonneg; lia].
  unfold bits_value. destruct (Z.ltb_spec 1 c'); [ | lia].
  pose proof (log2_mono _ _ Hc Hc' H1 Hle) as Hlog.
  pose proof (log2_nonneg c) as Hlog0.
  assert (Hv : round_value (L * unit_value) <= round_value (L' * unit_value)).
  { apply round_value_mono. apply Z.mul_le_mono_nonneg_r; lia. }
  assert (Hv0 : 0 <= round_value (L * unit_value)).
  { apply round_value_nonneg. apply Z.mul_nonneg_nonneg; lia. }
  apply round_binary64_mono; [ | lia | lia | ].
  - apply Z.mul_nonneg_nonneg; lia.
  - apply Z.mul_le_mono_nonneg_r; [lia | ].
    apply Z.mul_le_mono_nonneg; lia.
Qed.

Lemma charset_size_nonempty (s : str) : 1 < charset_size s -> 1 <= len s.
Proof.
  destruct s as [ | c rest]; [vm_compute; discriminate | ].
  intros _. unfold len. cbn [List.length]. lia.
Qed.

Lemma bits_value_pos (s : str) :
  1 < charset_size s -> 0 < bits_value (len s) (charset_size s).
Proof.
  intros Hc. pose proof (charset_size_nonempty s Hc) as Hl.
  pose proof (charset_size_values s) as Hin.
  assert (H10 : 10 <= charset_size s).
  { cbn [In] in Hin. lia. }
  assert (Hlow : 0 < bits_value 1 10) by (vm_compute; reflexivity).
  pose proof (bits_value_mono 1 (len s) 10 (charset_size s) ltac:(lia)
                ltac:(cbn [In]; tauto) Hin H10).
  lia.
Qed.

(** X4: [entropy_bits] raises no exception; its result is a finite float,
    not below zero, and it is zero exactly when the alphabet size is 1. *)
Theorem entropy_bits_nonnegative (password : str) :
  len password <= PY_SSIZE_T_MAX ->
  exists f,
    entropy_bits password = Ok (Float f) /\
    is_finite f = true /\
    lt (Float f) (Int 0) = Ok false /\
    (is_zero f = true <-> charset_size password = 1).
Proof.
  intros Hlen. destruct (entropy_bits_value password Hlen) as (f & Hf & Gf & Vf).
  pose proof (bits_value_nonneg (len password) (charset_size password)
                (len_nonneg password)) as Hnn.
  exists f. split; [exact Hf | ]. split; [exact (small_finite _ _ (proj2 Gf)) | ].
  split.
  - cbn [lt to_float]. rewrite float_of_int_0. cbn [bind].
    rewrite (SFltb_value f (S754_zero false) (proj1 Gf) (wf_zero false)
               ltac:(lia) (Z.le_refl 0)).
    change (Zval (S754_zero false)) with 0.
    destruct (Z.ltb_spec (Zval f) 0); [lia | reflexivity].
  - destruct (Z.ltb_spec 1 (charset_size password)) as [Hc | Hc].
    + pose proof (bits_value_pos password Hc) as Hpos. split; [ | lia].
      intros Hz. destruct f; try discriminate Hz. cbn [Zval] in Vf. lia.
    + pose proof (charset_size_values password) as Hin. cbn [In] in Hin.
      split; [lia | intros _].
      unfold entropy_bits in Hf.
      destruct (Z.ltb_spec 1 (charset_size password)); [lia | ].
      apply Ok_inj in Hf. injection Hf as <-. reflexivity.
Qed.

(** X5: the entropy grows with the length and the alphabet size: a
    password that is no longer and has no larger an alphabet than another
    has no more entropy. *)
Theorem entropy_bits_monotone (p q : str) :
  len p <= len q -> charset_size p <= charset_size q ->
  len q <= PY_SSIZE_T_MAX ->
  exists f g,
    entropy_bits p = Ok (Float f) /\
    entropy_bits q = Ok (Float g) /\
    lt (Float g) (Float f) = Ok false.
Proof.
  intros Hlen Hc Hmax.
  destruct (entropy_bits_value p ltac:(lia)) as (f & Hf & Gf & Vf).
  destruct (entropy_bits_value q Hmax) as (g & Hg & Gg & Vg).
  exists f, g. split; [exact Hf | split; [exact Hg | ]].
  pose proof (bits_value_nonneg (len p) (charset_size p) (len_nonneg p)) as Pf.
  pose proof (bits_value_nonneg (len q) (charset_size q) (len_nonneg q)) as Pg.
  pose proof (bits_value_mono (len p) (len q) (charset_size p) (charset_size q)
                (conj (len_nonneg p) Hlen) (charset_size_values p)
                (charset_size_values q) Hc) as Hle.
  cbn [lt to_float bind].
  rewrite (SFltb_value g f (proj1 Gg) (proj1 Gf) ltac:(lia) ltac:(lia)).
  destruct (Z.ltb_spec (Zval g) (Zval f)); [lia | reflexivity].
Qed.

End AlphabetFacts.

Lemma charset_size_by_characters_witness :
  incl (str_of "abc1") (str_of "1cab1bca") /\
  @charset_size ascii_only (str_of "abc1") <= @charset_size ascii_only (str_of "1cab1bca") /\
  (incl (str_of "1cab1bca") (str_of "abc1") ->
   @charset_size ascii_only (str_of "abc1") = @charset_size ascii_only (str_of "1cab1bca")).
Proof.
  assert (H : incl (str_of "abc1") (str_of "1cab1bca")).
  { intros c Hc. vm_compute in Hc |- *. intuition auto. }
  split; [exact H | ].
  apply (@charset_size_by_characters ascii_only _ _ H).
Defined.

Lemma entropy_bits_nonnegative_witness :
  len (str_of "hunter2") <= PY_SSIZE_T_MAX /\
  exists f,
    @entropy_bits ascii_only (str_of "hunter2") = Ok (PyNum.Float f) /\
    PyNum.is_finite f = true /\
    PyNum.lt (PyNum.Float f) (PyNum.Int 0) = Ok false /\
    (PyNum.is_zero f = true <-> @charset_size ascii_only (str_of "hunter2") = 1).
Proof.
  split; [vm_compute; discriminate | ].
  apply (@entropy_bits_nonnegative ascii_only). vm_compute; discriminate.
Defined.

Lemma entropy_bits_monotone_witness :
  exists f g,
    @entropy_bits ascii_only (str_of "hunter2") = Ok (PyNum.Float f) /\
    @entropy_bits ascii_only (str_of "Hunter2!") = Ok (PyNum.Float g) /\
    PyNum.lt (PyNum.Float g) (PyNum.Float f) = Ok false.
Proof.
  apply (@entropy_bits_monotone ascii_only (str_of "hunter2") (str_of "Hunter2!"));
    vm_compute; discriminate.
Defined.

(** ** Long repeats *)

Section RepeatFacts.

Lemma run_length_ge (c : Z) (k : nat) :
  forall s, (k <= run_length c s)%nat <-> exists post, s = (repeat c k ++ post)%list.
Proof.
  induction k as [ | k IH]; intros s.
  - split; [intros _; exists s; reflexivity | intros _; lia].
  - destruct s as [ | x rest]; cbn [run_length repeat app].
    + split; [lia | intros (post & H); discriminate H].
    + destruct (Z.eqb_spec x c) as [-> | Hne].
      * rewrite <- Nat.succ_le_mono, IH. split.
        -- intros (post & ->). exists post. reflexivity.
        -- intros (post & H). injection H as ->. exists post. reflexivity.
      * split; [lia | ]. intros (post & H). injection H as -> _. contradiction.
Qed.

Lemma search_repeat_iff (k : nat) (s : str) :
  search_repeat k s = true <-> has_run_of (S k) s.
Proof.
  unfold has_run_of. induction s as [ | x rest IH]; cbn [search_repeat].
  - split; [discriminate | ].
    intros (pre & c & post & _ & H). destruct pre; discriminate H.
  - rewrite orb_true_iff, IH. unfold match_repeat, class_dot.
    rewrite andb_true_iff, negb_true_iff, Z.eqb_neq, Nat.leb_le, run_length_ge.
    split.
    + intros [(Hx & post & ->) | (pre & c & post & Hc & ->)].
      * exists [], x, post. split; [exact Hx | reflexivity].
      * exists (x :: pre), c, post. split; [exact Hc | reflexivity].
    + intros (pre & c & post & Hc & Heq). destruct pre as [ | y pre].
      * cbn [repeat app] in Heq. injection Heq as Hx Hrest. subst x rest.
        left. split; [exact Hc | exists post; reflexivity].
      * cbn [app] in Heq. injection Heq as Hy Hrest. subst y rest.
        right. exists pre, c, post. split; [exact Hc | reflexivity].
Qed.

Lemma has_long_repeat_run (password : str) (n : nat) :
  (1 <= n)%nat -> has_long_repeat password n = true <-> has_run_of n password.
Proof.
  intros Hn. unfold has_long_repeat. rewrite search_repeat_iff.
  replace (S (n - 1)) with n by lia. reflexivity.
Qed.

Lemma has_run_of_shorter (m n : nat) (s : str) :
  (m <= n)%nat -> has_run_of n s -> has_run_of m s.
Proof.
  intros Hmn (pre & c & post & Hc & ->).
  exists pre, c, (repeat c (n - m) ++ post)%list. split; [exact Hc | ].
  f_equal. rewrite app_assoc, <- repeat_app. f_equal. f_equal. lia.
Qed.

Lemma rev_repeat (c : Z) (n : nat) : rev (repeat c n) = repeat c n.
Proof.
  induction n as [ | n IH]; [reflexivity | ].
  cbn [repeat rev]. rewrite IH. symmetry. apply repeat_cons.
Qed.

Lemma has_run_of_rev (n : nat) (s : str) : has_run_of n s -> has_run_of n (rev s).
Proof.
  intros (pre & c & post & Hc & ->). exists (rev post), c, (rev pre).
  split; [exact Hc | ]. rewrite !rev_app_distr, rev_repeat, app_assoc. reflexivity.
Qed.

Lemma has_run_of_length (n : nat) (s : str) :
  has_run_of n s -> (n <= List.length s)%nat.
Proof.
  intros (pre & c & post & _ & ->). rewrite !length_app, repeat_length. lia.
Qed.

Lemma bool_eq_iff (a b : bool) : (a = true <-> b = true) -> a = b.
Proof. destruct a, b; intuition congruence. Qed.

(** X6: for a threshold [1 <= repeat_threshold < 2 ^ 32],
    [has_long_repeat] holds exactly when some character other than the
    newline stands [repeat_threshold] times in a row. *)
Theorem has_long_repeat_threshold (password : str) (n : nat) :
  (1 <= n)%nat ->
  Z.of_nat n < 2 ^ 32 ->
  (has_long_repeat password n = true <-> has_run_of n password).
Proof. intros Hn _. exact (has_long_repeat_run password n Hn). Qed.

(** X7: for thresholds [1 <= m <= n < 2 ^ 32], a repeat found with the
    threshold [n] is found with the smaller threshold [m], and a string
    shorter than the threshold has no long repeat. *)
Theorem has_long_repeat_smaller_threshold (password : str) (m n : nat) :
  (1 <= m <= n)%nat ->
  Z.of_nat n < 2 ^ 32 ->
  (has_long_repeat password n = true -> has_long_repeat password m = true) /\
  (len password < Z.of_nat n -> has_long_repeat password n = false).
Proof.
  intros Hmn _. split.
  - rewrite !has_long_repeat_run by lia. apply has_run_of_shorter. lia.
  - intros Hlen. destruct (has_long_repeat password n) eqn:E; [ | reflexivity].
    apply has_long_repeat_run in E; [ | lia].
    apply has_run_of_length in E. unfold len in Hlen. lia.
Qed.

(** X8: for a threshold [1 <= repeat_threshold < 2 ^ 32], reading the
    password backwards does not change the verdict. *)
Theorem has_long_repeat_rev (password : str) (n : nat) :
  (1 <= n)%nat ->
  Z.of_nat n < 2 ^ 32 ->
  has_long_repeat (rev password) n = has_long_repeat password n.
Proof.
  intros Hn _. apply bool_eq_iff. rewrite !has_long_repeat_run by exact Hn.
  split; intros H; apply has_run_of_rev in H; [ | exact H].
  rewrite rev_involutive in H. exact H.
Qed.

(** X9: for a threshold [1 <= repeat_threshold < 2 ^ 32], characters put
    before or after a password never hide a long repeat. *)
Theorem has_long_repeat_extend (before password after : str) (n : nat) :
  (1 <= n)%nat ->
  Z.of_nat n < 2 ^ 32 ->
  has_long_repeat password n = true ->
  has_long_repeat (before ++ password ++ after)%list n = true.
Proof.
  intros Hn _. rewrite !has_long_repeat_run by exact Hn.
  intros (pre & c & post & Hc & ->).
  exists (before ++ pre)%list, c, (post ++ after)%list. split; [exact Hc | ].
  rewrite <- !app_assoc. reflexivity.
Qed.

End RepeatFacts.

Lemma has_long_repeat_threshold_witness :
  (1 <= 2)%nat /\ Z.of_nat 2 < 2 ^ 32 /\
  (has_long_repeat (str_of "book") 2 = true <-> has_run_of 2 (str_of "book")).
Proof.
  split; [lia | ]. split; [reflexivity | ].
  apply (has_long_repeat_threshold (str_of "book") 2); [lia | reflexivity].
Defined.

Lemma has_long_repeat_smaller_threshold_witness :
  (1 <= 3 <= 5)%nat /\ Z.of_nat 5 < 2 ^ 32 /\
  (has_long_repeat (str_of "a-----b") 5 = true ->
   has_long_repeat (str_of "a-----b") 3 = true) /\
  (len (str_of "a-----b") < Z.of_nat 5 ->
   has_long_repeat (str_of "a-----b") 5 = false).
Proof.
  split; [lia | ]. split; [reflexivity | ].
  apply (has_long_repeat_smaller_threshold (str_of "a-----b") 3 5);
    [lia | reflexivity].
Defined.

Lemma has_long_repeat_rev_witness :
  (1 <= 4)%nat /\ Z.of_nat 4 < 2 ^ 32 /\
  has_long_repeat (rev (str_of "xx0000")) 4 = has_long_repeat (str_of "xx0000") 4.
Proof.
  split; [lia | ]. split; [reflexivity | ].
  apply (has_long_repeat_rev (str_of "xx0000") 4); [lia | reflexivity].
Defined.

Lemma has_long_repeat_extend_witness :
  (1 <= 4)%nat /\ Z.of_nat 4 < 2 ^ 32 /\
  has_long_repeat (str_of "zzzz") 4 = true /\
  has_long_repeat (str_of "Pa" ++ str_of "zzzz" ++ str_of "w0rd")%list 4 = true.
Proof.
  split; [lia | ]. split; [reflexivity | ]. split; [reflexivity | ].
  apply (has_long_repeat_extend (str_of "Pa") (str_of "zzzz") (str_of "w0rd") 4);
    [lia | reflexivity | reflexivity].
Defined.

(** ** Sequences of any length *)

Section SequenceFacts.

Context {U : Unicode}.

Lemma arith_run_length (a d : Z) (n : nat) : List.length (arith_run a d n) = n.
Proof.
  revert a. induction n as [ | n IH]; intros a; [reflexivity | ].
  cbn [arith_run List.length]. rewrite IH. reflexivity.
Qed.

Lemma arith_run_app (a d : Z) (m k : nat) :
  arith_run a d (m + k) = (arith_run a d m ++ arith_run (a + d * Z.of_nat m) d k)%list.
Proof.
  revert a. induction m as [ | m IH]; intros a.
  - cbn [arith_run app Nat.add]. f_equal. lia.
  - cbn [arith_run app Nat.add]. rewrite IH. do 3 f_equal. lia.
Qed.

Lemma arith_run_last (a d : Z) (n : nat) :
  arith_run a d (S n) = (arith_run a d n ++ [a + d * Z.of_nat n])%list.
Proof. replace (S n) with (n + 1)%nat by lia. apply arith_run_app. Qed.

Lemma arith_run_rev (a d : Z) (n : nat) :
  rev (arith_run a d n) = arith_run (a + d * (Z.of_nat n - 1)) (- d) n.
Proof.
  revert a. induction n as [ | n IH]; intros a; [reflexivity | ].
  rewrite arith_run_last at 1. rewrite rev_app_distr. cbn [rev app arith_run].
  rewrite IH. f_equal; [lia | ]. f_equal. lia.
Qed.

(** The differences of a window all equal [d] exactly when the window is
    the run from its first character. *)
Lemma diffs_run (d : Z) (w : list Z) :
  forallb (fun x => x =? d) (diffs_of w) = true <->
  match w with
  | [] => True
  | a :: _ => w = arith_run a d (List.length w)
  end.
Proof.
  induction w as [ | a rest IH]; [cbn; tauto | ].
  destruct rest as [ | b rest]; [cbn; tauto | ].
  cbn [diffs_of forallb]. rewrite andb_true_iff, IH, Z.eqb_eq.
  cbn [List.length arith_run]. split.
  - intros [Hb Hrest]. assert (b = a + d) by lia. subst b.
    f_equal. exact Hrest.
  - intros H. injection H as Hb Hrest. subst b. split; [lia | ].
    cbn [List.length arith_run]. f_equal. exact Hrest.
Qed.

Lemma match_alnum_all (w : str) :
  forall seen, forallb class_alnum w = true -> (seen = true \/ w <> []) ->
               match_alnum seen w = true.
Proof.
  induction w as [ | c rest IH]; intros seen Hall Hne.
  - destruct Hne as [-> | Hne]; [reflexivity | contradiction].
  - cbn [forallb] in Hall. apply andb_true_iff in Hall as [Hc Hrest].
    cbn [match_alnum]. rewrite Hc. apply IH; [exact Hrest | left; reflexivity].
Qed.

(** A window that steps by one and matches the pattern holds no newline:
    the newline is no neighbour of a letter or a digit. *)
Lemma match_alnum_stepping (d : Z) :
  d = 1 \/ d = -1 ->
  forall rest c,
    class_alnum c = true -> match_alnum true rest = true ->
    forallb (fun x => x =? d) (diffs_of (c :: rest)) = true ->
    forallb class_alnum rest = true.
Proof.
  intros Hd. induction rest as [ | x rest IH]; intros c Hc Hm Hdiff; [reflexivity | ].
  cbn [diffs_of forallb] in Hdiff. apply andb_true_iff in Hdiff as [Hx Hdiff].
  apply Z.eqb_eq in Hx. cbn [match_alnum] in Hm. cbn [forallb].
  destruct (class_alnum x) eqn:Ex.
  - cbn [andb]. apply (IH x); assumption.
  - exfalso. apply andb_true_iff in Hm as [Hm _]. cbn [andb] in Hm.
    apply Z.eqb_eq in Hm. unfold NEWLINE in Hm.
    apply class_alnum_range in Hc. lia.
Qed.

Lemma window_hit_iff (w : str) :
  window_hit w = true <->
  w <> [] /\ forallb class_alnum w = true /\
  exists a d, (d = 1 \/ d = -1) /\ w = arith_run a d (List.length w).
Proof.
  unfold window_hit. rewrite andb_true_iff, orb_true_iff, !diffs_run. split.
  - intros [Hm Hd]. destruct w as [ | c rest]; [discriminate Hm | ].
    split; [discriminate | ].
    assert (Hc : class_alnum c = true).
    { cbn [match_alnum] in Hm. destruct (class_alnum c); [reflexivity | discriminate Hm]. }
    split.
    + cbn [forallb]. rewrite Hc. cbn [andb].
      cbn [match_alnum] in Hm. rewrite Hc in Hm.
      destruct Hd as [Hd | Hd].
      * apply (match_alnum_stepping 1 (or_introl eq_refl) rest c Hc Hm).
        apply diffs_run. exact Hd.
      * apply (match_alnum_stepping (-1) (or_intror eq_refl) rest c Hc Hm).
        apply diffs_run. exact Hd.
    + destruct Hd as [Hd | Hd]; [exists c, 1 | exists c, (-1)]; split; auto.
  - intros (Hne & Hall & a & d & Hd & Hw). split.
    + apply match_alnum_all; [exact Hall | right; exact Hne].
    + destruct w as [ | c rest]; [contradiction | ].
      assert (a = c).
      { cbn [List.length arith_run] in Hw. injection Hw as Hc _. congruence. }
      subst a. destruct Hd as [-> | ->]; [left | right]; exact Hw.
Qed.

Lemma slice_app_window (pre w post : str) :
  slice (pre ++ w ++ post)%list (List.length pre) (List.length pre + List.length w) = w.
Proof.
  unfold slice.
  replace (List.length pre + List.length w - List.length pre)%nat
    with (List.length w) by lia.
  rewrite skipn_app, skipn_all, Nat.sub_diag. cbn [skipn app].
  rewrite firstn_app, firstn_all, Nat.sub_diag. cbn [firstn]. apply app_nil_r.
Qed.

Lemma window_at_any (s : str) (j n : nat) :
  (j + n <= List.length s)%nat ->
  exists pre w post,
    s = (pre ++ w ++ post)%list /\ List.length pre = j /\ List.length w = n.
Proof.
  intros Hj. exists (firstn j s), (firstn n (skipn j s)), (skipn n (skipn j s)).
  rewrite firstn_skipn, firstn_skipn. split; [reflexivity | ].
  rewrite !length_firstn, length_skipn. lia.
Qed.

Lemma has_sequence_loop_run (s : str) (n : nat) :
  has_sequence_loop s n 0 (Z.to_nat (len s - Z.of_nat n + 1)) = true
  <-> has_run_window s n.
Proof.
  rewrite has_sequence_loop_existsb, existsb_exists. unfold len, has_run_window. split.
  - intros (j & Hin & Hhit). apply in_seq in Hin.
    destruct (window_at_any s j n) as (pre & w & post & Hs & Hpre & Hw); [lia | ].
    subst s j n. rewrite slice_app_window in Hhit.
    apply window_hit_iff in Hhit as (Hne & Hall & a & d & Hd & Hrun).
    exists pre, a, d, post. split; [exact Hd | ].
    split; [destruct w; [contradiction | cbn [List.length]; lia] | ].
    rewrite <- Hrun. split; [reflexivity | exact Hall].
  - intros (pre & a & d & post & Hd & Hn & Hs & Hall).
    exists (List.length pre). split.
    + apply in_seq. rewrite Hs, !length_app, arith_run_length. lia.
    + rewrite Hs. rewrite <- (arith_run_length a d n) at 2.
      rewrite slice_app_window. apply window_hit_iff.
      split; [destruct n; [lia | discriminate] | ].
      split; [exact Hall | ]. exists a, d. split; [exact Hd | ].
      rewrite arith_run_length. reflexivity.
Qed.

Lemma has_sequence_run (password : str) (n : nat) :
  has_sequence password n = true <-> has_run_window (lower password) n.
Proof. unfold has_sequence. cbv zeta. apply has_sequence_loop_run. Qed.

Lemma arith_run_in (a d : Z) (n i : nat) :
  (i < n)%nat -> In (a + d * Z.of_nat i) (arith_run a d n).
Proof.
  intros Hi. replace n with (i + S (n - i - 1))%nat by lia.
  rewrite arith_run_app. apply in_or_app. right. left. reflexivity.
Qed.

Lemma has_run_window_shorter (s : str) (m n : nat) :
  (1 <= m <= n)%nat -> has_run_window s n -> has_run_window s m.
Proof.
  intros Hmn (pre & a & d & post & Hd & _ & Hs & Hall).
  replace n with (m + (n - m))%nat in Hs, Hall by lia.
  rewrite arith_run_app in Hs, Hall. rewrite forallb_app in Hall.
  apply andb_true_iff in Hall as [Hall _].
  exists pre, a, d, (arith_run (a + d * Z.of_nat m) d (n - m) ++ post)%list.
  split; [exact Hd | split; [lia | split; [ | exact Hall]]].
  rewrite Hs, <- app_assoc. reflexivity.
Qed.

Lemma has_run_window_length (s : str) (n : nat) :
  has_run_window s n -> (n <= List.length s)%nat.
Proof.
  intros (pre & a & d & post & _ & _ & -> & _).
  rewrite !length_app, arith_run_length. lia.
Qed.

Lemma has_run_window_at_most_26 (s : str) (n : nat) :
  has_run_window s n -> (n <= 26)%nat.
Proof.
  intros (pre & a & d & post & Hd & _ & _ & Hall).
  destruct (Nat.le_gt_cases n 26) as [Hle | Hgt]; [exact Hle | exfalso].
  rewrite forallb_forall in Hall.
  pose proof (Hall _ (arith_run_in a d n 0 ltac:(lia))) as H0.
  pose proof (Hall _ (arith_run_in a d n 26 ltac:(lia))) as H26.
  apply class_alnum_range in H0, H26. lia.
Qed.

Lemma forallb_rev {A : Type} (f : A -> bool) (l : list A) :
  forallb f (rev l) = forallb f l.
Proof.
  apply bool_eq_iff. rewrite !forallb_forall. split; intros H x Hx; apply H.
  - apply in_rev. rewrite rev_involutive. exact Hx.
  - apply in_rev. exact Hx.
Qed.

Lemma has_run_window_rev (s : str) (n : nat) :
  has_run_window s n -> has_run_window (rev s) n.
Proof.
  intros (pre & a & d & post & Hd & Hn & -> & Hall).
  exists (rev post), (a + d * (Z.of_nat n - 1)), (- d), (rev pre).
  split; [lia | split; [exact Hn | ]].
  rewrite <- arith_run_rev. split.
  - rewrite !rev_app_distr, app_assoc. reflexivity.
  - rewrite forallb_rev. exact Hall.
Qed.

Lemma has_run_window_extend (before s after : str) (n : nat) :
  has_run_window s n -> has_run_window (before ++ s ++ after)%list n.
Proof.
  intros (pre & a & d & post & Hd & Hn & -> & Hall).
  exists (before ++ pre)%list, a, d, (post ++ after)%list.
  split; [exact Hd | split; [exact Hn | split; [ | exact Hall]]].
  rewrite <- !app_assoc. reflexivity.
Qed.

(** [str.lower] on ASCII characters maps each capital letter to its small
    letter and keeps every other character. *)
Lemma lower_from_ascii (s : str) :
  forall rest i, is_ascii rest -> lower_from s i rest = map ascii_lower rest.
Proof.
  induction rest as [ | c rest IH]; intros i Hasc; [reflexivity | ].
  cbn [lower_from map].
  destruct (Z.ltb_spec c 128) as [_ | Hc].
  - cbn [app]. f_equal. apply IH. intros x Hx. apply Hasc. right. exact Hx.
  - specialize (Hasc c (or_introl eq_refl)). lia.
Qed.

Lemma lower_ascii (s : str) : is_ascii s -> lower s = map ascii_lower s.
Proof. apply lower_from_ascii. Qed.

Lemma is_ascii_rev (s : str) : is_ascii s -> is_ascii (rev s).
Proof. intros H c Hc. apply H. apply in_rev. exact Hc. Qed.

Lemma is_ascii_app (a b : str) : is_ascii (a ++ b)%list <-> is_ascii a /\ is_ascii b.
Proof.
  unfold is_ascii. split.
  - intros H. split; intros c Hc; apply H; apply in_or_app; [left | right]; exact Hc.
  - intros [Ha Hb] c Hc. apply in_app_or in Hc as [Hc | Hc]; [apply Ha | apply Hb]; exact Hc.
Qed.

(** X10: for every window length, [has_sequence] holds exactly when the
    lowered password has a window of that many characters, all in
    [a-z0-9], whose codes step by +1 throughout or by -1 throughout. *)
Theorem has_sequence_any_length :
  forall (password : str) (seq_len : nat),
    has_sequence password seq_len = true
    <-> has_run_window (lower password) seq_len.
Proof. exact has_sequence_run. Qed.

(** X11: the edge lengths.  A window of no character is never a sequence; a
    window of one character is a sequence as soon as the lowered password
    holds a letter or a digit; no window longer than 26 characters and no
    window longer than the lowered password is a sequence. *)
Theorem has_sequence_edge_lengths :
  forall password : str,
    has_sequence password 0 = false /\
    has_sequence password 1 = re_search class_alnum (lower password) /\
    (forall n, (26 < n)%nat -> has_sequence password n = false) /\
    (forall n, len (lower password) < Z.of_nat n -> has_sequence password n = false).
Proof.
  intros password. split; [ | split; [ | split]].
  - destruct (has_sequence password 0) eqn:E; [ | reflexivity].
    apply has_sequence_run in E. destruct E as (_ & _ & _ & _ & _ & Hn & _). lia.
  - apply bool_eq_iff. rewrite has_sequence_run. unfold re_search.
    rewrite existsb_exists. split.
    + intros (pre & a & d & post & _ & _ & Hs & Hall).
      exists a. cbn [arith_run forallb] in Hs, Hall. rewrite andb_true_r in Hall.
      split; [ | exact Hall]. rewrite Hs. apply in_or_app. right. left. reflexivity.
    + intros (a & Hin & Ha). apply in_split in Hin as (pre & post & Hs).
      exists pre, a, 1, post. split; [left; reflexivity | split; [lia | ]].
      cbn [arith_run forallb app]. rewrite Ha. split; [exact Hs | reflexivity].
  - intros n Hn. destruct (has_sequence password n) eqn:E; [ | reflexivity].
    apply has_sequence_run, has_run_window_at_most_26 in E. lia.
  - intros n Hn. destruct (has_sequence password n) eqn:E; [ | reflexivity].
    apply has_sequence_run, has_run_window_length in E. unfold len in Hn. lia.
Qed.

(** X12: a sequence found with a window length is found with every shorter
    window length of at least 1. *)
Theorem has_sequence_shorter_window (password : str) (m n : nat) :
  (1 <= m <= n)%nat ->
  has_sequence password n = true -> has_sequence password m = true.
Proof.
  intros Hmn. rewrite !has_sequence_run. apply has_run_window_shorter. exact Hmn.
Qed.

(** X13: on ASCII passwords the detector ignores the case of the letters:
    two passwords that differ only in case receive the same verdict. *)
Theorem has_sequence_ignores_case (p q : str) (n : nat) :
  is_ascii p -> is_ascii q ->
  map ascii_lower p = map ascii_lower q ->
  has_sequence p n = has_sequence q n.
Proof.
  intros Hp Hq Heq. unfold has_sequence. cbv zeta.
  rewrite (lower_ascii p Hp), (lower_ascii q Hq), Heq. reflexivity.
Qed.

(** X14: on ASCII passwords, reading the password backwards does not change
    the verdict: rising and falling sequences are treated alike. *)
Theorem has_sequence_rev (password : str) (n : nat) :
  is_ascii password ->
  has_sequence (rev password) n = has_sequence password n.
Proof.
  intros Hasc. apply bool_eq_iff. rewrite !has_sequence_run.
  rewrite (lower_ascii _ Hasc), (lower_ascii _ (is_ascii_rev _ Hasc)), map_rev.
  split; intros H; apply has_run_window_rev in H; [ | exact H].
  rewrite rev_involutive in H. exact H.
Qed.

(** X15: ASCII characters put before or after an ASCII password never hide
    a sequence. *)
Theorem has_sequence_extend (before password after : str) (n : nat) :
  is_ascii (before ++ password ++ after)%list ->
  has_sequence password n = true ->
  has_sequence (before ++ password ++ after)%list n = true.
Proof.
  intros Hasc. pose proof Hasc as Hall.
  apply is_ascii_app in Hall as [_ Hall]. apply is_ascii_app in Hall as [Hp _].
  rewrite !has_sequence_run, (lower_ascii _ Hasc), (lower_ascii _ Hp), !map_app.
  apply has_run_window_extend.
Qed.

End SequenceFacts.

Lemma is_ascii_check (s : str) :
  forallb (fun c => (0 <=? c) && (c <? 128)) s = true -> is_ascii s.
Proof.
  intros H c Hc. rewrite forallb_forall in H. specialize (H c Hc). lia.
Qed.

Lemma has_sequence_shorter_window_witness :
  (1 <= 3 <= 5)%nat /\ @has_sequence ascii_only (str_of "xEDCBAx") 5 = true /\
  @has_sequence ascii_only (str_of "xEDCBAx") 3 = true.
Proof.
  split; [lia | ]. split; [reflexivity | ].
  apply (@has_sequence_shorter_window ascii_only (str_of "xEDCBAx") 3 5);
    [lia | reflexivity].
Defined.

Lemma has_sequence_ignores_case_witness :
  is_ascii (str_of "xyZ-AbCd") /\ is_ascii (str_of "XYz-aBcD") /\
  @has_sequence ascii_only (str_of "xyZ-AbCd") 4
  = @has_sequence ascii_only (str_of "XYz-aBcD") 4.
Proof.
  assert (Hp : is_ascii (str_of "xyZ-AbCd")) by (apply is_ascii_check; reflexivity).
  assert (Hq : is_ascii (str_of "XYz-aBcD")) by (apply is_ascii_check; reflexivity).
  split; [exact Hp | split; [exact Hq | ]].
  apply (@has_sequence_ignores_case ascii_only _ _ 4 Hp Hq). reflexivity.
Defined.

Lemma has_sequence_rev_witness :
  is_ascii (str_of "pw-6789") /\
  @has_sequence ascii_only (rev (str_of "pw-6789")) 4
  = @has_sequence ascii_only (str_of "pw-6789") 4.
Proof.
  assert (Hp : is_ascii (str_of "pw-6789")) by (apply is_ascii_check; reflexivity).
  split; [exact Hp | ].
  apply (@has_sequence_rev ascii_only _ 4 Hp).
Defined.

Lemma has_sequence_extend_witness :
  is_ascii (str_of "My" ++ str_of "wxyz" ++ str_of "!9")%list /\
  @has_sequence ascii_only (str_of "wxyz") 4 = true /\
  @has_sequence ascii_only (str_of "My" ++ str_of "wxyz" ++ str_of "!9")%list 4 = true.
Proof.
  assert (Hp : is_ascii (str_of "My" ++ str_of "wxyz" ++ str_of "!9")%list)
    by (apply is_ascii_check; reflexivity).
  split; [exact Hp | split; [reflexivity | ]].
  apply (@has_sequence_extend ascii_only _ _ _ 4 Hp). reflexivity.
Defined.

(** ** Bounds on the score *)

Section ScoreBounds.

Context {U : Unicode}.

Import PyNum.

Local Open Scope string_scope.
Local Open Scope Z_scope.

Lemma base_value_le_60 (b : Z) : base_value b <= 60 * unit_value.
Proof.
  unfold base_value. pose proof unit_value_pos. destruct (0 <? b); lia.
Qed.

Lemma base_value_nonneg (b : Z) : 0 <= b -> 0 <= base_value b.
Proof.
  intros Hb. unfold base_value. pose proof unit_value_pos.
  pose proof (rescaled_value_nonneg b Hb). destruct (0 <? b); lia.
Qed.

Lemma round_value_units (z : Z) :
  Z.abs z < 2 ^ 53 -> round_value (z * unit_value) = z * unit_value.
Proof. exact (round_value_int z). Qed.

Lemma round_int_units (z : Z) : round_int (z * unit_value) = z.
Proof. exact (round_int_exact z). Qed.

(** The three additions and the rounding, on a base of [b] units. *)
Lemma pipeline_units (b cb lb pen : Z) :
  Z.abs b <= 60 -> Z.abs cb <= 15 -> Z.abs lb <= 15 -> Z.abs pen <= 109 ->
  round_int
    (round_value (round_value (round_value (b * unit_value + cb * unit_value)
                               + lb * unit_value) - pen * unit_value))
  = b + cb + lb - pen.
Proof.
  intros Hb Hcb Hlb Hpen.
  assert (H53 : 2 ^ 53 = 9007199254740992) by reflexivity.
  rewrite <- Z.mul_add_distr_r, round_value_units by lia.
  rewrite <- Z.mul_add_distr_r, round_value_units by lia.
  rewrite <- Z.mul_sub_distr_r, round_value_units by lia.
  apply round_int_units.
Qed.

Lemma pipeline_mono (v1 v2 cb1 cb2 lb1 lb2 pen1 pen2 : Z) :
  v1 <= v2 -> cb1 <= cb2 -> lb1 <= lb2 -> pen2 <= pen1 ->
  round_int
    (round_value (round_value (round_value (v1 + cb1 * unit_value)
                               + lb1 * unit_value) - pen1 * unit_value))
  <= round_int
       (round_value (round_value (round_value (v2 + cb2 * unit_value)
                                  + lb2 * unit_value) - pen2 * unit_value)).
Proof.
  intros Hv Hcb Hlb Hpen. pose proof unit_value_pos as Hu.
  apply round_int_mono, round_value_mono.
  assert (pen2 * unit_value <= pen1 * unit_value)
    by (apply Z.mul_le_mono_nonneg_r; lia).
  assert (round_value (round_value (v1 + cb1 * unit_value) + lb1 * unit_value)
          <= round_value (round_value (v2 + cb2 * unit_value) + lb2 * unit_value));
    [ | lia].
  apply round_value_mono.
  assert (lb1 * unit_value <= lb2 * unit_value)
    by (apply Z.mul_le_mono_nonneg_r; lia).
  assert (round_value (v1 + cb1 * unit_value) <= round_value (v2 + cb2 * unit_value));
    [ | lia].
  apply round_value_mono.
  assert (cb1 * unit_value <= cb2 * unit_value)
    by (apply Z.mul_le_mono_nonneg_r; lia).
  lia.
Qed.

(** The entropy contributes between 0 and 60 points to the score. *)
Lemma score_value_sandwich (L c cb lb pen : Z) :
  0 <= L -> Z.abs cb <= 15 -> Z.abs lb <= 15 -> Z.abs pen <= 109 ->
  Z.max 0 (Z.min 100 (cb + lb - pen)) <= score_value L c cb lb pen
  <= Z.max 0 (Z.min 100 (60 + cb + lb - pen)).
Proof.
  intros HL Hcb Hlb Hpen. unfold score_value. cbv zeta.
  pose proof (base_value_le_60 (bits_value L c)) as Hhi.
  pose proof (base_value_nonneg _ (bits_value_nonneg L c HL)) as Hlo.
  set (B := base_value (bits_value L c)) in *. clearbody B.
  pose proof (pipeline_mono B (60 * unit_value) cb cb lb lb pen pen Hhi
                (Z.le_refl _) (Z.le_refl _) (Z.le_refl _)) as Hup.
  rewrite (pipeline_units 60 cb lb pen) in Hup by lia.
  pose proof (pipeline_mono (0 * unit_value) B cb cb lb lb pen pen ltac:(lia)
                (Z.le_refl _) (Z.le_refl _) (Z.le_refl _)) as Hdown.
  rewrite (pipeline_units 0 cb lb pen) in Hdown by lia.
  lia.
Qed.

Lemma class_bonus_range (s : str) :
  0 <= formula_class_bonus s <= 15.
Proof. rewrite <- class_bonus_unfold. if_cases; cbn; lia. Qed.

Lemma length_bonus_range (s : str) :
  0 <= formula_length_bonus s <= 15.
Proof. unfold formula_length_bonus. if_cases; lia. Qed.

Lemma penalty_range (s : str) : 0 <= formula_penalty s <= 109.
Proof.
  rewrite <- (penalty_unfold s). cbv zeta. pose proof (len_nonneg s).
  destruct (len s <? 8) eqn:E8; [apply Z.ltb_lt in E8 | ]; if_cases; lia.
Qed.

(** What [assess_str] returns, field by field. *)
Lemma assess_str_fields (s : str) :
  len s <= PY_SSIZE_T_MAX ->
  exists r,
    assess_str s = Ok r /\
    r_score r = score_value (len s) (charset_size s) (formula_class_bonus s)
                  (formula_length_bonus s) (formula_penalty s) /\
    band (r_score r) (r_label r) /\
    d_class_bonus (r_details r) = formula_class_bonus s /\
    d_length_bonus (r_details r) = formula_length_bonus s /\
    d_penalty (r_details r) = formula_penalty s /\
    d_reasons_for_penalty (r_details r) = formula_reasons s.
Proof.
  intros Hlen. destruct (assess_str_score s Hlen) as (r & Hr & Hs).
  exists r. split; [exact Hr | split; [exact Hs | ]].
  split; [exact (label_in_band s r Hr) | ].
  clear Hs. assess_inv Hr.
  unfold r_details, d_class_bonus, d_length_bonus, d_penalty, d_reasons_for_penalty.
  cbv beta iota.
  split; [exact (class_bonus_unfold s) | split; [reflexivity | ]].
  split; [exact (penalty_unfold s) | ].
  unfold formula_reasons, triggered, penalty_rules.
  generalize (in_set (lower s) COMMON_PASSWORDS), (len s <? 8),
    (has_long_repeat s 4), (has_sequence s 4), (charset_size s <=? 26).
  intros [] [] [] [] []; reflexivity.
Qed.

Lemma band_below_60 (z : Z) (l : string) :
  band z l -> z < 60 -> l = "Very weak" \/ l = "Weak" \/ l = "Fair".
Proof. intros Hb Hz. inversion Hb; subst; first [tauto | lia]. Qed.

(** X16: the score lies between what the bonuses less the penalty give and
    that amount plus 60, the share of the entropy; it never exceeds 90, so
    the upper clamp at 100 never applies. *)
Theorem score_bounded_by_details (password : str) :
  len password <= PY_SSIZE_T_MAX ->
  exists r,
    assess_password (VStr password) = Ok r /\
    Z.max 0 (d_class_bonus (r_details r) + d_length_bonus (r_details r)
             - d_penalty (r_details r))
    <= r_score r
    <= Z.max 0 (60 + d_class_bonus (r_details r) + d_length_bonus (r_details r)
                - d_penalty (r_details r)) /\
    r_score r <= 90.
Proof.
  intros Hlen.
  destruct (assess_str_fields password Hlen) as (r & Hr & Hs & _ & Hcb & Hlb & Hpen & _).
  exists r. split; [exact Hr | ]. rewrite Hcb, Hlb, Hpen, Hs.
  pose proof (class_bonus_range password). pose proof (length_bonus_range password).
  pose proof (penalty_range password).
  assert (A1 : Z.abs (formula_class_bonus password) <= 15) by lia.
  assert (A2 : Z.abs (formula_length_bonus password) <= 15) by lia.
  assert (A3 : Z.abs (formula_penalty password) <= 109) by lia.
  pose proof (score_value_sandwich (len password) (charset_size password)
                (formula_class_bonus password) (formula_length_bonus password)
                (formula_penalty password) (len_nonneg password) A1 A2 A3).
  lia.
Qed.

Lemma formula_penalty_ge (s : str) :
  (if in_set (lower s) COMMON_PASSWORDS then 40 else 0) <= formula_penalty s /\
  (if len s <? 8 then (8 - len s) * 3 else 0) <= formula_penalty s /\
  (if charset_size s <=? 26 then 10 else 0) <= formula_penalty s.
Proof.
  rewrite formula_penalty_sum. pose proof (len_nonneg s).
  destruct (Z.ltb_spec (len s) 8); if_cases; lia.
Qed.

(** X17: a password whose lowered form is on the list of common passwords
    scores at most 50 and is rated "Fair" at best. *)
Theorem common_password_at_most_fair (password : str) :
  in_set (lower password) COMMON_PASSWORDS = true ->
  len password <= PY_SSIZE_T_MAX ->
  exists r,
    assess_password (VStr password) = Ok r /\
    r_score r <= 50 /\
    (r_label r = "Very weak" \/ r_label r = "Weak" \/ r_label r = "Fair") /\
    In "Very common password" (d_reasons_for_penalty (r_details r)).
Proof.
  intros Hcommon Hlen.
  destruct (assess_str_fields password Hlen) as (r & Hr & Hs & Hband & _ & _ & _ & Hreasons).
  exists r. split; [exact Hr | ].
  pose proof (class_bonus_range password). pose proof (length_bonus_range password).
  pose proof (penalty_range password).
  pose proof (formula_penalty_ge password) as (Hge & _ & _). rewrite Hcommon in Hge.
  assert (A1 : Z.abs (formula_class_bonus password) <= 15) by lia.
  assert (A2 : Z.abs (formula_length_bonus password) <= 15) by lia.
  assert (A3 : Z.abs (formula_penalty password) <= 109) by lia.
  pose proof (score_value_sandwich (len password) (charset_size password)
                (formula_class_bonus password) (formula_length_bonus password)
                (formula_penalty password) (len_nonneg password) A1 A2 A3) as Hsand.
  rewrite <- Hs in Hsand.
  assert (Hscore : r_score r <= 50) by lia.
  split; [exact Hscore | split; [apply (band_below_60 _ _ Hband); lia | ]].
  rewrite Hreasons. unfold formula_reasons, triggered, penalty_rules.
  rewrite Hcommon. cbn [filter fst map snd]. left. reflexivity.
Qed.

Lemma short_score_cap :
  Z.max 0 (Z.min 100 (round_int
    (round_value (round_value (round_value (base_value (bits_value 7 94) + 15 * unit_value)
                               + 0 * unit_value) - 3 * unit_value)))) = 58.
Proof. vm_compute. reflexivity. Qed.

(** X18: a password of fewer than 8 characters scores at most 58 and is
    rated "Fair" at best, whatever its characters. *)
Theorem short_password_at_most_fair (password : str) :
  len password < 8 ->
  exists r,
    assess_password (VStr password) = Ok r /\
    r_score r <= 58 /\
    (r_label r = "Very weak" \/ r_label r = "Weak" \/ r_label r = "Fair") /\
    In "Too short (recommend >= 12 chars)" (d_reasons_for_penalty (r_details r)).
Proof.
  intros Hshort.
  assert (Hlen : len password <= PY_SSIZE_T_MAX) by (unfold PY_SSIZE_T_MAX; lia).
  destruct (assess_str_fields password Hlen) as (r & Hr & Hs & Hband & _ & _ & _ & Hreasons).
  exists r. split; [exact Hr | ].
  pose proof (len_nonneg password) as Hl.
  pose proof (class_bonus_range password) as Hcb.
  pose proof (formula_penalty_ge password) as (_ & Hge & _).
  assert (E8 : (len password <? 8) = true) by (apply Z.ltb_lt; exact Hshort).
  rewrite E8 in Hge.
  assert (Hlb : formula_length_bonus password = 0).
  { unfold formula_length_bonus.
    destruct (Z.leb_spec 16 (len password)), (Z.leb_spec 12 (len password)),
      (Z.leb_spec 8 (len password)); lia. }
  assert (Hbits : bits_value (len password) (charset_size password) <= bits_value 7 94).
  { pose proof (charset_size_values password) as Hin.
    apply bits_value_mono; [lia | exact Hin | cbn [In]; tauto | cbn [In] in Hin; lia]. }
  assert (Hscore : r_score r <= 58).
  { rewrite Hs, <- short_score_cap. unfold score_value. cbv zeta. rewrite Hlb.
    apply score_value_mono; [ | lia | lia | lia].
    apply base_value_mono. split; [apply bits_value_nonneg; exact Hl | exact Hbits]. }
  split; [exact Hscore | split; [apply (band_below_60 _ _ Hband); lia | ]].
  rewrite Hreasons. unfold formula_reasons, triggered, penalty_rules.
  rewrite E8. cbn [filter fst map snd].
  destruct (in_set (lower password) COMMON_PASSWORDS); cbn [map snd In]; auto.
Qed.

End ScoreBounds.

Lemma score_bounded_by_details_witness :
  len (str_of "Tr0ub4dor&3") <= PY_SSIZE_T_MAX /\
  exists r,
    @assess_password ascii_only (VStr (str_of "Tr0ub4dor&3")) = Ok r /\
    Z.max 0 (d_class_bonus (r_details r) + d_length_bonus (r_details r)
             - d_penalty (r_details r))
    <= r_score r
    <= Z.max 0 (60 + d_class_bonus (r_details r) + d_length_bonus (r_details r)
                - d_penalty (r_details r)) /\
    r_score r <= 90.
Proof.
  split; [vm_compute; discriminate | ].
  apply (@score_bounded_by_details ascii_only). vm_compute; discriminate.
Defined.

Lemma common_password_at_most_fair_witness :
  exists r,
    @assess_password ascii_only (VStr (str_of "TrustNo1")) = Ok r /\
    r_score r <= 50 /\
    (r_label r = "Very weak" \/ r_label r = "Weak" \/ r_label r = "Fair") /\
    In "Very common password" (d_reasons_for_penalty (r_details r)).
Proof.
  apply (@common_password_at_most_fair ascii_only (str_of "TrustNo1"));
    [reflexivity | vm_compute; discriminate].
Defined.

Lemma short_password_at_most_fair_witness :
  exists r,
    @assess_password ascii_only (VStr (str_of "aB3$xQ9")) = Ok r /\
    r_score r <= 58 /\
    (r_label r = "Very weak" \/ r_label r = "Weak" \/ r_label r = "Fair") /\
    In "Too short (recommend >= 12 chars)" (d_reasons_for_penalty (r_details r)).
Proof.
  apply (@short_password_at_most_fair ascii_only (str_of "aB3$xQ9")).
  vm_compute. reflexivity.
Defined.

(** ** Reasons, suggestions and what the assessment reads *)

Section Advice.

Context {U : Unicode}.

Import PyNum.

Local Open Scope string_scope.
Local Open Scope Z_scope.

Lemma append_if_nil (c : bool) (xs : list string) (x : string) :
  append_if c xs x = [] <-> c = false /\ xs = [].
Proof.
  unfold append_if. destruct c.
  - split; [intros H; apply app_eq_nil in H as [_ H]; discriminate H | ].
    intros [H _]. discriminate H.
  - tauto.
Qed.

Lemma In_append_if (c : bool) (xs : list string) (x y : string) :
  In y (append_if c xs x) <-> In y xs \/ (c = true /\ y = x).
Proof.
  unfold append_if. destruct c.
  - rewrite in_app_iff. cbn [In]. intuition congruence.
  - intuition discriminate.
Qed.

Lemma base_value_full (L : Z) :
  12 <= L -> base_value (bits_value L 94) = 60 * unit_value.
Proof.
  intros HL.
  assert (H12 : base_value (bits_value 12 94) = 60 * unit_value)
    by (vm_compute; reflexivity).
  pose proof (base_value_le_60 (bits_value L 94)) as Hhi.
  assert (Hlo : base_value (bits_value 12 94) <= base_value (bits_value L 94)).
  { apply base_value_mono. split; [apply bits_value_nonneg; lia | ].
    apply bits_value_mono; [lia | cbn [In]; tauto | cbn [In]; tauto | lia]. }
  rewrite H12 in Hlo. apply Z.le_antisymm; assumption.
Qed.

Lemma charset_size_one (s : str) :
  charset_size s = 1 <->
  re_search class_lower s = false /\ re_search class_upper s = false /\
  re_search class_digit s = false /\ re_search class_symbol s = false.
Proof.
  unfold charset_size.
  destruct (re_search class_lower s), (re_search class_upper s),
    (re_search class_digit s), (re_search class_symbol s);
    cbn; intuition (try lia; try discriminate).
Qed.

Lemma charset_size_small (s : str) :
  charset_size s <= 26 ->
  re_search class_symbol s = false /\
  (0 + (if re_search class_lower s then 1 else 0)
   + (if re_search class_upper s then 1 else 0)
   + (if re_search class_digit s then 1 else 0)
   + (if re_search class_symbol s then 1 else 0)) <= 1.
Proof.
  unfold charset_size.
  destruct (re_search class_lower s), (re_search class_upper s),
    (re_search class_digit s), (re_search class_symbol s);
    cbn; intros H; first [lia | split; [reflexivity | lia]].
Qed.

Lemma pair_eq {A B : Type} (a c : A) (b d : B) : (a, b) = (c, d) -> a = c /\ b = d.
Proof. intros H. injection H as -> ->. split; reflexivity. Qed.

(** X19: the assessment reads a password only through its length, the four
    class tests and the three detectors: two passwords that agree on these
    receive the same score, label, suggestions and details. *)
Theorem assessment_by_profile (p q : str) :
  profile p = profile q ->
  assess_password (VStr p) = assess_password (VStr q).
Proof.
  unfold profile. intros H.
  apply pair_eq in H as [H [Hc Hq]%pair_eq]. apply pair_eq in Hc as [Hc Hr].
  apply pair_eq in H as [Hlen H]. apply pair_eq in H as [H Hs].
  apply pair_eq in H as [H Hd]. apply pair_eq in H as [Hl Hu].
  unfold assess_password, assess_str, entropy_bits, charset_size.
  rewrite Hlen, Hl, Hu, Hd, Hs, Hc, Hr, Hq. reflexivity.
Qed.

(** X20: a password with no character of the four classes has entropy 0.0
    and a base score of 0; its score is the length bonus less the penalty,
    at most 5, and it is rated "Very weak" with the variety reason. *)
Theorem password_without_classes (password : str) :
  charset_size password = 1 ->
  len password <= PY_SSIZE_T_MAX ->
  exists r,
    assess_password (VStr password) = Ok r /\
    r_score r = Z.max 0 (d_length_bonus (r_details r) - d_penalty (r_details r)) /\
    r_score r <= 5 /\
    r_label r = "Very weak" /\
    d_classes (r_details r) = 0 /\
    d_entropy_bits (r_details r) = Float (S754_zero false) /\
    d_base_entropy_score (r_details r) = Int 0 /\
    In "Limited character variety" (d_reasons_for_penalty (r_details r)).
Proof.
  intros Hsize Hlen.
  destruct (assess_str_fields password Hlen)
    as (r & Hr & Hs & Hband & Hcb & Hlb & Hpen & Hreasons).
  exists r. split; [exact Hr | ].
  pose proof (proj1 (charset_size_one password) Hsize) as (Rl & Ru & Rd & Rs).
  pose proof (length_bonus_range password) as Blb.
  pose proof (penalty_range password) as Bpen.
  pose proof (formula_penalty_ge password) as (_ & _ & Hge).
  rewrite Hsize in Hge. change (1 <=? 26) with true in Hge. cbv iota in Hge.
  assert (Ecb : formula_class_bonus password = 0).
  { rewrite <- class_bonus_unfold, Rl, Ru, Rd, Rs. reflexivity. }
  assert (Hscore : r_score r
                   = Z.max 0 (formula_length_bonus password - formula_penalty password)).
  { rewrite Hs, Hsize, Ecb. unfold score_value. cbv zeta.
    change (base_value (bits_value (len password) 1)) with (0 * unit_value).
    rewrite (pipeline_units 0 0) by lia. lia. }
  rewrite Hlb, Hpen. split; [exact Hscore | ].
  assert (H5 : r_score r <= 5) by lia.
  split; [exact H5 | ].
  split; [inversion Hband; subst; first [reflexivity | lia] | ].
  rewrite Hreasons. clear Hs Hband Hcb Hlb Hpen Hreasons Hscore H5.
  assess_inv Hr. unfold entropy_bits in E. rewrite Hsize in E.
  change (1 <? 1) with false in E. cbv iota in E. apply Ok_inj in E. subst.
  vm_compute in E0. apply Ok_inj in E0. subst.
  apply Ok_inj in E1. subst.
  unfold r_details, d_classes, d_entropy_bits, d_base_entropy_score.
  cbv beta iota. rewrite Rl, Ru, Rd, Rs.
  split; [reflexivity | split; [reflexivity | split; [reflexivity | ]]].
  unfold formula_reasons, triggered, penalty_rules. rewrite Hsize.
  change (1 <=? 26) with true.
  generalize (in_set (lower password) COMMON_PASSWORDS), (len password <? 8),
    (has_long_repeat password 4), (has_sequence password 4).
  intros [] [] [] []; cbn [filter fst map snd In]; tauto.
Qed.

(** X21: the list of suggestions is empty exactly when the password has at
    least 12 characters, all four classes, no long repeat, no sequence and
    is not a common password; such a password has no penalty, scores 85
    (90 from 16 characters on) and is rated "Very strong". *)
Theorem no_suggestions_means_very_strong (password : str) :
  len password <= PY_SSIZE_T_MAX ->
  exists r,
    assess_password (VStr password) = Ok r /\
    (r_suggestions r = [] <->
     12 <= len password /\
     re_search class_upper password = true /\
     re_search class_lower password = true /\
     re_search class_digit password = true /\
     re_search class_symbol password = true /\
     has_long_repeat password 4 = false /\
     has_sequence password 4 = false /\
     in_set (lower password) COMMON_PASSWORDS = false) /\
    (r_suggestions r = [] ->
     r_score r = (if 16 <=? len password then 90 else 85) /\
     r_label r = "Very strong" /\
     d_penalty (r_details r) = 0 /\
     d_reasons_for_penalty (r_details r) = []).
Proof.
  intros Hlen.
  destruct (assess_str_fields password Hlen)
    as (r & Hr & Hs & Hband & _ & _ & Hpen & Hreasons).
  exists r. split; [exact Hr | ].
  assert (Hiff : r_suggestions r = [] <->
     12 <= len password /\
     re_search class_upper password = true /\
     re_search class_lower password = true /\
     re_search class_digit password = true /\
     re_search class_symbol password = true /\
     has_long_repeat password 4 = false /\
     has_sequence password 4 = false /\
     in_set (lower password) COMMON_PASSWORDS = false).
  { clear Hs Hband Hpen Hreasons. assess_inv Hr. unfold r_suggestions.
    rewrite !append_if_nil, !negb_false_iff, Z.ltb_ge. tauto. }
  split; [exact Hiff | ].
  intros Hnil. apply Hiff in Hnil as (HL & Ru & Rl & Rd & Rs & Hrep & Hseq & Hcom).
  assert (Hsize : charset_size password = 94).
  { unfold charset_size. rewrite Rl, Ru, Rd, Rs. reflexivity. }
  assert (Ecb : formula_class_bonus password = 15).
  { rewrite <- class_bonus_unfold, Rl, Ru, Rd, Rs. reflexivity. }
  assert (E8 : (len password <? 8) = false) by (apply Z.ltb_ge; lia).
  assert (Epen : formula_penalty password = 0).
  { rewrite formula_penalty_sum, Hcom, E8, Hrep, Hseq, Hsize. reflexivity. }
  assert (Elb : formula_length_bonus password = if 16 <=? len password then 15 else 10).
  { unfold formula_length_bonus.
    destruct (16 <=? len password); [reflexivity | ].
    destruct (Z.leb_spec 12 (len password)); [reflexivity | lia]. }
  assert (Hscore : r_score r = if 16 <=? len password then 90 else 85).
  { rewrite Hs, Hsize, Ecb, Epen, Elb. unfold score_value. cbv zeta.
    rewrite (base_value_full _ HL).
    destruct (16 <=? len password).
    - rewrite (pipeline_units 60 15 15 0) by lia. reflexivity.
    - rewrite (pipeline_units 60 15 10 0) by lia. reflexivity. }
  split; [exact Hscore | ].
  split.
  - rewrite Hscore in Hband.
    destruct (16 <=? len password); inversion Hband; subst; first [reflexivity | lia].
  - split; [rewrite Hpen; exact Epen | ].
    rewrite Hreasons. unfold formula_reasons, triggered, penalty_rules.
    rewrite Hcom, E8, Hrep, Hseq, Hsize. reflexivity.
Qed.

Lemma In_existsb (y : string) (l : list string) :
  In y l <-> existsb (String.eqb y) l = true.
Proof.
  rewrite existsb_exists. split.
  - intros H. exists y. split; [exact H | apply String.eqb_refl].
  - intros (x & Hx & E). apply String.eqb_eq in E. subst x. exact Hx.
Qed.

Lemma In_imp_bool (y1 y2 : string) (l1 l2 : list string) :
  (existsb (String.eqb y1) l1 = true -> existsb (String.eqb y2) l2 = true) ->
  In y1 l1 -> In y2 l2.
Proof. rewrite !In_existsb. tauto. Qed.

Lemma existsb_append_if (f : string -> bool) (c : bool) (xs : list string) (x : string) :
  existsb f (append_if c xs x) = existsb f xs || (f x && c).
Proof.
  unfold append_if. destruct c.
  - rewrite existsb_app. cbn [existsb]. rewrite orb_false_r, andb_true_r. reflexivity.
  - rewrite andb_false_r, orb_false_r. reflexivity.
Qed.

(** The reasons and the suggestions as the conditions build them. *)
Lemma advice_consistent (common short repeated sequence variety : bool)
    (long nu nl nd ns : bool) :
  (short = true -> long = true) ->
  (variety = true -> ns = true) ->
  (In "Long repeated characters"
      (append_if variety
         (append_if sequence
            (append_if repeated
               (append_if short
                  (append_if common [] "Very common password")
                  "Too short (recommend >= 12 chars)")
               "Long repeated characters")
            "Sequence detected (e.g., 'abcd' or '1234')")
         "Limited character variety") <->
   In "Avoid long repeated characters."
      (append_if common
         (append_if sequence
            (append_if repeated
               (append_if ns
                  (append_if nd
                     (append_if nl
                        (append_if nu
                           (append_if long []
                              "Make it longer (12+ characters recommended).")
                           "Add uppercase letters.")
                        "Add lowercase letters.")
                     "Add digits.")
                  "Add special characters (e.g., !@#$%).")
               "Avoid long repeated characters.")
            "Avoid simple sequences like 'abcd' or '1234'.")
         "Don't use common passwords (e.g., 'password', '123456').")) /\
  (In "Sequence detected (e.g., 'abcd' or '1234')"
      (append_if variety
         (append_if sequence
            (append_if repeated
               (append_if short
                  (append_if common [] "Very common password")
                  "Too short (recommend >= 12 chars)")
               "Long repeated characters")
            "Sequence detected (e.g., 'abcd' or '1234')")
         "Limited character variety") <->
   In "Avoid simple sequences like 'abcd' or '1234'."
      (append_if common
         (append_if sequence
            (append_if repeated
               (append_if ns
                  (append_if nd
                     (append_if nl
                        (append_if nu
                           (append_if long []
                              "Make it longer (12+ characters recommended).")
                           "Add uppercase letters.")
                        "Add lowercase letters.")
                     "Add digits.")
                  "Add special characters (e.g., !@#$%).")
               "Avoid long repeated characters.")
            "Avoid simple sequences like 'abcd' or '1234'.")
         "Don't use common passwords (e.g., 'password', '123456').")) /\
  (In "Very common password"
      (append_if variety
         (append_if sequence
            (append_if repeated
               (append_if short
                  (append_if common [] "Very common password")
                  "Too short (recommend >= 12 chars)")
               "Long repeated characters")
            "Sequence detected (e.g., 'abcd' or '1234')")
         "Limited character variety") <->
   In "Don't use common passwords (e.g., 'password', '123456')."
      (append_if common
         (append_if sequence
            (append_if repeated
               (append_if ns
                  (append_if nd
                     (append_if nl
                        (append_if nu
                           (append_if long []
                              "Make it longer (12+ characters recommended).")
                           "Add uppercase letters.")
                        "Add lowercase letters.")
                     "Add digits.")
                  "Add special characters (e.g., !@#$%).")
               "Avoid long repeated characters.")
            "Avoid simple sequences like 'abcd' or '1234'.")
         "Don't use common passwords (e.g., 'password', '123456').")) /\
  (In "Too short (recommend >= 12 chars)"
      (append_if variety
         (append_if sequence
            (append_if repeated
               (append_if short
                  (append_if common [] "Very common password")
                  "Too short (recommend >= 12 chars)")
               "Long repeated characters")
            "Sequence detected (e.g., 'abcd' or '1234')")
         "Limited character variety") ->
   In "Make it longer (12+ characters recommended)."
      (append_if common
         (append_if sequence
            (append_if repeated
               (append_if ns
                  (append_if nd
                     (append_if nl
                        (append_if nu
                           (append_if long []
                              "Make it longer (12+ characters recommended).")
                           "Add uppercase letters.")
                        "Add lowercase letters.")
                     "Add digits.")
                  "Add special characters (e.g., !@#$%).")
               "Avoid long repeated characters.")
            "Avoid simple sequences like 'abcd' or '1234'.")
         "Don't use common passwords (e.g., 'password', '123456').")) /\
  (In "Limited character variety"
      (append_if variety
         (append_if sequence
            (append_if repeated
               (append_if short
                  (append_if common [] "Very common password")
                  "Too short (recommend >= 12 chars)")
               "Long repeated characters")
            "Sequence detected (e.g., 'abcd' or '1234')")
         "Limited character variety") ->
   In "Add special characters (e.g., !@#$%)."
      (append_if common
         (append_if sequence
            (append_if repeated
               (append_if ns
                  (append_if nd
                     (append_if nl
                        (append_if nu
                           (append_if long []
                              "Make it longer (12+ characters recommended).")
                           "Add uppercase letters.")
                        "Add lowercase letters.")
                     "Add digits.")
                  "Add special characters (e.g., !@#$%).")
               "Avoid long repeated characters.")
            "Avoid simple sequences like 'abcd' or '1234'.")
         "Don't use common passwords (e.g., 'password', '123456').")).
Proof.
  intros Hshort Hvar.
  assert (Hs : short = false \/ long = true)
    by (destruct short; [right; apply Hshort; reflexivity | left; reflexivity]).
  assert (Hv : variety = false \/ ns = true)
    by (destruct variety; [right; apply Hvar; reflexivity | left; reflexivity]).
  clear Hshort Hvar.
  repeat split; apply In_imp_bool; rewrite !existsb_append_if; vm_compute;
    destruct Hs as [-> | ->], Hv as [-> | ->];
    repeat match goal with
      | |- context [if ?b then _ else _] => is_var b; destruct b
      end;
    first [intros _; reflexivity | intros H; exact H].
Qed.

(** X22: the reasons and the suggestions agree: the repeat, sequence and
    common-password reasons are recorded exactly when the matching advice
    is given, a too-short reason comes with the advice to make the
    password longer, and the variety reason with the advice to add special
    characters. *)
Theorem reasons_match_suggestions (password : str) :
  len password <= PY_SSIZE_T_MAX ->
  exists r,
    assess_password (VStr password) = Ok r /\
    (In "Long repeated characters" (d_reasons_for_penalty (r_details r)) <->
     In "Avoid long repeated characters." (r_suggestions r)) /\
    (In "Sequence detected (e.g., 'abcd' or '1234')"
        (d_reasons_for_penalty (r_details r)) <->
     In "Avoid simple sequences like 'abcd' or '1234'." (r_suggestions r)) /\
    (In "Very common password" (d_reasons_for_penalty (r_details r)) <->
     In "Don't use common passwords (e.g., 'password', '123456')."
        (r_suggestions r)) /\
    (In "Too short (recommend >= 12 chars)" (d_reasons_for_penalty (r_details r)) ->
     In "Make it longer (12+ characters recommended)." (r_suggestions r)) /\
    (In "Limited character variety" (d_reasons_for_penalty (r_details r)) ->
     In "Add special characters (e.g., !@#$%)." (r_suggestions r)).
Proof.
  intros Hlen. destruct (assess_str_total password Hlen) as [r Hr].
  exists r. split; [exact Hr | ].
  assert (Hshort : (len password <? 8) = true -> (len password <? 12) = true).
  { rewrite !Z.ltb_lt. lia. }
  assert (Hvar : (charset_size password <=? 26) = true ->
                 negb (re_search class_symbol password) = true).
  { rewrite Z.leb_le. intros H. apply charset_size_small in H as [-> _]. reflexivity. }
  assess_inv Hr. unfold r_suggestions, r_details, d_reasons_for_penalty.
  cbv beta iota. exact (advice_consistent _ _ _ _ _ _ _ _ _ _ Hshort Hvar).
Qed.

(** X23: the penalty lies between 0 and 109; it is 0 exactly when no reason
    is recorded, and a penalty above 0 is at least 3; at most five reasons
    are recorded. *)
Theorem penalty_and_reasons (password : str) :
  len password <= PY_SSIZE_T_MAX ->
  exists r,
    assess_password (VStr password) = Ok r /\
    0 <= d_penalty (r_details r) <= 109 /\
    (d_penalty (r_details r) = 0 <-> d_reasons_for_penalty (r_details r) = []) /\
    (d_penalty (r_details r) = 0 \/ 3 <= d_penalty (r_details r)) /\
    (List.length (d_reasons_for_penalty (r_details r)) <= 5)%nat.
Proof.
  intros Hlen.
  destruct (assess_str_fields password Hlen)
    as (r & Hr & _ & _ & _ & _ & Hpen & Hreasons).
  exists r. split; [exact Hr | ]. rewrite Hpen, Hreasons.
  split; [exact (penalty_range password) | ].
  rewrite formula_penalty_sum. unfold formula_reasons, triggered, penalty_rules.
  pose proof (len_nonneg password) as Hl.
  destruct (Z.ltb_spec (len password) 8);
    destruct (in_set (lower password) COMMON_PASSWORDS),
      (has_long_repeat password 4), (has_sequence password 4),
      (charset_size password <=? 26);
    cbn [filter fst map snd List.length];
    (split; [split; [intros; lia || reflexivity | intros; discriminate || reflexivity]
            | split; lia]).
Qed.

(** X24: the variety reason is recorded exactly when at most one class
    occurs and it is not the symbol class; the class bonus is then 0. *)
Theorem variety_penalty_iff (password : str) :
  len password <= PY_SSIZE_T_MAX ->
  exists r,
    assess_password (VStr password) = Ok r /\
    (In "Limited character variety" (d_reasons_for_penalty (r_details r)) <->
     d_classes (r_details r) <= 1 /\ re_search class_symbol password = false) /\
    (In "Limited character variety" (d_reasons_for_penalty (r_details r)) ->
     d_class_bonus (r_details r) = 0).
Proof.
  intros Hlen. destruct (assess_str_total password Hlen) as [r Hr].
  exists r. split; [exact Hr | ].
  assess_inv Hr. unfold r_details, d_reasons_for_penalty, d_classes, d_class_bonus.
  rewrite !In_append_if. cbn [In]. unfold charset_size.
  generalize (in_set (lower password) COMMON_PASSWORDS), (len password <? 8),
    (has_long_repeat password 4), (has_sequence password 4).
  intros common short repeated sequence.
  destruct (re_search class_lower password), (re_search class_upper password),
    (re_search class_digit password), (re_search class_symbol password);
    cbn; split;
    try (split; [intros H; repeat destruct H as [H | H];
                 first [contradiction | destruct H; discriminate]
                | intros [? ?]; first [lia | discriminate]]);
    try (split; [intros _; split; [lia | reflexivity] | intros _; right; split; reflexivity]);
    try (intros H; repeat destruct H as [H | H];
         first [contradiction | destruct H; discriminate]);
    try reflexivity.
Qed.

(** X25: every password of the list, entered as listed, is found on the
    list, scores below 20 and is rated "Very weak". *)
Theorem listed_passwords_very_weak (password : str) :
  In password COMMON_PASSWORDS ->
  exists r,
    assess_password (VStr password) = Ok r /\
    In "Very common password" (d_reasons_for_penalty (r_details r)) /\
    r_score r < 20 /\
    r_label r = "Very weak".
Proof.
  intros Hin. unfold COMMON_PASSWORDS in Hin. cbn [map In] in Hin.
  repeat (destruct Hin as [<- | Hin];
          [eexists; split; [vm_compute; reflexivity | ];
           split; [cbn; tauto | split; reflexivity] | ]).
  contradiction.
Qed.

End Advice.

Lemma assessment_by_profile_witness :
  @profile ascii_only (str_of "Kq7#mZx2") = @profile ascii_only (str_of "Wd4!pRt9") /\
  @assess_password ascii_only (VStr (str_of "Kq7#mZx2"))
  = @assess_password ascii_only (VStr (str_of "Wd4!pRt9")).
Proof.
  split; [reflexivity | ].
  apply (@assessment_by_profile ascii_only). reflexivity.
Defined.

Lemma password_without_classes_witness :
  exists r,
    @assess_password ascii_only (VStr [233; 32; 241; 32; 252]) = Ok r /\
    r_score r <= 5 /\ r_label r = "Very weak" /\
    d_entropy_bits (r_details r) = PyNum.Float (S754_zero false).
Proof.
  destruct (@password_without_classes ascii_only [233; 32; 241; 32; 252])
    as (r & Hr & _ & H5 & Hl & _ & He & _);
    [reflexivity | vm_compute; discriminate | ].
  exists r. split; [exact Hr | split; [exact H5 | split; [exact Hl | exact He]]].
Defined.

Lemma no_suggestions_means_very_strong_witness :
  exists r,
    @assess_password ascii_only (VStr (str_of "Tr0ub4dor&3xY")) = Ok r /\
    r_suggestions r = [] /\ r_score r = 85 /\ r_label r = "Very strong".
Proof.
  destruct (@no_suggestions_means_very_strong ascii_only (str_of "Tr0ub4dor&3xY"))
    as (r & Hr & Hiff & Hscore); [vm_compute; discriminate | ].
  assert (Hnil : r_suggestions r = []).
  { apply Hiff. split; [vm_compute; discriminate | repeat split; reflexivity]. }
  destruct (Hscore Hnil) as (Hs & Hl & _).
  exists r. split; [exact Hr | split; [exact Hnil | split; [exact Hs | exact Hl]]].
Defined.

Lemma reasons_match_suggestions_witness :
  exists r,
    @assess_password ascii_only (VStr (str_of "aaaa1234")) = Ok r /\
    (In "Long repeated characters" (d_reasons_for_penalty (r_details r)) <->
     In "Avoid long repeated characters." (r_suggestions r)) /\
    (In "Sequence detected (e.g., 'abcd' or '1234')"
        (d_reasons_for_penalty (r_details r)) <->
     In "Avoid simple sequences like 'abcd' or '1234'." (r_suggestions r)).
Proof.
  destruct (@reasons_match_suggestions ascii_only (str_of "aaaa1234"))
    as (r & Hr & H1 & H2 & _); [vm_compute; discriminate | ].
  exists r. split; [exact Hr | split; [exact H1 | exact H2]].
Defined.

Lemma penalty_and_reasons_witness :
  exists r,
    @assess_password ascii_only (VStr (str_of "aaaa1234")) = Ok r /\
    0 <= d_penalty (r_details r) <= 109 /\
    (d_penalty (r_details r) = 0 <-> d_reasons_for_penalty (r_details r) = []).
Proof.
  destruct (@penalty_and_reasons ascii_only (str_of "aaaa1234"))
    as (r & Hr & H1 & H2 & _); [vm_compute; discriminate | ].
  exists r. split; [exact Hr | split; [exact H1 | exact H2]].
Defined.

Lemma variety_penalty_iff_witness :
  exists r,
    @assess_password ascii_only (VStr (str_of "correcthorse")) = Ok r /\
    (In "Limited character variety" (d_reasons_for_penalty (r_details r)) <->
     d_classes (r_details r) <= 1 /\
     @re_search class_symbol (str_of "correcthorse") = false) /\
    (In "Limited character variety" (d_reasons_for_penalty (r_details r)) ->
     d_class_bonus (r_details r) = 0).
Proof.
  apply (@variety_penalty_iff ascii_only (str_of "correcthorse")).
  vm_compute; discriminate.
Defined.

Lemma listed_passwords_very_weak_witness :
  In (str_of "trustno1") COMMON_PASSWORDS /\
  exists r,
    @assess_password ascii_only (VStr (str_of "trustno1")) = Ok r /\
    In "Very common password" (d_reasons_for_penalty (r_details r)) /\
    r_score r < 20 /\
    r_label r = "Very weak".
Proof.
  assert (Hin : In (str_of "trustno1") COMMON_PASSWORDS).
  { unfold COMMON_PASSWORDS. cbn [map In]. do 11 right. left. reflexivity. }
  split; [exact Hin | ].
  apply (@listed_passwords_very_weak ascii_only (str_of "trustno1") Hin).
Defined.

(** ** Passwords of symbols only *)

Section SymbolsOnly.

Context {U : Unicode}.

Import PyNum.

Local Open Scope string_scope.
Local Open Scope Z_scope.

(** With the alphabet of the 32 symbols every character counts 5 bits, and
    the base score is 5 points a character, up to 60. *)
Lemma base_value_symbols (L : Z) :
  1 <= L -> base_value (bits_value L 32) = Z.min 60 (5 * L) * unit_value.
Proof.
  intros HL. destruct (Z_lt_le_dec L 12) as [Hlt | Hge].
  - assert (Hcases : L = 1 \/ L = 2 \/ L = 3 \/ L = 4 \/ L = 5 \/ L = 6 \/
                     L = 7 \/ L = 8 \/ L = 9 \/ L = 10 \/ L = 11) by lia.
    repeat (destruct Hcases as [-> | Hcases]; [vm_compute; reflexivity | ]).
    subst L. vm_compute; reflexivity.
  - replace (Z.min 60 (5 * L)) with 60 by lia.
    assert (H12 : base_value (bits_value 12 32) = 60 * unit_value)
      by (vm_compute; reflexivity).
    pose proof (base_value_le_60 (bits_value L 32)) as Hhi.
    assert (Hlo : base_value (bits_value 12 32) <= base_value (bits_value L 32)).
    { apply base_value_mono. split; [apply bits_value_nonneg; lia | ].
      apply bits_value_mono; [lia | cbn [In]; tauto | cbn [In]; tauto | lia]. }
    rewrite H12 in Hlo. apply Z.le_antisymm; assumption.
Qed.

(** C10: a non-empty password of symbols only has one class and the
    alphabet size 32, and the variety penalty is not applied: its reason is
    not recorded, the recorded penalty is the sum of the other four
    penalties, without the 10 points, and the score is 5 points a character
    (at most 60) plus the length bonus, less that penalty and not below 0. *)
Theorem symbols_only_no_variety_penalty (password : str) :
  password <> [] ->
  (forall c, In c password -> class_symbol c = true) ->
  len password <= PY_SSIZE_T_MAX ->
  exists r,
    assess_password (VStr password) = Ok r /\
    d_classes (r_details r) = 1 /\
    d_charset_size (r_details r) = 32 /\
    ~ In "Limited character variety" (d_reasons_for_penalty (r_details r)) /\
    d_penalty (r_details r)
    = (if in_set (lower password) COMMON_PASSWORDS then 40 else 0)
      + (if len password <? 8 then (8 - len password) * 3 else 0)
      + (if has_long_repeat password 4 then 15 else 0)
      + (if has_sequence password 4 then 20 else 0) /\
    r_score r
    = Z.max 0 (Z.min 60 (5 * len password) + d_length_bonus (r_details r)
               - d_penalty (r_details r)).
Proof.
  intros Hne Hsym Hlen.
  destruct (symbols_only_classes password Hne Hsym) as (Hl & Hu & Hd & Hs).
  assert (Hsize : charset_size password = 32).
  { unfold charset_size. rewrite Hl, Hu, Hd, Hs. reflexivity. }
  assert (Hpos : 1 <= len password).
  { destruct password; [contradiction | ]. unfold len. cbn [List.length]. lia. }
  destruct (assess_str_fields password Hlen)
    as (r & Hr & Hscore & _ & _ & Hlb & Hpen & Hreasons).
  exists r. split; [exact Hr | ].
  assert (Ecb : formula_class_bonus password = 0).
  { rewrite <- class_bonus_unfold, Hl, Hu, Hd, Hs. reflexivity. }
  assert (Epen : formula_penalty password
                 = (if in_set (lower password) COMMON_PASSWORDS then 40 else 0)
                   + (if len password <? 8 then (8 - len password) * 3 else 0)
                   + (if has_long_repeat password 4 then 15 else 0)
                   + (if has_sequence password 4 then 20 else 0)).
  { rewrite formula_penalty_sum, Hsize. change (32 <=? 26) with false.
    cbv iota. lia. }
  pose proof (length_bonus_range password) as Blb.
  pose proof (penalty_range password) as Bpen.
  assert (Escore : r_score r
                   = Z.max 0 (Z.min 60 (5 * len password)
                              + formula_length_bonus password
                              - formula_penalty password)).
  { rewrite Hscore, Hsize, Ecb. unfold score_value. cbv zeta.
    rewrite (base_value_symbols _ Hpos).
    rewrite (pipeline_units (Z.min 60 (5 * len password)) 0) by lia. lia. }
  rewrite Hlb, Hpen, Hreasons, <- Epen.
  assert (Hvar : ~ In "Limited character variety" (formula_reasons password)).
  { unfold formula_reasons, triggered, penalty_rules. rewrite Hsize.
    change (32 <=? 26) with false.
    generalize (in_set (lower password) COMMON_PASSWORDS), (len password <? 8),
      (has_long_repeat password 4), (has_sequence password 4).
    intros [] [] [] []; cbn [filter fst map snd In]; intuition discriminate. }
  clear Hscore Hlb Hpen Hreasons Epen Blb Bpen.
  assess_inv Hr.
  unfold r_details, d_classes, d_charset_size. cbv beta iota.
  rewrite Hl, Hu, Hd, Hs, Hsize.
  split; [reflexivity | split; [reflexivity | ]].
  split; [exact Hvar | split; [reflexivity | exact Escore]].
Qed.

End SymbolsOnly.

Lemma symbols_only_witness :
  exists r,
    @assess_password ascii_only (VStr (str_of "#!?+*")) = Ok r /\
    d_classes (r_details r) = 1 /\
    d_charset_size (r_details r) = 32 /\
    ~ In "Limited character variety" (d_reasons_for_penalty (r_details r)) /\
    d_penalty (r_details r) = 9 /\
    r_score r = 16.
Proof.
  destruct (@symbols_only_no_variety_penalty ascii_only (str_of "#!?+*"))
    as (r & Hr & Hc & Hsz & Hv & Hp & Hsc).
  - discriminate.
  - intros c Hc. vm_compute in Hc.
    repeat (destruct Hc as [<- | Hc]; [reflexivity | ]). contradiction.
  - vm_compute; discriminate.
  - exists r. split; [exact Hr | split; [exact Hc | split; [exact Hsz | ]]].
    split; [exact Hv | ]. rewrite Hsc, Hp. split; [reflexivity | ].
    revert Hr. vm_compute. intros Hr. apply Ok_inj in Hr. subst r. reflexivity.
Defined.
